(** * rna-cli: build orchestration and watch/rebuild scheduling

    A shallow embedding of the watch-mode part of [commands/build/action.js]
    (the change filter [filterChangedBundles], the [reBuild] closure, the
    debounced watcher callback), of [Project.resolve] / [Directory.resolve]
    (lib/File) and of [WebManifestBundler.setup], together with the
    properties the specification states about them. *)

From stdpp Require Import gmap strings list pretty.
From Stdlib Require Import ZArith Lia.

Open Scope string_scope.
Open Scope Z_scope.
Open Scope list_scope.
Open Scope nat_scope.

(** ** Data model *)

(** A [File] object as the watcher hands it over; only [file.path] is read. *)
Record File := mkFile { file_path : string }.

(** A bundler instance.  [bundle_id] stands for the identity of the JS
    object (the key of the [statuses] WeakMap); [bundle_files] is the
    [files] property, [None] when it is unset (any falsy value). *)
Record Bundle := mkBundle {
  bundle_id : nat;
  bundle_files : option (list string)
}.

(** The value a JS callback hands back to [Array.prototype.filter]. *)
Inductive js_value :=
| JsBool (b : bool)
| JsArray (l : list string).

(** JS truthiness: every array, even the empty one, is truthy. *)
Definition truthy (v : js_value) : bool :=
  match v with
  | JsBool b => b
  | JsArray _ => true
  end.

#[global] Instance File_eq_dec : EqDecision File.
Proof. solve_decision. Defined.

#[global] Instance Bundle_eq_dec : EqDecision Bundle.
Proof. solve_decision. Defined.

Section ChangeFilter.

(** [fs.realpathSync]: the symlink-resolved absolute path, or [None] when
    the call throws (the path does not exist). *)
Variable realpathSync : string -> option string.

(** [files.map((file) => realpathSync(file.path))]: throws at the first
    path that does not resolve. *)
Definition realpaths (files : list File) : option (list string) :=
  mapM (λ file, realpathSync (file_path file)) files.

(** The callback given to [bundles.filter] in [filterChangedBundles]. *)
Definition changed_callback (files : list string) (bundle : Bundle) : js_value :=
  match bundle_files bundle with
  | None => JsArray []
  | Some bfiles => JsBool (existsb (λ file, bool_decide (file ∈ bfiles)) files)
  end.

(** [filterChangedBundles(bundles, files)]; [None] when [realpathSync]
    throws. *)
Definition filterChangedBundles (bundles : list Bundle) (files : list File)
  : option (list Bundle) :=
  files' ← realpaths files;
  Some (filter (λ bundle, truthy (changed_callback files' bundle)) bundles).

(** The [ignore] predicate handed to [project.watch]:
    [(file) => !filterChangedBundles(bundlers, [file]).length]. *)
Definition ignore (bundlers : list Bundle) (file : File) : option bool :=
  changed ← filterChangedBundles bundlers [file];
  Some (bool_decide (length changed = 0)).

(** A bundle tracks a changed file when its [files] list holds the
    resolved path of that file. *)
Definition tracks (bundle : Bundle) (file : File) : Prop :=
  ∃ bfiles real, bundle_files bundle = Some bfiles
                 ∧ realpathSync (file_path file) = Some real
                 ∧ real ∈ bfiles.

Definition files_set (bundle : Bundle) : Prop := is_Some (bundle_files bundle).

End ChangeFilter.

(** ** Promises, microtasks and the state of the watch closure *)

(** What can be waiting on a promise of the chain (or sit in the microtask
    queue once the promise has settled):
    - [RJob b inv p]: the callback of [promise.then(async () => { build;
      write })] for bundle [b]; [p] is the promise that [then] returned;
    - [RReBuild b]: the rest of [reBuild] after [await promise];
    - [RFlush files]: the rest of the timer callback after [await promise]. *)
Inductive reaction :=
| RJob (bundle : nat) (invalidate : list File) (p : nat)
| RReBuild (bundle : nat)
| RFlush (files : list File).

(** A promise of the heap: pending with its reactions in registration
    order, or fulfilled.  The chain never rejects: the job catches. *)
Inductive pstate :=
| Pending (reactions : list reaction)
| Fulfilled.

(** The per-bundle object kept in the [statuses] WeakMap.  [invalidate] is
    [None] while the property is undefined; an undefined [running] is
    falsy, hence [false]. *)
Record Status := mkStatus {
  invalidate : option (list File);
  running : bool
}.

(** A value thrown by [build()] or [write()]: the catch block tests its
    truthiness. *)
Inductive thrown :=
| ThrowFalsy
| ThrowError (message : string).

Definition thrown_truthy (e : thrown) : bool :=
  match e with
  | ThrowFalsy => false
  | ThrowError _ => true
  end.

Inductive settled :=
| Resolved
| Rejected (e : thrown).

Inductive phase := Building | Writing.

#[global] Instance phase_eq_dec : EqDecision phase.
Proof. solve_decision. Defined.

(** A job whose [build()] or [write()] call has been issued and has not
    settled yet. *)
Record Job := mkJob {
  job_bundle : nat;
  job_promise : nat;
  job_phase : phase
}.

(** Calls the closure makes on its collaborators, in order. *)
Inductive effect :=
| InfoRemoved (p : string)
| InfoChanged (file : File)
| Newline
| LogError (e : thrown)
| CallBuild (bundle : nat) (invalidate : list File)
| CallWrite (bundle : nat)
| UnhandledRejection.

Record state := mkState {
  bundlers : list Bundle;
  statuses : gmap nat Status;
  collectedFiles : list File;
  promise : nat;
  timeout : option Z;
  heap : list pstate;
  microtasks : list reaction;
  inflight : list Job;
  effects : list effect
}.

Definition set_bundlers (f : list Bundle → list Bundle) (st : state) : state :=
  mkState (f (bundlers st)) (statuses st) (collectedFiles st) (promise st) (timeout st)
          (heap st) (microtasks st) (inflight st) (effects st).

Definition set_statuses (f : gmap nat Status → gmap nat Status) (st : state) : state :=
  mkState (bundlers st) (f (statuses st)) (collectedFiles st) (promise st) (timeout st)
          (heap st) (microtasks st) (inflight st) (effects st).

Definition set_collectedFiles (f : list File → list File) (st : state) : state :=
  mkState (bundlers st) (statuses st) (f (collectedFiles st)) (promise st) (timeout st)
          (heap st) (microtasks st) (inflight st) (effects st).

Definition set_promise (p : nat) (st : state) : state :=
  mkState (bundlers st) (statuses st) (collectedFiles st) p (timeout st)
          (heap st) (microtasks st) (inflight st) (effects st).

Definition set_timeout (t : option Z) (st : state) : state :=
  mkState (bundlers st) (statuses st) (collectedFiles st) (promise st) t
          (heap st) (microtasks st) (inflight st) (effects st).

Definition set_heap (f : list pstate → list pstate) (st : state) : state :=
  mkState (bundlers st) (statuses st) (collectedFiles st) (promise st) (timeout st)
          (f (heap st)) (microtasks st) (inflight st) (effects st).

Definition set_microtasks (f : list reaction → list reaction) (st : state) : state :=
  mkState (bundlers st) (statuses st) (collectedFiles st) (promise st) (timeout st)
          (heap st) (f (microtasks st)) (inflight st) (effects st).

Definition set_inflight (f : list Job → list Job) (st : state) : state :=
  mkState (bundlers st) (statuses st) (collectedFiles st) (promise st) (timeout st)
          (heap st) (microtasks st) (f (inflight st)) (effects st).

Definition emit (e : effect) (st : state) : state :=
  mkState (bundlers st) (statuses st) (collectedFiles st) (promise st) (timeout st)
          (heap st) (microtasks st) (inflight st) (effects st ++ [e]).

(** [q.then(r)] / [await q] with continuation [r]: a reaction on a
    fulfilled promise is queued as a microtask, on a pending one it is
    appended to the promise's reactions. *)
Definition subscribe (q : nat) (r : reaction) (st : state) : state :=
  match heap st !! q with
  | Some Fulfilled => set_microtasks (λ ms, ms ++ [r]) st
  | Some (Pending rs) => set_heap (<[q := Pending (rs ++ [r])]>) st
  | None => st
  end.

(** A promise settles: its reactions are queued in registration order. *)
Definition settle (p : nat) (st : state) : state :=
  match heap st !! p with
  | Some (Pending rs) =>
      set_microtasks (λ ms, ms ++ rs) (set_heap (<[p := Fulfilled]>) st)
  | _ => st
  end.

(** The debounce window of [setTimeout(..., 200)], in milliseconds. *)
Definition DEBOUNCE : Z := 200.

(** What the world can do to the closure. *)
Inductive event :=
| Change (t : Z) (eventType : string) (file : File)
| Timeout (t : Z)
| BuildSettled (p : nat) (r : settled) (files : option (list string))
| WriteSettled (p : nat) (r : settled)
| FilesUpdate (p : nat) (files : option (list string))
| Tick.

Definition set_files (b : nat) (files : option (list string)) (bundles : list Bundle)
  : list Bundle :=
  map (λ bundle, if decide (bundle_id bundle = b) then mkBundle b files else bundle) bundles.

Definition remove_job (p : nat) (jobs : list Job) : list Job :=
  filter (λ j, job_promise j ≠ p) jobs.

Definition find_job (p : nat) (ph : phase) (jobs : list Job) : option Job :=
  snd <$> list_find (λ j, job_promise j = p ∧ job_phase j = ph) jobs.

Section Scheduler.

Variable realpathSync : string -> option string.

(** [promise = promise.then(async () => { ... }); await promise;] in
    [reBuild]: a new promise is allocated for the result of [then], the
    job is registered on the old [promise], the variable is reassigned
    and the rest of [reBuild] is registered on the new promise. *)
Definition enqueue (bundle : nat) (inv : list File) (st : state) : state :=
  let p := length (heap st) in
  let st := set_heap (λ h, h ++ [Pending []]) st in
  let st := subscribe (promise st) (RJob bundle inv p) st in
  let st := set_promise p st in
  subscribe p (RReBuild bundle) st.

(** The [reBuild] closure, up to its [await promise]; the part after the
    await is the reaction [RReBuild].  Reading [.length] of an undefined
    [invalidate] throws, which rejects the promise [reBuild] returns; no
    caller looks at that promise. *)
Definition reBuild (bundle : nat) (files : option (list File)) (st : state) : state :=
  let status := default (mkStatus None false) (statuses st !! bundle) in
  let status := match files with
                | Some fs => mkStatus (Some fs) (running status)
                | None => status
                end in
  let st := set_statuses (<[bundle := status]>) st in
  if running status && bool_decide (invalidate status = None) then st
  else match invalidate status with
       | None => emit UnhandledRejection st
       | Some inv =>
           if bool_decide (length inv = 0) then st
           else enqueue bundle inv
                  (set_statuses (<[bundle := mkStatus (Some []) true]>) st)
       end.

(** The timer callback after its [await promise]. *)
Definition flush (files : list File) (st : state) : state :=
  match filterChangedBundles realpathSync (bundlers st) files with
  | None => emit UnhandledRejection st
  | Some bundlesWithChanges =>
      if bool_decide (length bundlesWithChanges = 0) then st
      else foldl (λ st bundle, reBuild (bundle_id bundle) (Some files) st)
                 (emit Newline st) bundlesWithChanges
  end.

(** One microtask. *)
Definition run_reaction (r : reaction) (st : state) : state :=
  match r with
  | RJob bundle inv p =>
      set_inflight (λ js, js ++ [mkJob bundle p Building]) (emit (CallBuild bundle inv) st)
  | RReBuild bundle =>
      let status := default (mkStatus None false) (statuses st !! bundle) in
      let st := set_statuses (<[bundle := mkStatus (invalidate status) false]>) st in
      reBuild bundle None st
  | RFlush files => flush files st
  end.

(** The catch block of the job. *)
Definition catch (e : thrown) (st : state) : state :=
  if thrown_truthy e then emit (LogError e) st else st.

(** The watcher callback. *)
Definition on_change (t : Z) (eventType : string) (file : File) (st : state) : state :=
  let st := if bool_decide (eventType = "unlink")
            then emit (InfoRemoved (file_path file)) st
            else emit (InfoChanged file) st in
  let st := set_collectedFiles (λ fs, fs ++ [file]) st in
  set_timeout (Some (t + DEBOUNCE)%Z) st.

(** The timer callback up to its [await promise]. *)
Definition on_timeout (t : Z) (st : state) : state :=
  let files := collectedFiles st in
  let st := set_collectedFiles (λ _, []) st in
  let st := set_timeout None st in
  subscribe (promise st) (RFlush files) st.

(** One step of the event loop.  [None]: the event cannot happen in this
    state.  The watcher and timer callbacks are macrotasks and run only
    when the microtask queue is empty; the timer callback runs at a time
    [t] not before its deadline.  The promises of [build()] and [write()]
    settle whenever the bundler pleases; [BuildSettled p r files] carries
    the [files] property the build leaves behind, and [FilesUpdate p files]
    is a build in flight rewriting that property on its way (the bundlers
    collect their resources while they build). *)
Definition step (ev : event) (st : state) : option state :=
  match ev with
  | Tick =>
      match microtasks st with
      | [] => None
      | r :: rest => Some (run_reaction r (set_microtasks (λ _, rest) st))
      end
  | Change t eventType file =>
      match microtasks st with
      | [] => Some (on_change t eventType file st)
      | _ => None
      end
  | Timeout t =>
      match microtasks st, timeout st with
      | [], Some deadline =>
          if bool_decide (deadline ≤ t)%Z
          then Some (on_timeout t st)
          else None
      | _, _ => None
      end
  | BuildSettled p r files =>
      match find_job p Building (inflight st) with
      | Some j =>
          let st := set_bundlers (set_files (job_bundle j) files) st in
          match r with
          | Resolved =>
              Some (set_inflight (λ js, remove_job p js ++ [mkJob (job_bundle j) p Writing])
                                 (emit (CallWrite (job_bundle j)) st))
          | Rejected e =>
              Some (settle p (set_inflight (remove_job p) (catch e st)))
          end
      | None => None
      end
  | WriteSettled p r =>
      match find_job p Writing (inflight st) with
      | Some j =>
          let st := match r with
                    | Resolved => st
                    | Rejected e => catch e st
                    end in
          Some (settle p (set_inflight (remove_job p) st))
      | None => None
      end
  | FilesUpdate p files =>
      match find_job p Building (inflight st) with
      | Some j => Some (set_bundlers (set_files (job_bundle j) files) st)
      | None => None
      end
  end.

Fixpoint run (evs : list event) (st : state) : option state :=
  match evs with
  | [] => Some st
  | ev :: evs => st' ← step ev st; run evs st'
  end.

(** The state when [project.watch] is called: [promise = Promise.resolve()],
    empty [statuses], empty [collectedFiles], no timer. *)
Definition init (bundles : list Bundle) : state :=
  mkState bundles ∅ [] 0 None [Fulfilled] [] [] [].

End Scheduler.

(** ** Observations on a scheduler state *)

Definition job_target (r : reaction) : option nat :=
  match r with
  | RJob _ _ p => Some p
  | _ => None
  end.

Definition is_job (r : reaction) : bool :=
  match r with
  | RJob _ _ _ => true
  | _ => false
  end.

Definition reactions_of (c : pstate) : list reaction :=
  match c with
  | Pending rs => rs
  | Fulfilled => []
  end.

(** Every reaction that has been registered and has not run yet. *)
Definition waiting (st : state) : list reaction :=
  microtasks st ++ concat (reactions_of <$> heap st).

(** The rebuild jobs that have been scheduled and have not started yet. *)
Definition scheduled (st : state) : list reaction :=
  filter (λ r, is_job r) (waiting st).

(** Promises of the jobs that hold the head of the chain: those in flight
    and those whose start is already queued as a microtask. *)
Definition active (st : state) : list nat :=
  (job_promise <$> inflight st) ++ omap job_target (microtasks st).

(** A scheduled rebuild of bundle [B] is chained behind the promise of an
    in-flight rebuild of bundle [A]. *)
Definition waits_on (st : state) (B A : nat) : Prop :=
  ∃ j rs inv q, j ∈ inflight st ∧ job_bundle j = A
                ∧ heap st !! job_promise j = Some (Pending rs)
                ∧ RJob B inv q ∈ rs.

(** The [build()] calls issued for a bundle, by their invalidation lists. *)
Definition builds_of (b : nat) (es : list effect) : list (list File) :=
  omap (λ e, match e with
             | CallBuild b' inv => if decide (b' = b) then Some inv else None
             | _ => None
             end) es.

Definition is_build (e : effect) : bool :=
  match e with
  | CallBuild _ _ => true
  | _ => false
  end.

(** Shape of the promise chain: promises are allocated in chain order, the
    first [d] of them are fulfilled, the job of promise [d + 1] holds the
    head, and the job of every later promise waits on its predecessor. *)
Record chain_at (d : nat) (st : state) : Prop := mkChain {
  chain_tail : S (promise st) = length (heap st);
  chain_bound : d < length (heap st);
  chain_done : ∀ p, p ≤ d → heap st !! p = Some Fulfilled;
  chain_todo : ∀ p, d < p → p < length (heap st) →
     ∃ rs, heap st !! p = Some (Pending rs)
           ∧ omap job_target rs = (if decide (S p < length (heap st)) then [S p] else []);
  chain_head : active st = (if decide (S d < length (heap st)) then [S d] else [])
}.

Definition chain_inv (st : state) : Prop := ∃ d, chain_at d st.






(** ** The build action around the watcher *)

(** The action awaits [Promise.all(bundlers.map((bundler) =>
    bundler.toPromise()))] and only then, when [options.watch] is set,
    creates the watch closure and calls [project.watch]. *)
Inductive top :=
| Initial (pending : list nat) (bundles : list Bundle)
| Watching (st : state)
| Finished (bundles : list Bundle)
| Failed.

Inductive top_event :=
| InitSettled (b : nat) (r : settled) (files : option (list string))
| FsEvent (t : Z) (eventType : string) (file : File)
| Loop (ev : event).

Section Action.

Variable realpathSync : string -> option string.
Variable watch : bool.

Definition after_initial (bundles : list Bundle) : top :=
  if watch then Watching (init bundles) else Finished bundles.

Definition start (bundles : list Bundle) : top :=
  match bundles with
  | [] => after_initial bundles
  | _ => Initial (bundle_id <$> bundles) bundles
  end.

(** Modelled from the spec: [Bundler.prototype.toPromise] (lib/Bundlers/Bundler
    is not part of the sources at hand) settles when the bundler's initial
    setup, build and write pipeline settles; [InitSettled b r files] is that
    moment, [files] being the [files] property the build left behind. *)
Definition init_settled (b : nat) (r : settled) (files : option (list string))
           (pending : list nat) (bundles : list Bundle) : option top :=
  if bool_decide (b ∈ pending) then
    match r with
    | Rejected _ => Some Failed
    | Resolved =>
        let pending := filter (λ b', b' ≠ b) pending in
        let bundles := set_files b files bundles in
        Some (match pending with
              | [] => after_initial bundles
              | _ => Initial pending bundles
              end)
    end
  else None.

(** Modelled from the spec: [Project.prototype.watch] (not part of the
    sources at hand) invokes the callback for every raw file-system event
    that the [ignore] predicate does not match; an event on which the
    predicate throws is not delivered. *)
Definition watch_dispatch (t : Z) (eventType : string) (file : File) (st : state)
  : option state :=
  match microtasks st with
  | [] =>
      match ignore realpathSync (bundlers st) file with
      | Some false => step realpathSync (Change t eventType file) st
      | _ => Some st
      end
  | _ => None
  end.

Definition top_step (ev : top_event) (s : top) : option top :=
  match s, ev with
  | Initial pending bundles, InitSettled b r files => init_settled b r files pending bundles
  | Initial pending bundles, FsEvent _ _ _ => Some s
  | Watching st, FsEvent t eventType file => Watching <$> watch_dispatch t eventType file st
  | Watching st, Loop (Change _ _ _) => None
  | Watching st, Loop ev => Watching <$> step realpathSync ev st
  | Finished _, FsEvent _ _ _ => Some s
  | Failed, FsEvent _ _ _ => Some s
  | _, _ => None
  end.

Fixpoint top_run (evs : list top_event) (s : top) : option top :=
  match evs with
  | [] => Some s
  | ev :: evs => s' ← top_step ev s; top_run evs s'
  end.

End Action.

(** An event acts on the watcher when it is an event of the watch closure or
    a file-system event. *)
Definition init_resolved (b : nat) (ev : top_event) : Prop :=
  ∃ files, ev = InitSettled b Resolved files.

(** ** Entry resolution (lib/File: [Directory.resolve], [Project.resolve]) *)

Record Project := mkProject {
  project_path : string;
  project_name : option string
}.

Inductive ResolvedEntry :=
| EProject (p : Project)
| EFile (p : string)
| EDirectory (p : string).

Inductive stat := IsDirectory | IsFile | IsOther.

(** The [patterns] argument: one pattern or an array of patterns. *)
Inductive patterns_arg :=
| One (pattern : string)
| Many (patterns : list string).

Definition to_array (patterns : patterns_arg) : list string :=
  match patterns with
  | One pattern => [pattern]
  | Many patterns => patterns
  end.

#[global] Instance Project_eq_dec : EqDecision Project.
Proof. solve_decision. Defined.

(** The path of a resolved entry. *)
Definition resolved_path (e : ResolvedEntry) : string :=
  match e with
  | EProject p => project_path p
  | EFile p => p
  | EDirectory p => p
  end.

Section Resolve.

(** [glob.sync(pattern, { cwd, absolute: true })], and [fs.statSync],
    [None] when the call throws (a dangling link that [glob] lists, a path
    removed in the meantime). *)
Variable glob_sync : string -> string -> list string.
Variable statSync : string -> option stat.

Definition push_new (files : list string) (file : string) : list string :=
  if bool_decide (file ∈ files) then files else files ++ [file].

(** The paths that the [patterns.forEach] loop of [Directory.resolve]
    collects. *)
Definition resolve_files (cwd : string) (patterns : list string) : list string :=
  foldl (λ files pattern, foldl push_new files (glob_sync cwd pattern)) [] patterns.

(** The callback of [files.map]: [None] when [fs.statSync] throws, and
    inside, [None] for [undefined]. *)
Definition resolve_entry (file : string) : option (option ResolvedEntry) :=
  stats ← statSync file;
  Some (match stats with
        | IsDirectory => Some (EDirectory file)
        | IsFile => Some (EFile file)
        | IsOther => None
        end).

(** [Directory.resolve(patterns)]; [None] when [fs.statSync] throws on
    one of the collected paths. *)
Definition Directory_resolve (cwd : string) (patterns : patterns_arg)
  : option (list ResolvedEntry) :=
  entries ← mapM resolve_entry (resolve_files cwd (to_array patterns));
  Some (omap id entries).

(** [workspaces.find((project) => project.get('name') === pattern)] *)
Definition matchProject (workspaces : list Project) (pattern : string) : option Project :=
  snd <$> list_find (λ project, project_name project = Some pattern) workspaces.

(** The [patterns.filter] loop of [Project.resolve]: the callback pushes
    every matched workspace onto [files] and keeps the other patterns. *)
Fixpoint split_patterns (workspaces : list Project) (patterns : list string)
         (files : list ResolvedEntry) : list ResolvedEntry * list string :=
  match patterns with
  | [] => (files, [])
  | pattern :: patterns =>
      match matchProject workspaces pattern with
      | Some project => split_patterns workspaces patterns (files ++ [EProject project])
      | None =>
          let '(files, filesPatterns) := split_patterns workspaces patterns files in
          (files, pattern :: filesPatterns)
      end
  end.

(** The patterns that the [patterns.filter] loop keeps for
    [super.resolve]. *)
Definition filesPatterns (workspaces : list Project) (patterns : patterns_arg)
  : list string :=
  (split_patterns workspaces (to_array patterns) []).2.

(** [Project.resolve(patterns)]; [workspaces] is the value that the
    [workspaces] getter returned, [None] when the project is not a
    monorepo.  The result is [None] when [super.resolve] throws. *)
Definition Project_resolve (this : Project) (workspaces : option (list Project))
           (patterns : patterns_arg) : option (list ResolvedEntry) :=
  match workspaces with
  | None => Directory_resolve (project_path this) patterns
  | Some workspaces =>
      let '(files, filesPatterns) := split_patterns workspaces (to_array patterns) [] in
      found ← Directory_resolve (project_path this) (Many filesPatterns);
      Some (files ++ found)
  end.

End Resolve.

(** ** [WebManifestBundler.setup] *)

Inductive entry_class := ClassEntry | ClassFile | ClassDirectory | ClassProject.

Record Entry := mkEntry {
  entry_class_of : entry_class;
  entry_path : string
}.

(** Only [Directory] (and [Project], which extends it) has a [file] method. *)
Definition has_file_method (c : entry_class) : bool :=
  match c with
  | ClassDirectory | ClassProject => true
  | _ => false
  end.

Record Options := mkOptions {
  opt_input : option Entry;
  opt_output : option Entry
}.

Inductive outcome :=
| Returned
| ThrewMessage (message : string)
| ThrewTypeError
| ThrewFromSuper (e : thrown).

Definition dquote : string := String (Ascii.ascii_of_nat 34) EmptyString.

Definition missing_option (option name : string) : string :=
  ("missing " ++ dquote ++ option ++ dquote ++ " option for " ++ name)%string.

Section WebManifestBundler.

(** [this.name], and the functions of Node's [path] module behind
    [entry.extname], [entry.basename] and [directory.file(name)]. *)
Variable name : string.
Variable extname : string -> string.
Variable basename : string -> string.
Variable resolve_path : string -> string -> string.

(** [Bundler.prototype.setup] (the base class is not part of the sources
    at hand): given the options and the bundler's [options] map it either
    throws or leaves the new map behind. *)
Variable super_setup : Options -> gmap string Entry -> thrown + gmap string Entry.

(** [WebManifestBundler.setup(options)]: the outcome and the bundler's
    [options] map afterwards. *)
Definition setup (options : Options) (config : gmap string Entry)
  : outcome * gmap string Entry :=
  match opt_input options with
  | None => (ThrewMessage (missing_option "input" name), config)
  | Some input =>
      match opt_output options with
      | None => (ThrewMessage (missing_option "output" name), config)
      | Some output =>
          match super_setup options config with
          | inl e => (ThrewFromSuper e, config)
          | inr config =>
              if bool_decide (extname (entry_path output) = EmptyString) then
                if has_file_method (entry_class_of output) then
                  (Returned,
                   <["output" := mkEntry ClassFile
                                   (resolve_path (entry_path output)
                                                 (basename (entry_path input)))]> config)
                else (ThrewTypeError, config)
              else (Returned, config)
          end
      end
  end.

End WebManifestBundler.

(** The files of the change events of a run, in order. *)
Definition change_files (evs : list event) : list File :=
  omap (λ ev, match ev with Change _ _ file => Some file | _ => None end) evs.



(** The jobs one batch schedules: one per selected bundle, each with the
    whole batch, on consecutive new promises. *)
Definition new_jobs (files : list File) (first : nat) (bundles : list Bundle)
  : list reaction :=
  imap (λ i bundle, RJob (bundle_id bundle) files (first + i)) bundles.

Section Quiet.

Variable realpathSync : string -> option string.

(** No bundle of the list tracks the file. *)
Definition untracked (bundles : list Bundle) (file : File) : Prop :=
  ∀ bundle, bundle ∈ bundles → ¬ tracks realpathSync bundle file.

(** The closure has never scheduled anything and holds untracked files
    only. *)
Definition quiet (bundles : list Bundle) (st : state) : Prop :=
  bundlers st = bundles ∧ inflight st = [] ∧ heap st = [Fulfilled] ∧ promise st = 0
  ∧ Forall (untracked bundles) (collectedFiles st)
  ∧ Forall (λ r, ∃ files, r = RFlush files ∧ Forall (untracked bundles) files) (microtasks st)
  ∧ Forall (λ e, is_build e = false) (effects st).

End Quiet.






(** The events by which initial pipelines settle. *)
Definition is_init_event (ev : top_event) : Prop :=
  match ev with
  | InitSettled _ _ _ => True
  | _ => False
  end.

(** ** The claims of the specification that the code does not meet, as
    stated *)

Section StatedClaims.

Variable realpathSync : string -> option string.

(** "A rebuild cycle of B never waits for an in-flight rebuild cycle of
    A." *)
Definition independent_pipelines : Prop :=
  ∀ bundles evs st A B,
    run realpathSync evs (init bundles) = Some st → A ≠ B → ¬ waits_on st B A.





(** The path of the file lies outside the [files] list of every bundle. *)
Definition outside_files (bundles : list Bundle) (file : File) : Prop :=
  ∀ bundle bfiles, bundle ∈ bundles → bundle_files bundle = Some bfiles →
                   file_path file ∉ bfiles.

(** "For every sequence of change events in which every changed path lies
    outside every bundle's files set, no build() is ever invoked." *)
Definition outside_paths_law : Prop :=
  ∀ bundles evs st,
    Forall (outside_files bundles) (change_files evs) →
    run realpathSync evs (init bundles) = Some st →
    Forall (λ e, is_build e = false) (effects st).




(** "For every non-empty list of changed files, a bundler whose files is
    unset is always included in the result of filterChangedBundles." *)
Definition unset_selected_law : Prop :=
  ∀ bundles bundle files,
    files ≠ [] → bundle ∈ bundles → bundle_files bundle = None →
    ∃ changed, filterChangedBundles realpathSync bundles files = Some changed
               ∧ bundle ∈ changed.

End StatedClaims.

(** ** Scenarios *)

(** A file system without symbolic links. *)
Definition realpath_plain (p : string) : option string := Some p.

(** A monorepo in which [node_modules/lib] is a link to [packages/lib]. *)
Definition realpath_linked (p : string) : option string :=
  if bool_decide (p = "/project/node_modules/lib/index.js")
  then Some "/project/packages/lib/index.js"
  else Some p.

(** A file system from which [old.js] has been removed: [realpathSync]
    throws on its path. *)
Definition realpath_removed (p : string) : option string :=
  if bool_decide (p = "/project/src/old.js") then None else Some p.

Definition old_js : File := mkFile "/project/src/old.js".
Definition util_js : File := mkFile "/project/src/util.js".
Definition readme : File := mkFile "/project/README.md".
Definition linked_js : File := mkFile "/project/node_modules/lib/index.js".

Definition files_A : list string := ["/project/src/a.js"; "/project/src/util.js"].
Definition files_B : list string := ["/project/src/b.css"; "/project/src/util.js"].

Definition bundle_A : Bundle := mkBundle 0 (Some files_A).
Definition bundle_B : Bundle := mkBundle 1 (Some files_B).
Definition bundle_lib : Bundle := mkBundle 0 (Some ["/project/packages/lib/index.js"]).
Definition bundle_unset : Bundle := mkBundle 0 None.

(** One save of [util.js], the timer, the resumed timer callback and the
    start of the first job: the rebuild of [A] is in flight, the rebuild of
    [B] is scheduled. *)
Definition trace_AB : list event :=
  [Change 0 "change" util_js; Timeout 200; Tick; Tick].

Definition state_AB : state :=
  Eval vm_compute in default (init []) (run realpath_plain trace_AB (init [bundle_A; bundle_B])).
















(** A change reported under the linked path. *)
Definition trace_linked : list event :=
  [Change 0 "change" linked_js; Timeout 200; Tick; Tick].

(** A change of a file nobody tracks. *)
Definition trace_readme : list event :=
  [Change 0 "change" readme; Timeout 200; Tick; Tick].

Definition trace_readme_quiet : list event :=
  [Change 0 "change" readme; Timeout 200; Tick].

(** The build action: both initial pipelines resolve, a file-system event
    in between is not acted upon, then a save of [util.js] is. *)
Definition trace_action : list top_event :=
  [InitSettled 0 Resolved (Some files_A); FsEvent 5 "change" util_js;
   InitSettled 1 Resolved (Some files_B); FsEvent 10 "change" util_js;
   Loop (Timeout 210); Loop Tick; Loop Tick].

Definition state_action : state :=
  Eval vm_compute in
    match top_run realpath_plain true trace_action
                  (start true [mkBundle 0 None; mkBundle 1 None]) with
    | Some (Watching st) => st
    | _ => init []
    end.

(** Stand-ins for Node's [path] functions and for the base-class setup. *)
Definition path_extname_none (p : string) : string := EmptyString.
Definition path_basename_id (p : string) : string := p.
Definition path_resolve_join (dir file : string) : string := (dir ++ "/" ++ file)%string.
Definition super_setup_store (options : Options) (config : gmap string Entry)
  : thrown + gmap string Entry :=
  inr (match opt_input options, opt_output options with
       | Some input, Some output => <["input" := input]> (<["output" := output]> config)
       | _, _ => config
       end).

(** A project directory: [src/*.js] finds two scripts, a directory whose name
    ends in [.js] and a socket; [test/*.js] finds a link whose target is
    gone, on which [fs.statSync] throws. *)
Definition glob_project (cwd pattern : string) : list string :=
  if bool_decide (cwd = "/project") then
    if bool_decide (pattern = "src/*.js")
    then ["/project/src/a.js"; "/project/src/b.js"; "/project/src/vendor.js";
          "/project/src/ipc.js"]
    else if bool_decide (pattern = "src/a.*")
    then ["/project/src/a.js"; "/project/src/a.css"]
    else if bool_decide (pattern = "test/*.js")
    then ["/project/test/gone.js"]
    else []
  else [].

Definition stat_project (p : string) : option stat :=
  if bool_decide (p = "/project/test/gone.js") then None
  else if bool_decide (p = "/project/src/vendor.js") then Some IsDirectory
  else if bool_decide (p = "/project/src/ipc.js") then Some IsOther
  else Some IsFile.

Definition workspace_core : Project := mkProject "/project/packages/core" (Some "@scope/core").
Definition workspace_ui : Project := mkProject "/project/packages/ui" (Some "@scope/ui").
Definition root_project : Project := mkProject "/project" (Some "root").


Section Served.

Variable realpathSync : string -> option string.


End Served.



(** ** [WebManifestBundler.build]: the manifest and its defaults *)

(** A JS value as far as [||], [!] and [if] look at it.  Numbers are kept
    as integers: the code only tests them for being zero. *)
#[warnings="-register-all"]
Inductive jsval :=
| VUndefined
| VNull
| VBool (b : bool)
| VNum (n : Z)
| VStr (s : string)
| VArr (items : list jsval)
| VObj (fields : list (string * jsval)).

(** JS truthiness: [undefined], [null], [false], [0] and the empty string
    are falsy, every array and every object is truthy. *)
Definition jsval_truthy (v : jsval) : bool :=
  match v with
  | VUndefined | VNull => false
  | VBool b => b
  | VNum n => negb (n =? 0)%Z
  | VStr s => negb (bool_decide (s = EmptyString))
  | VArr _ | VObj _ => true
  end.

(** [a || b] *)
Definition js_or (a b : jsval) : jsval := if jsval_truthy a then a else b.

(** [manifest[key]]: a missing property reads as [undefined]. *)
Definition prop (manifest : gmap string jsval) (key : string) : jsval :=
  default VUndefined (manifest !! key).

(** The options [build] reads, and the two fields of the project's
    package.json it falls back on. *)
Record ManifestOptions := mkManifestOptions {
  mo_name : jsval;
  mo_description : jsval;
  mo_scope : jsval;
  mo_theme : jsval;
  mo_icon : jsval;
  mo_lang : jsval;
  mo_project_name : jsval;
  mo_project_description : jsval
}.

(** Lines 114-123: the assignments, in the order of the source. *)
Definition manifest_defaults (o : ManifestOptions) (manifest : gmap string jsval)
  : gmap string jsval :=
  let manifest := <["name" := js_or (js_or (prop manifest "name") (mo_name o))
                                    (mo_project_name o)]> manifest in
  let manifest := <["short_name" := js_or (prop manifest "short_name")
                                          (prop manifest "name")]> manifest in
  let manifest := <["description" := js_or (js_or (prop manifest "description")
                                                  (mo_description o))
                                           (mo_project_description o)]> manifest in
  let manifest := <["start_url" := js_or (prop manifest "start_url") (VStr "/")]> manifest in
  let manifest := <["scope" := js_or (js_or (prop manifest "scope") (mo_scope o))
                                     (VStr "/")]> manifest in
  let manifest := <["display" := js_or (prop manifest "display")
                                       (VStr "standalone")]> manifest in
  let manifest := <["orientation" := js_or (prop manifest "orientation")
                                           (VStr "any")]> manifest in
  let manifest := <["theme_color" := js_or (prop manifest "theme_color")
                                           (mo_theme o)]> manifest in
  let manifest := <["background_color" := js_or (prop manifest "background_color")
                                                (VStr "#fff")]> manifest in
  <["lang" := js_or (js_or (prop manifest "lang") (mo_lang o)) (VStr "en-US")]> manifest.

(** What the assignments leave in a property, from the manifest they start
    with: [None] for a property they do not touch. *)
Definition assigned (o : ManifestOptions) (manifest : gmap string jsval) (key : string)
  : option jsval :=
  let name := js_or (js_or (prop manifest "name") (mo_name o)) (mo_project_name o) in
  if decide (key = "name") then Some name
  else if decide (key = "short_name") then Some (js_or (prop manifest "short_name") name)
  else if decide (key = "description") then
    Some (js_or (js_or (prop manifest "description") (mo_description o))
                (mo_project_description o))
  else if decide (key = "start_url") then
    Some (js_or (prop manifest "start_url") (VStr "/"))
  else if decide (key = "scope") then
    Some (js_or (js_or (prop manifest "scope") (mo_scope o)) (VStr "/"))
  else if decide (key = "display") then
    Some (js_or (prop manifest "display") (VStr "standalone"))
  else if decide (key = "orientation") then
    Some (js_or (prop manifest "orientation") (VStr "any"))
  else if decide (key = "theme_color") then
    Some (js_or (prop manifest "theme_color") (mo_theme o))
  else if decide (key = "background_color") then
    Some (js_or (prop manifest "background_color") (VStr "#fff"))
  else if decide (key = "lang") then
    Some (js_or (js_or (prop manifest "lang") (mo_lang o)) (VStr "en-US"))
  else None.

(** Lines 125-159: with an [icon] option and no [icons] in the manifest the
    icons are generated by an [IconBundler] (not part of the sources at
    hand) and [manifest.icons] becomes the array mapped from its result;
    [generated] is that array, [None] when the generation throws. *)
Definition manifest_icons (o : ManifestOptions) (generated : option (list jsval))
           (manifest : gmap string jsval) : option (gmap string jsval) :=
  if jsval_truthy (mo_icon o) && negb (jsval_truthy (prop manifest "icons")) then
    (λ icons, <["icons" := VArr icons]> manifest) <$> generated
  else Some manifest.

(** Lines 161-165: every property with a falsy value is deleted. *)
Definition manifest_sweep (manifest : gmap string jsval) : gmap string jsval :=
  filter (λ kv, jsval_truthy kv.2 = true) manifest.

(** The manifest [build] writes and returns, from the object read from the
    input file ([∅] when the file does not exist); [None] when the icon
    generation throws. *)
Definition build_manifest (o : ManifestOptions) (generated : option (list jsval))
           (manifest : gmap string jsval) : option (gmap string jsval) :=
  manifest_sweep <$> manifest_icons o generated (manifest_defaults o manifest).

(** The properties [build] assigns. *)
Definition manifest_keys : list string :=
  ["name"; "short_name"; "description"; "start_url"; "scope"; "display";
   "orientation"; "theme_color"; "background_color"; "lang"; "icons"].

(** A run with every option set and a manifest that names the app only. *)
Definition options_full : ManifestOptions :=
  mkManifestOptions (VStr "App") (VStr "An app") (VStr "/app/") (VStr "#000")
                    (VObj [("path", VStr "/p/icon.png")]) (VStr "it")
                    (VStr "pkg") VUndefined.

Definition manifest_named : gmap string jsval :=
  {["name" := VStr "Named"; "display" := VStr ""; "custom" := VNum 0]}.

(** What [build] returns on them, the icons generated as one entry. *)
Definition manifest_built : gmap string jsval :=
  default ∅ (build_manifest options_full (Some [VObj [("sizes", VStr "36x36")]])
                            manifest_named).



(** ** The [manifest] command *)

(** The options the action reads for the manifest bundler: the positional
    arguments, [--manifest] and [--output]; an option is [None] when it is
    falsy, else the string given.  ([--scope] and [--icon] are handed to the
    bundler untouched and [setup] does not read them; [--index] only
    concerns the HTML bundler.) *)
Record ManifestCommand := mkManifestCommand {
  mc_arguments : list string;
  mc_manifest : option string;
  mc_output : option string
}.

Section ManifestCommand.

(** [process.cwd()], and Node's [path.resolve] and the [basename] getter
    of [Entry] (the name without its extension). *)
Variable cwd : string.
Variable basename : string -> string.
Variable resolve_path : string -> string -> string.

(** [directory.file(name)] *)
Definition Directory_file (dir name : string) : Entry :=
  mkEntry ClassFile (resolve_path dir name).

(** The [manifestOptions] the action hands to [manifestBundler.setup]. *)
Definition manifest_options (c : ManifestCommand) : Options :=
  let root := match mc_arguments c with
              | argument :: _ => resolve_path cwd argument
              | [] => cwd
              end in
  let input := Directory_file cwd <$> mc_manifest c in
  let output :=
    match mc_output c with
    | Some out =>
        let outputDir := resolve_path cwd out in
        match input with
        | Some input => Directory_file outputDir (basename (entry_path input))
        | None => Directory_file outputDir "manifest.json"
        end
    | None => Directory_file root "manifest.json"
    end in
  mkOptions input (Some output).

End ManifestCommand.

(** Stand-ins for Node's [path] functions on plain POSIX paths: the last
    segment of a path, its extension (from the last dot, unless the dot
    comes first) and the segment without it. *)
Fixpoint last_index (c : Ascii.ascii) (s : string) (i : nat) (found : option nat)
  : option nat :=
  match s with
  | EmptyString => found
  | String d s => last_index c s (S i) (if Ascii.eqb c d then Some i else found)
  end.

Definition posix_name (p : string) : string :=
  match last_index (Ascii.ascii_of_nat 47) p 0 None with
  | Some i => String.substring (S i) (String.length p - S i) p
  | None => p
  end.

Definition posix_extname (p : string) : string :=
  let name := posix_name p in
  match last_index (Ascii.ascii_of_nat 46) name 0 None with
  | Some (S i) => String.substring (S i) (String.length name - S i) name
  | _ => EmptyString
  end.

Definition posix_basename (p : string) : string :=
  let name := posix_name p in
  String.substring 0 (String.length name - String.length (posix_extname p)) name.

Definition command_both : ManifestCommand :=
  mkManifestCommand ["public"] (Some "src/manifest.json") (Some "dist").

Definition command_plain : ManifestCommand :=
  mkManifestCommand ["public"] None (Some "dist").



(** ** Sizes and durations as text ([prettyBytes], [formatTime]) *)

Definition KILO : Z := 1024.
Definition MEGA : Z := KILO ^ 2.
Definition TERA : Z := KILO ^ 3.

(** [(num / den).toFixed(1)] for [0 ≤ num] and [den] a power of two, where
    the quotient is an exact double: the tenths nearest to the quotient,
    the larger one on a tie, printed with one decimal. *)
Definition toFixed1 (num den : Z) : string :=
  let n := ((20 * num + den) / (2 * den))%Z in
  pretty (n / 10)%Z +:+ "." +:+ pretty (n `mod` 10)%Z.

(** [prettyBytes(size)], for the integer sizes that [fs.statSync] and
    [gzipSize] hand over.  The sizes are those a double holds exactly,
    [|size| < 2^53]: there the quotients by powers of two are exact; the
    properties below stay inside this range. *)
Definition prettyBytes (size : Z) : string :=
  let size := Z.abs size in
  if (TERA <? size)%Z then toFixed1 size TERA +:+ " TB"
  else if (MEGA <? size)%Z then toFixed1 size MEGA +:+ " MB"
  else if (KILO <? size)%Z then toFixed1 size KILO +:+ " KB"
  else pretty size +:+ " B".

(** [(r / 1000).toFixed(0)] for an integer [r] with [|r| < 60000]: the
    integer nearest to the quotient, ties away from zero, and a minus sign
    for every negative [r], also when it rounds to zero. *)
Definition toFixed0 (r : Z) : string :=
  if (r <? 0)%Z then "-" +:+ pretty ((- r + 500) / 1000)%Z
  else pretty ((r + 500) / 1000)%Z.

(** [s.padStart(2, '0')] *)
Definition padStart2 (s : string) : string :=
  match String.length s with
  | 0 => "00"
  | 1 => "0" +:+ s
  | _ => s
  end.

(** [formatTime(millis)] for an integer number of milliseconds:
    [Math.floor] is the floor of the quotient, [%] the remainder with the
    sign of the dividend. *)
Definition formatTime (millis : Z) : string :=
  let minutes := (millis / 60000)%Z in
  let seconds := toFixed0 (Z.rem millis 60000) in
  if (minutes =? 0)%Z then seconds +:+ "s"
  else pretty minutes +:+ ":" +:+ padStart2 seconds +:+ "m".



(** ** The dependency index of the promise-based build action *)

(** A [BundleManifest] as the watch code reads it. *)
Record BundleManifest := mkBundleManifest {
  bm_input : string;
  bm_output : string;
  bm_files : list string
}.

#[global] Instance BundleManifest_eq_dec : EqDecision BundleManifest.
Proof. solve_decision. Defined.

(** The property names the object literal [{}] inherits from
    [Object.prototype]; each of them reads as a truthy value that has no
    [push] method. *)
Definition inherited_keys : list string :=
  ["constructor"; "__defineGetter__"; "__defineSetter__"; "hasOwnProperty";
   "__lookupGetter__"; "__lookupSetter__"; "isPrototypeOf";
   "propertyIsEnumerable"; "toString"; "valueOf"; "__proto__"; "toLocaleString"].

(** [files[f] = files[f] || []; files[f].push(bundleManifest)]; [None] is
    the [TypeError] of [push] on an inherited value. *)
Definition collect_file (bundleManifest : BundleManifest)
           (files : gmap string (list BundleManifest)) (f : string)
  : option (gmap string (list BundleManifest)) :=
  match files !! f with
  | Some dependents => Some (<[f := dependents ++ [bundleManifest]]> files)
  | None =>
      if bool_decide (f ∈ inherited_keys) then None
      else Some (<[f := [bundleManifest]]> files)
  end.

(** [bundleManifest.files.forEach(...)] *)
Fixpoint collect_files (bundleManifest : BundleManifest)
         (files : gmap string (list BundleManifest)) (fs : list string)
  : option (gmap string (list BundleManifest)) :=
  match fs with
  | [] => Some files
  | f :: fs => collect_file bundleManifest files f ≫= λ files,
               collect_files bundleManifest files fs
  end.

(** [bundleManifests.forEach(...)] *)
Fixpoint collect_manifests (files : gmap string (list BundleManifest))
         (bundleManifests : list BundleManifest)
  : option (gmap string (list BundleManifest)) :=
  match bundleManifests with
  | [] => Some files
  | bundleManifest :: bundleManifests =>
      collect_files bundleManifest files (bm_files bundleManifest) ≫= λ files,
      collect_manifests files bundleManifests
  end.

(** The [files] object the watcher is started with. *)
Definition dependency_index (bundleManifests : list BundleManifest)
  : option (gmap string (list BundleManifest)) :=
  collect_manifests ∅ bundleManifests.

(** The manifests that list [f], in build order, once for every time they
    list it. *)
Definition dependents_of (bundleManifests : list BundleManifest) (f : string)
  : list BundleManifest :=
  bundleManifests ≫= λ bundleManifest,
    (λ _, bundleManifest) <$> filter (λ g, g = f) (bm_files bundleManifest).

(** What the loops keep: no entry of [files] is empty, and no inherited
    property name has become a key. *)
Definition index_inv (files : gmap string (list BundleManifest)) : Prop :=
  ∀ f l, files !! f = Some l → l ≠ [] ∧ f ∉ inherited_keys.

Definition manifest_js : BundleManifest :=
  mkBundleManifest "/p/src/index.js" "/p/dist/index.js"
                   ["/p/src/index.js"; "/p/src/util.js"].

Definition manifest_css : BundleManifest :=
  mkBundleManifest "/p/src/index.scss" "/p/dist/index.css"
                   ["/p/src/index.scss"; "/p/src/util.js"].



(** ** The watch callback of the promise-based build action *)

(** [a && b] *)
Definition js_and (a b : jsval) : jsval := if jsval_truthy a then b else a.

(** [v !== false] *)
Definition not_false (v : jsval) : bool :=
  match v with
  | VBool false => false
  | _ => true
  end.

(** The options object of the action, shared by every run of the watch
    callback, as far as the callback reads and overwrites it. *)
Record WatchOptions := mkWatchOptions {
  wo_arguments : list string;
  wo_output : jsval;
  wo_lint : jsval;
  wo_lint_styles : jsval;
  wo_lint_js : jsval;
  wo_cache : jsval;
  wo_watch : jsval
}.

(** One link of a rebuild chain: the bundle, and the value of
    [shouldLint && fp] computed when the change arrived. *)
Record Rebuild := mkRebuild {
  rb_bundle : BundleManifest;
  rb_lint : jsval
}.

(** The watch closure: the shared options, for every change handled so far
    the rebuilds its chain has still to start, and the options of every
    [app.exec('build', ...)] call issued, as the action clones them on
    entry. *)
Record WatchState := mkWatchState {
  ws_options : WatchOptions;
  ws_chains : list (list Rebuild);
  ws_calls : list WatchOptions
}.

Inductive watch_event :=
| Changed (fp : string)
| ExecSettled (chain : nat).

Section WatchCallback.

(** [ext.isStyleFile] and [ext.isJSFile] (lib/extensions.js is not part of
    the sources at hand), and the dependency index. *)
Variable isStyleFile isJSFile : string -> jsval.
Variable files : gmap string (list BundleManifest).

Definition shouldLint (options : WatchOptions) (fp : string) : jsval :=
  js_or (js_and (isStyleFile fp)
                (VBool (not_false (wo_lint_styles options)
                        && not_false (wo_lint options))))
        (js_and (isJSFile fp)
                (VBool (not_false (wo_lint_js options)
                        && not_false (wo_lint options)))).

(** [Object.assign(options, { arguments: [bundle.input], output:
    bundle.output, lint: shouldLint && fp, cache: true, watch: false })] *)
Definition assign_rebuild (options : WatchOptions) (r : Rebuild) : WatchOptions :=
  mkWatchOptions [bm_input (rb_bundle r)] (VStr (bm_output (rb_bundle r)))
                 (rb_lint r) (wo_lint_styles options) (wo_lint_js options)
                 (VBool true) (VBool false).

(** The callback of one [then]: the options are overwritten and the build
    command is started with them. *)
Definition start_rebuild (r : Rebuild) (rest : list Rebuild) (chain : option nat)
           (st : WatchState) : WatchState :=
  let options := assign_rebuild (ws_options st) r in
  mkWatchState options
               (match chain with
                | Some i => <[i := rest]> (ws_chains st)
                | None => ws_chains st ++ [rest]
                end)
               (ws_calls st ++ [options]).

(** One step of the closure.  A change of [fp] runs the callback: the
    chain of [files[fp]] is built with the options as they are, and its
    first link, hanging on a resolved promise, starts before anything
    else happens; [None] is the [TypeError] of [forEach] for a file the
    index does not have.  When the build command of a chain settles,
    resolved or rejected, its next link starts. *)
Definition watch_step (ev : watch_event) (st : WatchState) : option WatchState :=
  match ev with
  | Changed fp =>
      match files !! fp with
      | None => None
      | Some bundles =>
          let lint := js_and (shouldLint (ws_options st) fp) (VStr fp) in
          match (λ bundle, mkRebuild bundle lint) <$> bundles with
          | [] => Some st
          | r :: rest => Some (start_rebuild r rest None st)
          end
      end
  | ExecSettled i =>
      match ws_chains st !! i with
      | Some (r :: rest) => Some (start_rebuild r rest (Some i) st)
      | _ => None
      end
  end.

Fixpoint watch_run (evs : list watch_event) (st : WatchState) : option WatchState :=
  match evs with
  | [] => Some st
  | ev :: evs => watch_step ev st ≫= watch_run evs
  end.

(** Linting is off: in the shared options and in every link that has
    still to start. *)
Definition lint_off (st : WatchState) : Prop :=
  wo_lint (ws_options st) = VBool false
  ∧ ∀ chain r, chain ∈ ws_chains st → r ∈ chain → rb_lint r = VBool false.

End WatchCallback.

Definition ext_is (suffix : string) (fp : string) : jsval :=
  VBool (bool_decide (posix_extname fp = suffix)).

Definition watch_start : WatchState :=
  mkWatchState (mkWatchOptions ["/p"] VUndefined VUndefined VUndefined VUndefined
                               VUndefined (VBool true)) [] [].

Definition manifest_json : BundleManifest :=
  mkBundleManifest "/p/src/index.js" "/p/dist/index.js"
                   ["/p/src/index.js"; "/p/src/data.json"].

Definition data_json : string := "/p/src/data.json".

Definition index_json : gmap string (list BundleManifest) :=
  default ∅ (dependency_index [manifest_json]).



(** ** [Stylelint.transformResult] *)

(** The text of a warning is kept as its sequence of UTF-16 code units,
    which is what the regular expression of [transformResult] runs over. *)
Definition code_units (s : string) : list N :=
  (λ c, N.of_nat (Ascii.nat_of_ascii c)) <$> String.list_ascii_of_string s.

(** [\s]: the white space and line terminator code units. *)
Definition is_space (c : N) : bool :=
  bool_decide (c ∈ [9; 10; 11; 12; 13; 32; 160; 5760; 8232; 8233; 8239; 8287;
                    12288; 65279]%N)
  || ((8192 <=? c)%N && (c <=? 8202)%N).

(** [[a-z-/]]: a lower-case ASCII letter, a dash or a slash. *)
Definition is_rule_char (c : N) : bool :=
  ((97 <=? c)%N && (c <=? 122)%N) || (c =? 45)%N || (c =? 47)%N.

(** [[a-z-/]*]: the star is greedy, and what follows it in the expression
    is a character outside the class, so it takes the whole run. *)
Fixpoint skip_rule (s : list N) : list N :=
  match s with
  | [] => []
  | c :: s' => if is_rule_char c then skip_rule s' else s
  end.

(** A match of [/\s\([a-z-/]*\)/] at the head of [s]: what comes after it. *)
Definition match_rule (s : list N) : option (list N) :=
  match s with
  | c :: p :: s' =>
      if is_space c && (p =? 40)%N then
        match skip_rule s' with
        | q :: rest => if (q =? 41)%N then Some rest else None
        | [] => None
        end
      else None
  | _ => None
  end.

(** [text.replace(/\s\([a-z-/]*\)/, '')]: the leftmost match is removed. *)
Fixpoint strip_rule (s : list N) : list N :=
  match s with
  | [] => []
  | c :: s' =>
      match match_rule s with
      | Some rest => rest
      | None => c :: strip_rule s'
      end
  end.

(** A warning of a stylelint report, and the result for one source. *)
Record Warning := mkWarning {
  warn_rule : string;
  warn_severity : string;
  warn_line : Z;
  warn_column : Z;
  warn_text : list N
}.

Record StylelintResult := mkStylelintResult {
  sr_source : string;
  sr_warnings : list Warning
}.

(** The [LintResult] objects built from them. *)
Record LintMessage := mkLintMessage {
  msg_ruleId : string;
  msg_severity : nat;
  msg_line : Z;
  msg_column : Z;
  msg_message : list N
}.

Record LintFile := mkLintFile {
  lf_filePath : string;
  lf_warningCount : nat;
  lf_errorCount : nat;
  lf_messages : list LintMessage
}.

Record LintResult := mkLintResult {
  lr_errorCount : nat;
  lr_warningCount : nat;
  lr_results : list LintFile
}.

Definition is_error (warn : Warning) : bool :=
  bool_decide (warn_severity warn = "error").

(** The callback of [result.warnings.map]: it bumps one of the two
    counters of the file and hands back the message. *)
Definition transform_warning (counts : nat * nat) (warn : Warning)
  : nat * nat * LintMessage :=
  let '(fileErrorCount, fileWarningCount) := counts in
  (if is_error warn then (S fileErrorCount, fileWarningCount)
   else (fileErrorCount, S fileWarningCount),
   mkLintMessage (warn_rule warn) (if is_error warn then 2 else 1)
                 (warn_line warn) (warn_column warn) (strip_rule (warn_text warn))).

Definition transform_warnings (warnings : list Warning) : nat * nat * list LintMessage :=
  foldl (λ '(counts, messages) warn,
           let '(counts, message) := transform_warning counts warn in
           (counts, messages ++ [message]))
        ((0, 0), []) warnings.

(** The callback of [report.results.map]: it adds the counters of the file
    to the totals and hands back the entry of the file. *)
Definition transform_source (totals : nat * nat) (result : StylelintResult)
  : nat * nat * LintFile :=
  let '(errorCount, warningCount) := totals in
  let '((fileErrorCount, fileWarningCount), messages) :=
    transform_warnings (sr_warnings result) in
  ((errorCount + fileErrorCount, warningCount + fileWarningCount),
   mkLintFile (sr_source result) fileWarningCount fileErrorCount messages).

(** [transformResult(report)], from [report.results]. *)
Definition transformResult (results : list StylelintResult) : LintResult :=
  let '((errorCount, warningCount), results) :=
    foldl (λ '(totals, out) result,
             let '(totals, file) := transform_source totals result in
             (totals, out ++ [file]))
          ((0, 0), []) results in
  mkLintResult errorCount warningCount results.

(** The messages of a file with a given severity. *)
Definition with_severity (severity : nat) (messages : list LintMessage) : nat :=
  length (filter (λ m, msg_severity m = severity) messages).



(** ** The [parent] and [project] getters of [Entry] *)

(** What the [project] getter comes to: the project at a path, [null], or
    the [TypeError] of calling [file] on an entry that has no such method. *)
Inductive project_result :=
| ProjectAt (path : string)
| ProjectNull
| ProjectTypeError.

Section EntryProject.

(** Node's [path.dirname] and [path.resolve], and [fs.existsSync]. *)
Variable dirname : string -> string.
Variable resolve_path : string -> string -> string.
Variable existsSync : string -> bool.

(** The [parent] getter of [Entry], which files and directories share:
    [null] when the dirname is the empty string. *)
Definition Entry_parent (this : Entry) : option Entry :=
  if bool_decide (dirname (entry_path this) = EmptyString) then None
  else Some (mkEntry ClassDirectory (dirname (entry_path this))).

(** The [while (projectPath)] loop; [fuel] bounds the number of rounds,
    and [None] says that the loop is still running when it is used up. *)
Fixpoint project_loop (fuel : nat) (projectPath : option Entry)
  : option project_result :=
  match fuel with
  | 0 => None
  | S fuel =>
      match projectPath with
      | None => Some ProjectNull
      | Some dir =>
          match entry_class_of dir with
          | ClassProject => Some (ProjectAt (entry_path dir))
          | ClassDirectory =>
              if existsSync (resolve_path (entry_path dir) "package.json")
              then Some (ProjectAt (entry_path dir))
              else project_loop fuel (Entry_parent dir)
          | _ => Some ProjectTypeError
          end
      end
  end.

(** The [project] getter. *)
Definition Entry_project (fuel : nat) (this : Entry) : option project_result :=
  project_loop fuel
    (match entry_class_of this with
     | ClassFile => Entry_parent this
     | _ => Some this
     end).

(** The directory [n] levels above a path. *)
Definition ancestor (n : nat) (path : string) : string := Nat.iter n dirname path.

End EntryProject.

(** A stand-in for [path.dirname] on plain POSIX paths: what comes before
    the last slash, the root for a name right under it, and [.] for a name
    without a slash. *)
Definition posix_dirname (p : string) : string :=
  match last_index (Ascii.ascii_of_nat 47) p 0 None with
  | Some i => if bool_decide (String.substring 0 i p = EmptyString) then "/"
              else String.substring 0 i p
  | None => "."
  end.

Definition exists_only (path : string) (p : string) : bool := bool_decide (p = path).
Definition exists_nothing (p : string) : bool := false.



(** ** [Directory.resolve] and the listings of a directory *)

(** What [children()], [files()] and [directories()] come to: [null], the
    exception of [fs.statSync], or a list of entries. *)
Inductive listing :=
| ListNull
| ListThrew
| Listed (entries : list Entry).

#[global] Instance stat_eq_dec : EqDecision stat.
Proof. solve_decision. Defined.

Section DirectoryChildren.

(** [path.resolve], [fs.existsSync], [fs.readdirSync], and [fs.statSync],
    which throws ([None]) on a name it cannot follow, a dangling link
    say. *)
Variable resolve_path : string -> string -> string.
Variable existsSync : string -> bool.
Variable readdirSync : string -> list string.
Variable statSync : string -> option stat.

(** The callback of [children.map]: [this.entry(file).isDirectory()]
    decides between [this.directory(file)] and [this.file(file)]. *)
Definition child (this : string) (file : string) : option Entry :=
  match statSync (resolve_path this file) with
  | None => None
  | Some IsDirectory => Some (mkEntry ClassDirectory (resolve_path this file))
  | Some _ => Some (mkEntry ClassFile (resolve_path this file))
  end.

Definition Directory_children (this : string) : listing :=
  if existsSync this then
    match mapM (child this) (readdirSync this) with
    | Some entries => Listed entries
    | None => ListThrew
    end
  else ListNull.

(** [this.children().filter((entry) => entry.isFile())] and the same with
    [isDirectory]: both ask [fs.statSync] again. *)
Fixpoint filter_stat (wanted : stat) (entries : list Entry) : option (list Entry) :=
  match entries with
  | [] => Some []
  | entry :: entries =>
      match statSync (entry_path entry) with
      | None => None
      | Some s =>
          (λ rest, if bool_decide (s = wanted) then entry :: rest else rest)
            <$> filter_stat wanted entries
      end
  end.

Definition filter_children (wanted : stat) (this : string) : listing :=
  if existsSync this then
    match Directory_children this with
    | Listed entries =>
        match filter_stat wanted entries with
        | Some entries => Listed entries
        | None => ListThrew
        end
    | other => other
    end
  else ListNull.

Definition Directory_files : string -> listing := filter_children IsFile.
Definition Directory_directories : string -> listing := filter_children IsDirectory.

End DirectoryChildren.


Definition readdir_src (p : string) : list string := ["index.js"; "lib"; "pipe"].
Definition stat_src (p : string) : option stat :=
  if bool_decide (p = "/p/src/index.js") then Some IsFile
  else if bool_decide (p = "/p/src/lib") then Some IsDirectory
  else if bool_decide (p = "/p/src/pipe") then Some IsOther
  else None.



(** ** [Project.publish] and [Project.publishWithLerna] *)

(** The [version] argument: a string, or [None] for [undefined]; the empty
    string is falsy. *)
Definition version_given (version : option string) : option string :=
  match version with
  | Some v => if bool_decide (v = EmptyString) then None else Some v
  | None => None
  end.

(** A parameter with the default [true]: the default is taken for
    [undefined] only. *)
Definition default_true (v : jsval) : jsval :=
  match v with
  | VUndefined => VBool true
  | _ => v
  end.

(** The command line [publishWithLerna] hands to [exec], after the path of
    the lerna binary; [git_check] is the answer of [this.git.check()] and
    [ci] says whether [process.env.CI] is set. *)
Definition lerna_command (version : option string) (git npm : jsval)
           (git_check ci : bool) : list string :=
  let git := default_true git in
  let npm := default_true npm in
  let command := if not_false npm then "publish" else "version" in
  let args := ["--force-publish"] in
  let args := if negb (not_false git) || negb git_check
              then args ++ ["--no-git-tag-version"; "--no-push"]
              else args ++ ["--push"] in
  let args :=
    if bool_decide (version = Some "canary") then args ++ ["--canary"]
    else if bool_decide (version = Some "alpha") then args ++ ["--canary"; "--preid alpha"]
    else if bool_decide (version = Some "beta") then args ++ ["--canary"; "--preid beta"]
    else if bool_decide (version = Some "rc") then args ++ ["--canary"; "--preid rc"]
    else if bool_decide (version = Some "patch") then "patch" :: args
    else if bool_decide (version = Some "minor") then "minor" :: args
    else if bool_decide (version = Some "major") then "major" :: args
    else match version_given version with
         | Some v => v :: args
         | None => args
         end in
  let args := if ci then args ++ ["--yes"] else args in
  command :: args.

(** The kinds of release [semver.inc] is asked for. *)
Inductive release := Patch | Minor | Major | Prerelease (preid : string).

(** What [publish] comes to: an [Error] with its message, the
    [ReferenceError] of reading [current] before its declaration, the
    [TypeError] of calling [replace] on [null], the hand-over to lerna, the
    prompt for a version, or the calls it issues when each of them
    succeeds: [version(newVersion)] on the projects of [versioned], then
    [git.release(newVersion)] when [released], then [publish(tag)] on the
    projects of [published]. *)
Inductive publish_outcome :=
| PublishError (message : string)
| PublishReferenceError
| PublishTypeError
| PublishLerna (command : list string)
| PublishPrompt
| PublishCalls (newVersion : string) (versioned : list string) (released : bool)
               (tag : option string) (published : list string).

(** The state of the project that [publish] reads. *)
Record PublishEnv := mkPublishEnv {
  pe_path : string;
  pe_git_cwd : string;
  pe_git_check : bool;
  pe_git_hasChanges : bool;
  pe_shortCommitCode : string;
  pe_workspaces : option (list string);
  pe_lerna : bool;
  pe_parent_lerna : option bool;
  pe_ci : bool
}.

(** [(workspaces && this.file('lerna.json').exists()) || (parent &&
    parent.file('lerna.json').exists())] *)
Definition uses_lerna (env : PublishEnv) : bool :=
  (bool_decide (is_Some (pe_workspaces env)) && pe_lerna env)
  || default false (pe_parent_lerna env).

(** The prerelease keywords and the dist-tag that goes with them. *)
Definition prerelease_tag (version : option string) : option string :=
  if bool_decide (version = Some "canary") then Some "alpha"
  else if bool_decide (version = Some "alpha") then Some "alpha"
  else if bool_decide (version = Some "beta") then Some "beta"
  else if bool_decide (version = Some "rc") then Some "rc"
  else None.

Section Publish.

(** [semver.inc(current, release, preid)], [null] for a version it cannot
    read, and the canary version made of a prerelease and the hash,
    [v.replace(/\.\d+$/, `.${hash.trim()}`)]. *)
Variable semver_inc : release -> option string.
Variable canary_version : string -> string -> string.

Definition publish_calls (env : PublishEnv) (git npm : jsval) (tag : option string)
           (newVersion : option string) : publish_outcome :=
  match newVersion with
  | None => PublishError "missing version to publish"
  | Some newVersion =>
      let projects := pe_path env :: default [] (pe_workspaces env) in
      PublishCalls newVersion projects
                   (pe_git_check env && jsval_truthy git)
                   tag
                   (if jsval_truthy npm then projects else [])
  end.

Definition publish (env : PublishEnv) (version : option string) (git npm : jsval)
  : publish_outcome :=
  if pe_git_check env && pe_git_hasChanges env then
    PublishError ("uncommitted or unpushed changes in the repository "
                  ++ pe_git_cwd env)%string
  else if uses_lerna env then
    PublishLerna (lerna_command version git npm (pe_git_check env) (pe_ci env))
  else if negb (pe_git_check env
                && negb (bool_decide (pe_shortCommitCode env = EmptyString))) then
    PublishReferenceError
  else
    let hash := pe_shortCommitCode env in
    if bool_decide (version = Some "canary") then
      match semver_inc (Prerelease "alpha") with
      | None => PublishTypeError
      | Some v => publish_calls env git npm (Some "alpha") (Some (canary_version v hash))
      end
    else if bool_decide (version = Some "alpha") then
      publish_calls env git npm (Some "alpha") (semver_inc (Prerelease "alpha"))
    else if bool_decide (version = Some "beta") then
      publish_calls env git npm (Some "beta") (semver_inc (Prerelease "beta"))
    else if bool_decide (version = Some "rc") then
      publish_calls env git npm (Some "rc") (semver_inc (Prerelease "rc"))
    else if bool_decide (version = Some "patch") then
      publish_calls env git npm None (semver_inc Patch)
    else if bool_decide (version = Some "minor") then
      publish_calls env git npm None (semver_inc Minor)
    else if bool_decide (version = Some "major") then
      publish_calls env git npm None (semver_inc Major)
    else match version_given version with
         | Some v => publish_calls env git npm None (Some v)
         | None =>
             if pe_ci env then publish_calls env git npm None None
             else match semver_inc (Prerelease "alpha") with
                  | None => PublishTypeError
                  | Some _ => PublishPrompt
                  end
         end.

End Publish.

Definition semver_from_1_2_3 (r : release) : option string :=
  match r with
  | Patch => Some "1.2.4"
  | Minor => Some "1.3.0"
  | Major => Some "2.0.0"
  | Prerelease preid => Some ("1.2.4-" ++ preid ++ ".0")%string
  end.

Definition canary_join (v hash : string) : string := (v ++ "." ++ hash)%string.

Definition env_monorepo : PublishEnv :=
  mkPublishEnv "/p" "/p" true false "abc1234" (Some ["/p/packages/a"; "/p/packages/b"])
               false None true.

Definition env_no_git : PublishEnv :=
  mkPublishEnv "/p" "/p" false false "" None false None true.



(** ** The entries of the build action *)

#[global] Instance ResolvedEntry_eq_dec : EqDecision ResolvedEntry.
Proof. solve_decision. Defined.

(** [entry instanceof Project] *)
Definition is_project (entry : ResolvedEntry) : bool :=
  match entry with
  | EProject _ => true
  | _ => false
  end.

(** [isProjectInList(list, project)]: some project of the list has the
    name of [project]; two projects without a name have the same one. *)
Definition isProjectInList (lst : list ResolvedEntry) (project : Project) : bool :=
  existsb (λ entry, match entry with
                    | EProject p => bool_decide (project_name p = project_name project)
                    | _ => false
                    end) lst.

(** What the computation of the entries comes to: the entries, the error
    [missing files to build], or the exception of [project.resolve]. *)
Inductive entries_outcome :=
| Entries (entries : list ResolvedEntry)
| MissingFiles
| ResolveThrew.

Section BuildEntries.

(** [glob.sync], [fs.statSync] as [Project.resolve] uses them, and
    [project.getWorkspaceDependencies] (not part of the sources at
    hand). *)
Variable glob_sync : string -> string -> list string.
Variable statSync : string -> option stat.
Variable getWorkspaceDependencies : Project -> list Project.

(** The callback of [reduce]. *)
Definition add_entry (recursive : bool) (lst : list ResolvedEntry)
           (entry : ResolvedEntry) : list ResolvedEntry :=
  match entry with
  | EProject p =>
      if isProjectInList lst p then lst
      else
        let deps := if recursive
                    then filter (λ dep, isProjectInList lst dep = false)
                                (getWorkspaceDependencies p)
                    else [] in
        lst ++ (EProject <$> deps) ++ [entry]
  | _ => lst ++ [entry]
  end.

(** [if (!entries.length) throw new Error('missing files to build')] *)
Definition check_entries (entries : list ResolvedEntry) : entries_outcome :=
  match entries with
  | [] => MissingFiles
  | _ => Entries entries
  end.

(** The [entries] of the action. *)
Definition build_entries (arguments : list string) (recursive : bool)
           (project : Project) (workspaces : option (list Project))
  : entries_outcome :=
  match arguments with
  | [] => check_entries match workspaces with
                        | Some workspaces => EProject <$> workspaces
                        | None => [EProject project]
                        end
  | _ => match Project_resolve glob_sync statSync project workspaces
                               (Many arguments) with
         | Some resolved => check_entries (foldl (add_entry recursive) [] resolved)
         | None => ResolveThrew
         end
  end.

End BuildEntries.

(** The names of the projects of a list, and its other entries. *)
Definition project_names (lst : list ResolvedEntry) : list (option string) :=
  omap (λ entry, match entry with
                 | EProject p => Some (project_name p)
                 | _ => None
                 end) lst.

Definition plain_entries (lst : list ResolvedEntry) : list ResolvedEntry :=
  filter (λ entry, is_project entry = false) lst.

Definition no_dependencies (p : Project) : list Project := [].
(** * Properties *)

(** ** The change filter *)

Section ChangeFilterFacts.

Variable realpathSync : string -> option string.

Lemma realpaths_lookup files reals i file :
  realpaths realpathSync files = Some reals → files !! i = Some file →
  ∃ real, realpathSync (file_path file) = Some real ∧ reals !! i = Some real.
Proof.
  unfold realpaths. intros Hm Hi. apply mapM_Some_1 in Hm.
  destruct (Forall2_lookup_l _ _ _ _ _ Hm Hi) as (real & Hr & Hf). eauto.
Qed.

Lemma realpaths_elem files reals real :
  realpaths realpathSync files = Some reals → real ∈ reals →
  ∃ file, file ∈ files ∧ realpathSync (file_path file) = Some real.
Proof.
  unfold realpaths. intros Hm Hin. apply mapM_Some_1 in Hm.
  apply list_elem_of_lookup in Hin as [i Hi].
  destruct (Forall2_lookup_r _ _ _ _ _ Hm Hi) as (file & Hf & Hr).
  exists file. split; [|done]. apply list_elem_of_lookup. eauto.
Qed.

Lemma realpaths_total files :
  Forall (λ file, is_Some (realpathSync (file_path file))) files →
  is_Some (realpaths realpathSync files).
Proof. intros H. unfold realpaths. by apply mapM_is_Some. Qed.

Lemma callback_set_spec reals bundle bfiles :
  bundle_files bundle = Some bfiles →
  truthy (changed_callback reals bundle) = true ↔ ∃ real, real ∈ reals ∧ real ∈ bfiles.
Proof.
  intros Hb. unfold changed_callback. rewrite Hb. simpl.
  rewrite existsb_exists. split.
  - intros (real & Hin & Hd). apply bool_decide_eq_true in Hd.
    exists real. split; [by apply list_elem_of_In | done].
  - intros (real & Hin & Hd). exists real.
    split; [by apply list_elem_of_In | by apply bool_decide_eq_true].
Qed.

Lemma callback_unset reals bundle :
  bundle_files bundle = None → truthy (changed_callback reals bundle) = true.
Proof. intros Hb. unfold changed_callback. by rewrite Hb. Qed.

Lemma filterChangedBundles_elem bundles files changed bundle :
  filterChangedBundles realpathSync bundles files = Some changed →
  bundle ∈ changed ↔
    bundle ∈ bundles ∧ (bundle_files bundle = None ∨ ∃ file, file ∈ files ∧ tracks realpathSync bundle file).
Proof.
  unfold filterChangedBundles. intros H.
  destruct (realpaths realpathSync files) as [reals|] eqn:Hr; simplify_eq/=.
  rewrite list_elem_of_filter. split.
  - intros [Ht Hin]. split; [done|].
    destruct (bundle_files bundle) as [bfiles|] eqn:Hb; [right|by left].
    apply Is_true_true in Ht. apply (callback_set_spec _ _ _ Hb) in Ht.
    destruct Ht as (real & Hreal & Hbf).
    destruct (realpaths_elem _ _ _ Hr Hreal) as (file & Hf & Hrp).
    exists file. split; [done|]. exists bfiles, real. done.
  - intros [Hin Hcase]. split; [|done]. apply Is_true_true.
    destruct Hcase as [Hnone | (file & Hf & bfiles & real & Hb & Hrp & Hbf)].
    + by apply callback_unset.
    + apply (callback_set_spec _ _ _ Hb). exists real. split; [|done].
      apply list_elem_of_lookup in Hf as [i Hi].
      destruct (realpaths_lookup _ _ _ _ Hr Hi) as (real' & Hr' & Hl).
      rewrite Hrp in Hr'. simplify_eq. apply list_elem_of_lookup. eauto.
Qed.

Lemma filterChangedBundles_total bundles files :
  Forall (λ file, is_Some (realpathSync (file_path file))) files →
  is_Some (filterChangedBundles realpathSync bundles files).
Proof.
  intros H. destruct (realpaths_total _ H) as [reals Hr].
  unfold filterChangedBundles. rewrite Hr. by eexists.
Qed.

(** [realpathSync] throwing on one file makes the whole call throw. *)
Lemma filterChangedBundles_throws bundles files file :
  file ∈ files → realpathSync (file_path file) = None →
  filterChangedBundles realpathSync bundles files = None.
Proof.
  intros Hin Hnone. unfold filterChangedBundles, realpaths.
  assert (Hm : mapM (λ file, realpathSync (file_path file)) files = None).
  { apply mapM_None. apply Exists_exists. eauto. }
  by rewrite Hm.
Qed.

Lemma filterChangedBundles_sublist bundles files changed :
  filterChangedBundles realpathSync bundles files = Some changed → sublist changed bundles.
Proof.
  unfold filterChangedBundles. intros H.
  destruct (realpaths realpathSync files); simplify_eq/=. apply sublist_filter.
Qed.

(** C4, as amended: when every changed file resolves, the selection
    exists, keeps the order of [bundlers], and a bundle whose [files]
    list is populated is selected exactly when it belongs to [bundlers]
    and its [files] list holds the resolved path of a changed file. *)
Theorem filterChangedBundles_exact bundles files :
  Forall (λ file, is_Some (realpathSync (file_path file))) files →
  ∃ changed, filterChangedBundles realpathSync bundles files = Some changed
    ∧ sublist changed bundles
    ∧ ∀ bundle, files_set bundle →
        (bundle ∈ changed ↔ bundle ∈ bundles ∧ ∃ file, file ∈ files ∧ tracks realpathSync bundle file).
Proof.
  intros Hres. destruct (filterChangedBundles_total bundles _ Hres) as [changed Hc].
  exists changed. split; [done|]. split; [by eapply filterChangedBundles_sublist|].
  intros bundle [bfiles Hset]. rewrite (filterChangedBundles_elem _ _ _ _ Hc).
  split; intros [Hin Hcase]; (split; [done|]).
  - destruct Hcase as [Hnone|?]; [congruence|done].
  - by right.
Qed.

(** C10, as amended: a bundler whose [files] is unset makes the filter
    callback return the empty array, which is truthy; it is part of every
    selection that [filterChangedBundles] returns, a selection exists for
    every list whose files all resolve, and the [ignore] predicate never
    answers [true] while such a bundler is there.  On a list that holds a
    file which [realpathSync] cannot resolve the call throws, and so does
    the [ignore] predicate on such a file. *)
Theorem unset_files_always_selected bundles bundle :
  bundle ∈ bundles → bundle_files bundle = None →
  (∀ reals, changed_callback reals bundle = JsArray []
            ∧ truthy (changed_callback reals bundle) = true)
  ∧ (∀ files changed, filterChangedBundles realpathSync bundles files = Some changed → bundle ∈ changed)
  ∧ (∀ files, Forall (λ file, is_Some (realpathSync (file_path file))) files →
       ∃ changed, filterChangedBundles realpathSync bundles files = Some changed ∧ bundle ∈ changed)
  ∧ (∀ file, ignore realpathSync bundles file ≠ Some true)
  ∧ (∀ file, is_Some (realpathSync (file_path file)) →
       ignore realpathSync bundles file = Some false)
  ∧ (∀ files file, file ∈ files → realpathSync (file_path file) = None →
       filterChangedBundles realpathSync bundles files = None
       ∧ ignore realpathSync bundles file = None).
Proof.
  intros Hin Hnone.
  assert (Hsel : ∀ files changed,
             filterChangedBundles realpathSync bundles files = Some changed → bundle ∈ changed).
  { intros files changed Hc. apply (filterChangedBundles_elem _ _ _ _ Hc). auto. }
  assert (Hign : ∀ file, ignore realpathSync bundles file ≠ Some true).
  { intros file. unfold ignore.
    destruct (filterChangedBundles realpathSync bundles [file]) as [changed|] eqn:Hc;
      [|done].
    simpl. intros [= Hlen%bool_decide_eq_true].
    apply Hsel in Hc. destruct changed; [by apply elem_of_nil in Hc | done]. }
  split_and!; [|done| |done| |].
  - intros reals. unfold changed_callback. by rewrite Hnone.
  - intros files Hres. destruct (filterChangedBundles_total bundles _ Hres) as [changed Hc].
    exists changed. eauto.
  - intros file Hres. specialize (Hign file). unfold ignore in *.
    destruct (filterChangedBundles_total bundles [file]) as [changed Hc];
      [by apply Forall_singleton|].
    rewrite Hc in *. simpl in *. by case_bool_decide.
  - intros files file Hf Hr. split; [by eapply filterChangedBundles_throws|].
    unfold ignore. rewrite (filterChangedBundles_throws bundles [file] file); try done.
    apply list_elem_of_here.
Qed.

(** A batch of files that no bundle tracks selects nothing, provided every [files]
    list is populated. *)
Lemma untracked_selects_nothing bundles files changed :
  Forall files_set bundles →
  Forall (λ file, ∀ bundle, bundle ∈ bundles → ¬ tracks realpathSync bundle file) files →
  filterChangedBundles realpathSync bundles files = Some changed → changed = [].
Proof.
  intros Hset Hun Hc. destruct changed as [|bundle rest]; [done|].
  assert (Hin : bundle ∈ bundle :: rest) by apply list_elem_of_here.
  apply (filterChangedBundles_elem _ _ _ _ Hc) in Hin as [Hb Hcase].
  rewrite Forall_forall in Hset. destruct (Hset _ Hb) as [bfiles Hbf].
  destruct Hcase as [Hnone | (file & Hf & Htr)]; [congruence|].
  rewrite Forall_forall in Hun. by destruct (Hun _ Hf _ Hb).
Qed.

Lemma untracked_ignored bundles file :
  Forall files_set bundles →
  (∀ bundle, bundle ∈ bundles → ¬ tracks realpathSync bundle file) →
  ignore realpathSync bundles file ≠ Some false.
Proof.
  intros Hset Hun. unfold ignore.
  destruct (filterChangedBundles realpathSync bundles [file]) as [changed|] eqn:Hc;
    [|done].
  apply untracked_selects_nothing in Hc; [|done|by apply Forall_singleton].
  by subst.
Qed.

End ChangeFilterFacts.

(** C4 fails as stated: a bundler whose [files] is unset is selected for a
    batch although no [files] list of it holds any changed path. *)
Lemma filterChangedBundles_selects_unset :
  let bundle := mkBundle 0 None in
  let files := [mkFile "/project/src/unrelated.txt"] in
  filterChangedBundles realpath_plain [bundle] files = Some [bundle]
  ∧ ¬ ∃ file, file ∈ files ∧ tracks realpath_plain bundle file.
Proof.
  split; [reflexivity|]. intros (file & _ & bfiles & real & Hb & _). discriminate Hb.
Qed.

Lemma filterChangedBundles_exact_witness :
  let A := mkBundle 0 (Some ["/project/src/a.js"; "/project/src/util.js"]) in
  let B := mkBundle 1 (Some ["/project/src/b.css"]) in
  let files := [mkFile "/project/src/util.js"] in
  ∃ changed, filterChangedBundles realpath_plain [A; B] files = Some changed
    ∧ sublist changed [A; B]
    ∧ ∀ bundle, files_set bundle →
        (bundle ∈ changed ↔ bundle ∈ [A; B] ∧ ∃ file, file ∈ files ∧ tracks realpath_plain bundle file).
Proof.
  apply (filterChangedBundles_exact realpath_plain).
  repeat constructor; by eexists.
Defined.

(** C10 fails as stated: the list that holds the removed file is not empty,
    and the bundler's [files] is unset, yet [filterChangedBundles] throws
    on it and selects nothing, alone or beside a file that is there; the
    [ignore] predicate throws as well. *)
Lemma unset_bundler_not_selected_on_unlink :
  ¬ unset_selected_law realpath_removed
  ∧ filterChangedBundles realpath_removed [bundle_unset] [old_js] = None
  ∧ filterChangedBundles realpath_removed [bundle_unset] [util_js; old_js] = None
  ∧ ignore realpath_removed [bundle_unset] old_js = None.
Proof.
  split; [|done]. intros H.
  destruct (H [bundle_unset] bundle_unset [old_js]) as (changed & Hc & _);
    [done | apply list_elem_of_here | done | discriminate Hc].
Qed.

Lemma unset_files_always_selected_witness :
  let U := mkBundle 0 None in
  let B := mkBundle 1 (Some ["/project/src/b.css"]) in
  (∀ files changed, filterChangedBundles realpath_removed [U; B] files = Some changed → U ∈ changed)
  ∧ (∃ changed, filterChangedBundles realpath_removed [U; B] [readme; util_js] = Some changed
                ∧ U ∈ changed)
  ∧ ignore realpath_removed [U; B] readme = Some false
  ∧ filterChangedBundles realpath_removed [U; B] [util_js; old_js] = None.
Proof.
  intros U B.
  destruct (unset_files_always_selected realpath_removed [U; B] U)
    as (_ & H2 & H3 & _ & H5 & H6); [apply list_elem_of_here | reflexivity |].
  split; [exact H2|]. split; [|split].
  - apply H3. repeat constructor; by eexists.
  - apply H5. by eexists.
  - apply (H6 [util_js; old_js] old_js); [|reflexivity].
    apply list_elem_of_further, list_elem_of_here.
Defined.

(** ** Entry resolution *)

Section ResolveFacts.

Variable glob_sync : string -> string -> list string.
Variable statSync : string -> option stat.


Lemma matchProject_first workspaces pattern project :
  matchProject workspaces pattern = Some project →
  ∃ i, workspaces !! i = Some project
       ∧ ∀ j w, workspaces !! j = Some w → j < i → project_name w ≠ Some pattern.
Proof.
  unfold matchProject. intros H.
  destruct (list_find _ workspaces) as [[i w]|] eqn:Hf; simplify_eq/=.
  apply list_find_Some in Hf as (Hi & Hn & Hlt). eauto.
Qed.




Lemma push_new_spec files file :
  NoDup files →
  NoDup (push_new files file) ∧ ∀ f, f ∈ push_new files file ↔ f ∈ files ∨ f = file.
Proof.
  intros Hnd. unfold push_new. case_bool_decide as Hin.
  - split; [done|]. intros f. split; [auto|]. by intros [?| ->].
  - split.
    + apply NoDup_app. split; [done|]. split; [|apply NoDup_singleton].
      intros f Hf ->%list_elem_of_singleton. done.
    + intros f. rewrite elem_of_app, list_elem_of_singleton. done.
Qed.

Lemma foldl_push_new_spec files found :
  NoDup files →
  NoDup (foldl push_new files found)
  ∧ ∀ f, f ∈ foldl push_new files found ↔ f ∈ files ∨ f ∈ found.
Proof.
  revert files. induction found as [|file found IH]; intros files Hnd; simpl.
  - split; [done|]. intros f. rewrite elem_of_nil. tauto.
  - destruct (push_new_spec files file Hnd) as [Hnd1 Hin1].
    destruct (IH _ Hnd1) as [Hnd2 Hin2]. split; [done|].
    intros f. rewrite Hin2, Hin1, elem_of_cons. tauto.
Qed.

Lemma glob_files_spec cwd files patterns :
  NoDup files →
  NoDup (foldl (λ files pattern, foldl push_new files (glob_sync cwd pattern))
               files patterns)
  ∧ ∀ f, f ∈ foldl (λ files pattern, foldl push_new files (glob_sync cwd pattern))
                   files patterns
         ↔ f ∈ files ∨ ∃ pattern, pattern ∈ patterns ∧ f ∈ glob_sync cwd pattern.
Proof.
  revert files. induction patterns as [|pattern patterns IH]; intros files Hnd; simpl.
  - split; [done|]. intros f. split; [auto|]. intros [?|(? & []%elem_of_nil & _)]. done.
  - destruct (foldl_push_new_spec files (glob_sync cwd pattern) Hnd) as [Hnd1 Hin1].
    destruct (IH _ Hnd1) as [Hnd2 Hin2]. split; [done|].
    intros f. rewrite Hin2, Hin1. split.
    + intros [[?|?]|(p & Hp & Hf)]; [by left| |].
      * right. exists pattern. split; [apply list_elem_of_here|done].
      * right. exists p. split; [by apply list_elem_of_further|done].
    + intros [?|(p & Hp & Hf)]; [by left; left|].
      apply elem_of_cons in Hp as [->|Hp]; [by left; right|].
      right. eauto.
Qed.

(** The collected paths are pairwise distinct, and they are the paths
    that [glob] finds for some pattern. *)
Lemma resolve_files_spec cwd patterns :
  NoDup (resolve_files glob_sync cwd patterns)
  ∧ ∀ f, f ∈ resolve_files glob_sync cwd patterns
         ↔ ∃ pattern, pattern ∈ patterns ∧ f ∈ glob_sync cwd pattern.
Proof.
  destruct (glob_files_spec cwd [] patterns (NoDup_nil_2)) as [Hnd Hin].
  split; [done|]. intros f. unfold resolve_files. rewrite Hin.
  split; [|by right]. by intros [[]%elem_of_nil|?].
Qed.

Lemma resolve_entry_Some file e :
  resolve_entry statSync file = Some (Some e) ↔
  resolved_path e = file
  ∧ ((statSync file = Some IsDirectory ∧ e = EDirectory file)
     ∨ (statSync file = Some IsFile ∧ e = EFile file)).
Proof.
  unfold resolve_entry. destruct (statSync file) as [[]|]; simpl.
  - split; [intros [= <-]; auto|]. intros [_ [[_ ->]|[[=] _]]]. done.
  - split; [intros [= <-]; auto|]. intros [_ [[[=] _]|[_ ->]]]. done.
  - split; [done|]. by intros [_ [[[=] _]|[[=] _]]].
  - split; [done|]. by intros [_ [[[=] _]|[[=] _]]].
Qed.

(** What [files.map(...).filter(Boolean)] leaves of distinct paths. *)
Lemma resolve_entries_spec files entries :
  NoDup files → mapM (resolve_entry statSync) files = Some entries →
  NoDup (resolved_path <$> omap id entries)
  ∧ ∀ e, e ∈ omap id entries ↔
         resolved_path e ∈ files
         ∧ ((statSync (resolved_path e) = Some IsDirectory
             ∧ e = EDirectory (resolved_path e))
            ∨ (statSync (resolved_path e) = Some IsFile ∧ e = EFile (resolved_path e))).
Proof.
  intros Hnd Hm. apply mapM_Some_1 in Hm.
  induction Hm as [|f r files entries Hr Hm IH].
  - split; [constructor|]. intros e. simpl. rewrite elem_of_nil.
    split; [done|]. by intros [[]%elem_of_nil _].
  - apply NoDup_cons in Hnd as [Hf Hnd]. destruct (IH Hnd) as [IH1 IH2].
    assert (Hrest : ∀ e,
      resolved_path e ∈ f :: files
      ∧ ((statSync (resolved_path e) = Some IsDirectory
          ∧ e = EDirectory (resolved_path e))
         ∨ (statSync (resolved_path e) = Some IsFile ∧ e = EFile (resolved_path e)))
      ↔ resolve_entry statSync f = Some (Some e) ∨ e ∈ omap id entries).
    { intros e. rewrite IH2, elem_of_cons, resolve_entry_Some. split.
      - intros [[<-|Hin] Hc]; [left|right]; done.
      - intros [[<- Hc]|[Hin Hc]]; (split; [auto|done]). }
    destruct r as [e0|]; simpl.
    + split.
      * apply NoDup_cons. split; [|done].
        intros (e & He & Hin)%list_elem_of_fmap. apply IH2 in Hin as [Hin _].
        apply resolve_entry_Some in Hr as [Hp _]. congruence.
      * intros e. rewrite Hrest, Hr, elem_of_cons.
        split; intros [H|H]; auto; left; congruence.
    + split; [done|]. intros e. rewrite Hrest, Hr. split; [auto|]. by intros [?|?].
Qed.

(** [Directory.resolve] throws exactly when [fs.statSync] throws on a path
    that [glob] finds for one of the patterns. *)
Lemma Directory_resolve_None cwd patterns :
  Directory_resolve glob_sync statSync cwd patterns = None ↔
  ∃ pattern file, pattern ∈ to_array patterns ∧ file ∈ glob_sync cwd pattern
                  ∧ statSync file = None.
Proof.
  unfold Directory_resolve.
  destruct (resolve_files_spec cwd (to_array patterns)) as [_ Hin].
  destruct (mapM _ _) as [entries|] eqn:Hm; simpl.
  - split; [done|]. intros (pattern & file & Hp & Hf & Hs). exfalso.
    assert (Hex : mapM (resolve_entry statSync)
                    (resolve_files glob_sync cwd (to_array patterns)) = None);
      [|congruence].
    apply mapM_None. apply Exists_exists. exists file.
    split; [apply Hin; eauto|]. unfold resolve_entry. by rewrite Hs.
  - split; [|done]. intros _. apply mapM_None, Exists_exists in Hm as (file & Hf & Hr).
    apply Hin in Hf as (pattern & Hp & Hf). exists pattern, file.
    split; [done|]. split; [done|]. unfold resolve_entry in Hr.
    by destruct (statSync file).
Qed.

(** When it returns, [Directory.resolve] answers with one entry per path,
    for the paths that some pattern matches and that are a directory or
    a file. *)
Lemma Directory_resolve_Some cwd patterns entries :
  Directory_resolve glob_sync statSync cwd patterns = Some entries →
  NoDup (resolved_path <$> entries)
  ∧ ∀ e, e ∈ entries ↔
         (∃ pattern, pattern ∈ to_array patterns
                     ∧ resolved_path e ∈ glob_sync cwd pattern)
         ∧ ((statSync (resolved_path e) = Some IsDirectory
             ∧ e = EDirectory (resolved_path e))
            ∨ (statSync (resolved_path e) = Some IsFile ∧ e = EFile (resolved_path e))).
Proof.
  unfold Directory_resolve. intros H.
  destruct (resolve_files_spec cwd (to_array patterns)) as [Hnd Hin].
  destruct (mapM _ _) as [rs|] eqn:Hm; simplify_eq/=.
  destruct (resolve_entries_spec _ _ Hnd Hm) as [H1 H2]. split; [done|].
  intros e. by rewrite H2, Hin.
Qed.


End ResolveFacts.

(** ** [WebManifestBundler.setup] *)

Section WebManifestBundlerFacts.

Variable name : string.
Variable extname : string -> string.
Variable basename : string -> string.
Variable resolve_path : string -> string -> string.
Variable super_setup : Options -> gmap string Entry -> thrown + gmap string Entry.

(** C9, as amended: a missing [input] makes [setup] throw the message
    about "input"; a missing [output] with [input] present makes it throw
    the message about "output"; both throws leave the bundler's options
    untouched; with both present, the base-class setup passing, and an
    output that has an extension or a [file] method, [setup] returns. *)
Theorem setup_validates options config :
  (opt_input options = None →
     setup name extname basename resolve_path super_setup options config
     = (ThrewMessage (missing_option "input" name), config))
  ∧ (is_Some (opt_input options) → opt_output options = None →
     setup name extname basename resolve_path super_setup options config
     = (ThrewMessage (missing_option "output" name), config))
  ∧ (∀ input output config',
       opt_input options = Some input → opt_output options = Some output →
       super_setup options config = inr config' →
       extname (entry_path output) ≠ EmptyString
         ∨ has_file_method (entry_class_of output) = true →
       (setup name extname basename resolve_path super_setup options config).1 = Returned).
Proof.
  unfold setup. split; [|split].
  - intros ->. done.
  - intros [input ->] ->. done.
  - intros input output config' -> -> -> Hcase.
    case_bool_decide as Hext; [|done].
    destruct Hcase as [Hne | ->]; [done|done].
Qed.

End WebManifestBundlerFacts.

(** C9 fails as stated: with both options missing the error names "input",
    not "output". *)
Lemma setup_both_missing_names_input :
  let options := mkOptions None None in
  opt_output options = None
  ∧ (setup "WebManifestBundler" path_extname_none path_basename_id path_resolve_join
           super_setup_store options ∅).1
    = ThrewMessage (missing_option "input" "WebManifestBundler")
  ∧ (setup "WebManifestBundler" path_extname_none path_basename_id path_resolve_join
           super_setup_store options ∅).1
    ≠ ThrewMessage (missing_option "output" "WebManifestBundler").
Proof. split; [reflexivity|]. split; [reflexivity|]. vm_compute. discriminate. Qed.

(** Beside the point of C9, and left out of its amended statement: an output
    that is a [File] without extension (as [entry.parent.file(options.output)]
    builds for [--output dist]) passes both checks and the base-class setup,
    and then [output.file] is not a function. *)
Lemma setup_file_output_without_extension :
  let input := mkEntry ClassFile "/project/src/manifest.json" in
  let output := mkEntry ClassFile "/project/src/dist" in
  (setup "WebManifestBundler" path_extname_none path_basename_id path_resolve_join
         super_setup_store (mkOptions (Some input) (Some output)) ∅).1 = ThrewTypeError.
Proof. reflexivity. Qed.

(** ** The promise chain *)

Section ChainFacts.

Variable realpathSync : string -> option string.

Lemma omap_job_target_snoc rs r :
  omap job_target (rs ++ [r]) = omap job_target rs ++ from_option (λ p, [p]) [] (job_target r).
Proof. rewrite omap_app. simpl. by destruct (job_target r). Qed.

Lemma chain_at_emit d e st : chain_at d st → chain_at d (emit e st).
Proof. intros [? ? ? ? ?]. by constructor. Qed.

Lemma chain_at_statuses d f st : chain_at d st → chain_at d (set_statuses f st).
Proof. intros [? ? ? ? ?]. by constructor. Qed.

Lemma chain_at_bundlers d f st : chain_at d st → chain_at d (set_bundlers f st).
Proof. intros [? ? ? ? ?]. by constructor. Qed.

Lemma chain_at_collected d f st : chain_at d st → chain_at d (set_collectedFiles f st).
Proof. intros [? ? ? ? ?]. by constructor. Qed.

Lemma chain_at_timeout d t st : chain_at d st → chain_at d (set_timeout t st).
Proof. intros [? ? ? ? ?]. by constructor. Qed.

(** A reaction that is not a job can be registered anywhere. *)
Lemma chain_at_subscribe d q r st :
  job_target r = None → chain_at d st → chain_at d (subscribe q r st).
Proof.
  intros Hr [Htail Hbound Hdone Htodo Hhead]. unfold subscribe.
  destruct (heap st !! q) as [[rs|]|] eqn:Hq; [| |by constructor].
  - assert (Hdq : d < q).
    { destruct (decide (d < q)); [done|]. rewrite Hdone in Hq by lia. done. }
    constructor; simpl; rewrite ?length_insert; try done.
    + intros p Hp. rewrite list_lookup_insert_ne by lia. by apply Hdone.
    + intros p Hp Hlen. destruct (decide (p = q)) as [->|Hne].
      * rewrite list_lookup_insert_eq by done.
        destruct (Htodo q Hp Hlen) as (rs' & Hrs' & Hj). simplify_eq.
        eexists. split; [done|]. rewrite omap_job_target_snoc, Hr. simpl.
        by rewrite app_nil_r.
      * rewrite list_lookup_insert_ne by done. by apply Htodo.
  - constructor; simpl; try done.
    unfold active in *. simpl. rewrite omap_job_target_snoc, Hr. simpl.
    by rewrite app_nil_r.
Qed.

Lemma chain_at_enqueue d bundle inv st :
  chain_at d st → chain_at d (enqueue bundle inv st).
Proof.
  intros [Htail Hbound Hdone Htodo Hhead]. unfold enqueue.
  assert (Hq : promise st < length (heap st)) by lia.
  unfold subscribe at 2. simpl.
  rewrite lookup_app_l by lia.
  destruct (decide (d = promise st)) as [Hd|Hd].
  - rewrite Hdone by lia. unfold subscribe. simpl.
    rewrite lookup_app_r by lia. replace (length (heap st) - length (heap st)) with 0 by lia.
    simpl. constructor; simpl; rewrite ?length_insert, ?length_app; simpl.
    + lia.
    + lia.
    + intros p Hp. rewrite list_lookup_insert_ne by lia.
      rewrite lookup_app_l by lia. by apply Hdone.
    + intros p Hp Hlen. assert (p = length (heap st)) as -> by lia.
      rewrite list_lookup_insert_eq by (rewrite length_app; simpl; lia).
      eexists. split; [done|]. simpl. rewrite decide_False by lia. done.
    + unfold active in *. simpl. rewrite omap_job_target_snoc. simpl.
      rewrite app_assoc, Hhead.
      rewrite decide_False by lia. rewrite decide_True by lia.
      simpl. f_equal. lia.
  - assert (Hlt : d < promise st) by lia.
    destruct (Htodo (promise st) Hlt Hq) as (rs & Hrs & Hj).
    rewrite decide_False in Hj by lia.
    rewrite Hrs. unfold subscribe. simpl.
    rewrite list_lookup_insert_ne by lia.
    rewrite lookup_app_r by lia. replace (length (heap st) - length (heap st)) with 0 by lia.
    simpl. constructor; simpl; rewrite ?length_insert, ?length_app; simpl.
    + lia.
    + lia.
    + intros p Hp. rewrite !list_lookup_insert_ne by lia.
      rewrite lookup_app_l by lia. by apply Hdone.
    + intros p Hp Hlen.
      destruct (decide (p = length (heap st))) as [->|Hpn].
      * rewrite list_lookup_insert_eq
          by (rewrite length_insert, length_app; simpl; lia).
        eexists. split; [done|]. simpl. rewrite decide_False by lia. done.
      * rewrite list_lookup_insert_ne by lia.
        destruct (decide (p = promise st)) as [->|Hpq].
        -- rewrite list_lookup_insert_eq by (rewrite length_app; simpl; lia).
           eexists. split; [done|]. rewrite omap_job_target_snoc, Hj. simpl.
           rewrite decide_True by lia. f_equal. lia.
        -- rewrite list_lookup_insert_ne by done.
           rewrite lookup_app_l by lia.
           destruct (Htodo p Hp ltac:(lia)) as (rs' & Hrs' & Hj').
           exists rs'. split; [done|]. rewrite Hj'.
           rewrite decide_True by lia. rewrite decide_True by lia. done.
    + unfold active in *. simpl. rewrite Hhead.
      rewrite decide_True by lia. rewrite decide_True by lia. done.
Qed.

Lemma chain_at_reBuild d bundle files st :
  chain_at d st → chain_at d (reBuild bundle files st).
Proof.
  intros H. unfold reBuild.
  repeat (case_match || apply chain_at_enqueue || apply chain_at_emit
          || apply chain_at_statuses); done.
Qed.

Lemma chain_at_foldl_reBuild d files bundles st :
  chain_at d st →
  chain_at d (foldl (λ st bundle, reBuild (bundle_id bundle) (Some files) st) st bundles).
Proof.
  revert st. induction bundles as [|bundle bundles IH]; intros st H; simpl; [done|].
  apply IH. by apply chain_at_reBuild.
Qed.

Lemma chain_at_flush d files st :
  chain_at d st → chain_at d (flush realpathSync files st).
Proof.
  intros H. unfold flush.
  repeat case_match; try done; try by apply chain_at_emit.
  apply chain_at_foldl_reBuild. by apply chain_at_emit.
Qed.

(** With at most one promise holding the head of the chain, a job found in
    flight is the only one and nothing else is about to start. *)
Lemma chain_head_inflight d st j :
  chain_at d st → j ∈ inflight st →
  inflight st = [j] ∧ omap job_target (microtasks st) = []
  ∧ job_promise j = S d ∧ S d < length (heap st).
Proof.
  intros [_ _ _ _ Hhead] Hj. unfold active in Hhead.
  destruct (inflight st) as [|j' js] eqn:Hin; [by apply elem_of_nil in Hj|].
  simpl in Hhead. case_decide; [|done].
  injection Hhead as Hp Hrest. apply app_eq_nil in Hrest as [Hjs Hms].
  apply fmap_nil_inv in Hjs. subst js.
  apply list_elem_of_singleton in Hj. subst j'. done.
Qed.

Lemma chain_head_microtask d st bundle inv p rest :
  chain_at d st → microtasks st = RJob bundle inv p :: rest →
  inflight st = [] ∧ omap job_target rest = [] ∧ p = S d ∧ S d < length (heap st).
Proof.
  intros [_ _ _ _ Hhead] Hms. unfold active in Hhead. rewrite Hms in Hhead. simpl in Hhead.
  destruct (inflight st) as [|j js]; simpl in Hhead.
  - case_decide; [|done]. injection Hhead as Hp Hrest. done.
  - case_decide; [|done]. injection Hhead as Hp Hrest.
    apply app_eq_nil in Hrest as [_ Hrest]. done.
Qed.

Lemma chain_at_run_reaction d r rest st :
  chain_at d st → microtasks st = r :: rest →
  chain_at d (run_reaction realpathSync r (set_microtasks (λ _, rest) st)).
Proof.
  intros H Hms.
  assert (Hrest : job_target r = None → chain_at d (set_microtasks (λ _, rest) st)).
  { intros Hr. destruct H as [? ? ? ? Hhead]. constructor; try done.
    unfold active in *. simpl. rewrite Hms in Hhead. simpl in Hhead.
    by rewrite Hr in Hhead. }
  destruct r as [bundle inv p|bundle|files]; simpl.
  - destruct (chain_head_microtask _ _ _ _ _ _ H Hms) as (Hin & Hr & -> & Hlen).
    destruct H as [? ? ? ? Hhead]. constructor; try done.
    unfold active. simpl. rewrite Hin, Hr. simpl.
    by rewrite decide_True by done.
  - apply chain_at_reBuild, chain_at_statuses. by apply Hrest.
  - apply chain_at_flush. by apply Hrest.
Qed.

Lemma find_job_Some p ph jobs j :
  find_job p ph jobs = Some j → j ∈ jobs ∧ job_promise j = p ∧ job_phase j = ph.
Proof.
  unfold find_job. intros H.
  destruct (list_find _ jobs) as [[i j']|] eqn:Hf; simplify_eq/=.
  apply list_find_Some in Hf as (Hi & [Hp Hph] & _).
  split; [|done]. apply list_elem_of_lookup. eauto.
Qed.

Lemma remove_job_singleton j : remove_job (job_promise j) [j] = [].
Proof. unfold remove_job. by rewrite filter_cons_False, filter_nil by (intros ?; done). Qed.

(** The promise of the job in flight settles. *)
Lemma chain_at_settle d st j :
  chain_at d st → inflight st = [j] →
  chain_at (S d) (settle (job_promise j) (set_inflight (remove_job (job_promise j)) st)).
Proof.
  intros H Hin.
  destruct (chain_head_inflight d st j H) as (_ & Hms & Hp & Hlen).
  { rewrite Hin. apply list_elem_of_here. }
  destruct H as [Htail Hbound Hdone Htodo Hhead].
  destruct (Htodo (S d) ltac:(lia) Hlen) as (rs & Hrs & Hj).
  unfold settle. simpl. rewrite Hp, Hrs.
  constructor; simpl; rewrite ?length_insert; try done.
  - intros p Hle. destruct (decide (p = S d)) as [->|Hne].
    + by rewrite list_lookup_insert_eq by done.
    + rewrite list_lookup_insert_ne by done. apply Hdone. lia.
  - intros p Hlt Hpl. rewrite list_lookup_insert_ne by lia. apply Htodo; lia.
  - unfold active. simpl. rewrite Hin, omap_app, Hms.
    rewrite <- Hp, remove_job_singleton. simpl. rewrite Hp. done.
Qed.

Theorem chain_inv_step ev st st' :
  chain_inv st → step realpathSync ev st = Some st' → chain_inv st'.
Proof.
  intros [d H] Hstep. destruct ev as [t ty file|t|p r files|p r|p files|]; simpl in Hstep.
  - destruct (microtasks st); simplify_eq. exists d. unfold on_change.
    apply chain_at_timeout, chain_at_collected. case_bool_decide; by apply chain_at_emit.
  - destruct (microtasks st); [|done]. destruct (timeout st) as [deadline|]; [|done].
    case_bool_decide; simplify_eq. exists d. unfold on_timeout.
    apply chain_at_subscribe; [done|]. by apply chain_at_timeout, chain_at_collected.
  - destruct (find_job p Building (inflight st)) as [j|] eqn:Hf; [|done].
    apply find_job_Some in Hf as (Hj & <- & Hph).
    destruct (chain_head_inflight d st j H Hj) as (Hin & Hms & Hp & Hlen).
    destruct r as [|e]; simplify_eq.
    + exists d. destruct H as [? ? ? ? Hhead]. constructor; try done.
      unfold active in *. simpl. rewrite Hin, Hms in *. rewrite remove_job_singleton.
      done.
    + exists (S d).
      apply (chain_at_settle d (catch e (set_bundlers (set_files (job_bundle j) files) st)) j).
      * unfold catch. case_match; [apply chain_at_emit|]; by apply chain_at_bundlers.
      * unfold catch. by case_match.
  - destruct (find_job p Writing (inflight st)) as [j|] eqn:Hf; [|done].
    apply find_job_Some in Hf as (Hj & <- & Hph).
    destruct (chain_head_inflight d st j H Hj) as (Hin & _ & Hp & Hlen).
    simplify_eq. exists (S d).
    destruct r as [|e].
    + by apply chain_at_settle.
    + apply (chain_at_settle d (catch e st) j).
      * unfold catch. case_match; [apply chain_at_emit|]; done.
      * unfold catch. by case_match.
  - destruct (find_job p Building (inflight st)) as [j|]; simplify_eq.
    exists d. by apply chain_at_bundlers.
  - destruct (microtasks st) as [|r rest] eqn:Hms; simplify_eq.
    exists d. by apply chain_at_run_reaction.
Qed.

Lemma chain_inv_init bundles : chain_inv (init bundles).
Proof.
  exists 0. constructor; simpl; try done; try lia.
  all: intros p Hp; try lia.
  all: by replace p with 0 by lia.
Qed.

Lemma chain_inv_run evs st st' :
  chain_inv st → run realpathSync evs st = Some st' → chain_inv st'.
Proof.
  revert st. induction evs as [|ev evs IH]; intros st H Hrun; simpl in Hrun.
  - by simplify_eq.
  - destruct (step realpathSync ev st) as [st1|] eqn:Hstep; [|done].
    simpl in Hrun. eapply IH; [|done]. by eapply chain_inv_step.
Qed.

Lemma chain_inv_one_inflight st : chain_inv st → length (inflight st) ≤ 1.
Proof.
  intros [d [_ _ _ _ Hhead]]. unfold active in Hhead.
  assert (Hlen : length ((job_promise <$> inflight st) ++ omap job_target (microtasks st)) ≤ 1).
  { rewrite Hhead. case_decide; simpl; lia. }
  rewrite length_app, length_fmap in Hlen. lia.
Qed.

(** *** Registered reactions are never lost *)

Lemma concat_reactions_insert (h : list pstate) q c c' :
  h !! q = Some c →
  concat (reactions_of <$> <[q := c']> h) ++ reactions_of c
  ≡ₚ concat (reactions_of <$> h) ++ reactions_of c'.
Proof.
  intros Hq. rewrite insert_take_drop by (by eapply lookup_lt_Some).
  rewrite <- (take_drop_middle h q c Hq) at 3.
  rewrite !fmap_app, !fmap_cons, !concat_app. simpl.
  solve_Permutation.
Qed.

Lemma waiting_subscribe q r st :
  is_Some (heap st !! q) → waiting (subscribe q r st) ≡ₚ waiting st ++ [r].
Proof.
  intros [c Hq]. unfold subscribe, waiting. rewrite Hq.
  destruct c as [rs|]; simpl.
  - pose proof (concat_reactions_insert (heap st) q (Pending rs) (Pending (rs ++ [r])) Hq) as HP.
    simpl in HP. rewrite <- !app_assoc.
    apply Permutation_app_head.
    apply (Permutation_app_inv_r rs). rewrite HP. solve_Permutation.
  - solve_Permutation.
Qed.


Lemma waiting_enqueue bundle inv st :
  promise st < length (heap st) →
  waiting (enqueue bundle inv st)
  ≡ₚ waiting st ++ [RJob bundle inv (length (heap st)); RReBuild bundle].
Proof.
  intros Hq. unfold enqueue.
  rewrite waiting_subscribe.
  2:{ unfold subscribe. simpl. rewrite lookup_app_l by lia.
      apply lookup_lt_is_Some. repeat case_match; simpl;
        rewrite ?length_insert, length_app; simpl; lia. }
  assert (Hw : ∀ p st', waiting (set_promise p st') = waiting st') by done.
  rewrite Hw. rewrite waiting_subscribe.
  2:{ simpl. apply lookup_lt_is_Some. rewrite length_app. simpl. lia. }
  unfold waiting. simpl. rewrite fmap_app, concat_app. simpl.
  rewrite !app_nil_r. by rewrite <- !app_assoc.
Qed.

Lemma length_heap_subscribe q r st :
  length (heap (subscribe q r st)) = length (heap st).
Proof. unfold subscribe. repeat case_match; simpl; by rewrite ?length_insert. Qed.

Lemma length_heap_enqueue bundle inv st :
  length (heap (enqueue bundle inv st)) = S (length (heap st)).
Proof.
  unfold enqueue. rewrite length_heap_subscribe. simpl.
  rewrite length_heap_subscribe. simpl. rewrite length_app. simpl. lia.
Qed.

Lemma promise_subscribe q r st : promise (subscribe q r st) = promise st.
Proof. unfold subscribe. by repeat case_match. Qed.

Lemma promise_enqueue bundle inv st :
  promise (enqueue bundle inv st) = length (heap st).
Proof. unfold enqueue. by rewrite promise_subscribe. Qed.

Lemma scheduled_perm st st' rs :
  waiting st' ≡ₚ waiting st ++ rs →
  scheduled st' ≡ₚ scheduled st ++ filter (λ r, is_job r) rs.
Proof. intros H. unfold scheduled. by rewrite H, filter_app. Qed.

(** [reBuild(bundle, files)] with a non-empty [files] always schedules a
    job, whatever the status object says. *)
Lemma reBuild_files bundle files st :
  files ≠ [] →
  reBuild bundle (Some files) st =
    enqueue bundle files
      (set_statuses (<[bundle := mkStatus (Some []) true]>)
         (set_statuses (<[bundle := mkStatus (Some files)
              (running (default (mkStatus None false) (statuses st !! bundle)))]>) st)).
Proof.
  intros Hne. unfold reBuild. simpl. rewrite andb_false_r.
  rewrite bool_decide_eq_false_2; [done|]. by destruct files.
Qed.

Lemma foldl_reBuild_schedules files bundles st :
  files ≠ [] → promise st < length (heap st) →
  let st' := foldl (λ st bundle, reBuild (bundle_id bundle) (Some files) st) st bundles in
  scheduled st' ≡ₚ scheduled st ++ new_jobs files (length (heap st)) bundles
  ∧ length (heap st') = length (heap st) + length bundles
  ∧ promise st' < length (heap st').
Proof.
  intros Hne. revert st. induction bundles as [|bundle bundles IH]; intros st Hq; simpl.
  - unfold new_jobs. simpl. rewrite app_nil_r. split; [done|]. split; [lia|done].
  - set (st1 := reBuild (bundle_id bundle) (Some files) st).
    assert (Hst1 : st1 = enqueue (bundle_id bundle) files
      (set_statuses (<[bundle_id bundle := mkStatus (Some []) true]>)
         (set_statuses (<[bundle_id bundle := mkStatus (Some files)
              (running (default (mkStatus None false) (statuses st !! bundle_id bundle)))]>) st)))
      by (by apply reBuild_files).
    assert (Hlen1 : length (heap st1) = S (length (heap st))).
    { rewrite Hst1, length_heap_enqueue. done. }
    assert (Hp1 : promise st1 < length (heap st1)).
    { rewrite Hlen1, Hst1, promise_enqueue. simpl. lia. }
    assert (Hs1 : scheduled st1 ≡ₚ scheduled st
                    ++ [RJob (bundle_id bundle) files (length (heap st))]).
    { rewrite Hst1.
      rewrite (scheduled_perm st _ [RJob (bundle_id bundle) files (length (heap st));
                                   RReBuild (bundle_id bundle)]).
      - done.
      - rewrite waiting_enqueue by done. done. }
    destruct (IH st1 Hp1) as (Hs & Hl & Hp). split; [|split; [lia|done]].
    rewrite Hs, Hs1, Hlen1. rewrite <- app_assoc. apply Permutation_app_head.
    unfold new_jobs. simpl. rewrite Nat.add_0_r.
    apply Permutation_cons; [done|].
    erewrite imap_ext; [done|]. intros i b _. simpl. f_equal. lia.
Qed.

(** The timer callback, resumed with batch [files], schedules exactly one
    job for every bundle that [filterChangedBundles] selects, each with the
    whole batch as invalidation list, and nothing else. *)
Lemma flush_schedules files changed st :
  files ≠ [] → promise st < length (heap st) →
  filterChangedBundles realpathSync (bundlers st) files = Some changed →
  scheduled (flush realpathSync files st)
  ≡ₚ scheduled st ++ new_jobs files (length (heap st)) changed
  ∧ length (heap (flush realpathSync files st)) = length (heap st) + length changed.
Proof.
  intros Hne Hq Hc. unfold flush. rewrite Hc.
  case_bool_decide as Hlen.
  - destruct changed; [|done]. unfold new_jobs. simpl. rewrite app_nil_r.
    split; [done|lia].
  - destruct (foldl_reBuild_schedules files changed (emit Newline st) Hne Hq)
      as (Hs & Hl & _).
    split; done.
Qed.

(** *** The status objects *)




















(** *** Changes that no bundle tracks *)

Lemma quiet_step bundles ev st st' :
  Forall files_set bundles →
  Forall (untracked realpathSync bundles) (change_files [ev]) →
  quiet realpathSync bundles st → step realpathSync ev st = Some st' → quiet realpathSync bundles st'.
Proof.
  intros Hset Hev (Hb & Hin & Hh & Hp & Hc & Hm & He) Hstep.
  destruct ev as [t ty file|t|p r files|p r|p files|]; simpl in Hstep.
  - destruct (microtasks st) eqn:Hms; simplify_eq.
    simpl in Hev. rewrite Forall_singleton in Hev.
    unfold on_change. destruct (bool_decide (ty = "unlink"));
      (split_and!; simpl; try done;
       [ apply Forall_app; (split; [done|]); by repeat constructor
       | by rewrite Hms
       | apply Forall_app; (split; [done|]); by repeat constructor ]).
  - destruct (microtasks st) eqn:Hms; [|done]. destruct (timeout st); [|done].
    case_bool_decide; simplify_eq. unfold on_timeout, subscribe. simpl.
    rewrite Hp, Hh. simpl. split_and!; simpl; try done.
    rewrite Hms. simpl. constructor; [eauto|constructor].
  - rewrite Hin in Hstep. done.
  - rewrite Hin in Hstep. done.
  - rewrite Hin in Hstep. done.
  - destruct (microtasks st) as [|r rest] eqn:Hms; simplify_eq.
    apply Forall_cons in Hm as [(files & -> & Hfiles) Hrest].
    simpl. unfold flush. simpl.
    destruct (filterChangedBundles realpathSync (bundlers st) files) as [changed|] eqn:Hch.
    + apply untracked_selects_nothing in Hch; [|done|done]. subst changed. simpl.
      split_and!; done.
    + split_and!; simpl; try done. apply Forall_app. split; [done|].
      by repeat constructor.
Qed.

Lemma quiet_run bundles evs st st' :
  Forall files_set bundles →
  Forall (untracked realpathSync bundles) (change_files evs) →
  quiet realpathSync bundles st → run realpathSync evs st = Some st' → quiet realpathSync bundles st'.
Proof.
  intros Hset. revert st. induction evs as [|ev evs IH]; intros st Hev Hq Hrun; simpl in Hrun.
  - by simplify_eq.
  - destruct (step realpathSync ev st) as [st1|] eqn:Hstep; [|done]. simpl in Hrun.
    change (ev :: evs) with ([ev] ++ evs) in Hev. unfold change_files in Hev.
    rewrite omap_app in Hev. apply Forall_app in Hev as [Hev1 Hev2].
    eapply IH; [done| |done]. by eapply quiet_step.
Qed.

(** C3, as amended: when every bundle's [files] list is populated and the
    resolved path of every changed file lies outside all of them, no
    [build()] is ever called, nothing is scheduled or in flight, and the
    [ignore] predicate never reports such a file as interesting. *)
Theorem untracked_changes_never_build bundles evs st :
  Forall files_set bundles →
  Forall (untracked realpathSync bundles) (change_files evs) →
  run realpathSync evs (init bundles) = Some st →
  Forall (λ e, is_build e = false) (effects st)
  ∧ inflight st = [] ∧ scheduled st = []
  ∧ Forall (λ file, ignore realpathSync bundles file ≠ Some false) (change_files evs).
Proof.
  intros Hset Hev Hrun.
  assert (Hq : quiet realpathSync bundles (init bundles)) by (split_and!; simpl; done).
  destruct (quiet_run _ _ _ _ Hset Hev Hq Hrun) as (Hb & Hin & Hh & Hp & Hc & Hm & He).
  split; [done|]. split; [done|]. split.
  - unfold scheduled, waiting. rewrite Hh. simpl. rewrite app_nil_r.
    induction Hm as [|r rs (files & -> & _) _ IH]; [done|].
    by rewrite filter_cons_False by (intros H; done).
  - rewrite Forall_forall in Hev |- *. intros file Hf.
    apply untracked_ignored; [done|]. by apply Hev.
Qed.

End ChainFacts.

(** ** Steps of the closure *)

Section StepFacts.

Variable realpathSync : string -> option string.



Lemma elem_of_concat {A} (x : A) (ls : list (list A)) :
  x ∈ concat ls ↔ ∃ l, x ∈ l ∧ l ∈ ls.
Proof.
  rewrite list_elem_of_In, in_concat. split.
  - intros (l & Hl & Hx). exists l. by rewrite !list_elem_of_In.
  - intros (l & Hx & Hl). exists l. by rewrite <- !list_elem_of_In.
Qed.

Lemma elem_scheduled_target d st r :
  chain_at d st → r ∈ scheduled st →
  ∃ p, job_target r = Some p ∧ (S d < p ∨ inflight st = []).
Proof.
  intros H Hin. unfold scheduled in Hin.
  apply list_elem_of_filter in Hin as [Hjob Hin].
  destruct r as [b inv p| |]; try done. exists p. split; [done|].
  unfold waiting in Hin. apply elem_of_app in Hin as [Hin|Hin].
  - right. destruct H as [_ _ _ _ Hhead]. unfold active in Hhead.
    assert (Hp : p ∈ omap job_target (microtasks st)).
    { apply list_elem_of_omap. eauto. }
    destruct (inflight st) as [|j js]; [done|]. exfalso.
    simpl in Hhead. case_decide; [|done]. injection Hhead as _ Hrest.
    apply app_eq_nil in Hrest as [_ Hrest]. rewrite Hrest in Hp.
    by apply elem_of_nil in Hp.
  - left. apply elem_of_concat in Hin as (rs & Hrs & Hc).
    apply list_elem_of_fmap in Hc as (c & -> & Hc).
    apply list_elem_of_lookup in Hc as [q Hq].
    destruct c as [rs|]; [|by apply elem_of_nil in Hrs]. simpl in Hrs.
    destruct (decide (q ≤ d)) as [Hle|Hgt].
    + destruct H as [_ _ Hdone _ _]. rewrite (Hdone q Hle) in Hq. done.
    + destruct H as [_ _ _ Htodo _].
      destruct (Htodo q ltac:(lia) ltac:(by eapply lookup_lt_Some)) as (rs' & Hrs' & Hj).
      simplify_eq.
      assert (Hp : p ∈ omap job_target rs) by (apply list_elem_of_omap; eauto).
      rewrite Hj in Hp. case_decide; [|by apply elem_of_nil in Hp].
      apply list_elem_of_singleton in Hp. lia.
Qed.






(** *** Debouncing *)






End StepFacts.

(** ** Jobs and the promises they settle *)

Section OwnerFacts.

Variable realpathSync : string -> option string.





















Lemma elem_new_jobs files first changed bundle :
  bundle ∈ changed → ∃ p, RJob (bundle_id bundle) files p ∈ new_jobs files first changed.
Proof.
  intros [i Hi]%list_elem_of_lookup. exists (first + i).
  apply list_elem_of_lookup. exists i. unfold new_jobs.
  by rewrite list_lookup_imap, Hi.
Qed.

(** A batch that selects a bundle schedules a rebuild of it. *)
Lemma flush_schedules_selected files changed bundle st :
  files ≠ [] → promise st < length (heap st) →
  filterChangedBundles realpathSync (bundlers st) files = Some changed →
  bundle ∈ changed →
  ∃ p, RJob (bundle_id bundle) files p ∈ scheduled (run_reaction realpathSync (RFlush files) st).
Proof.
  intros Hne Hq Hc Hb. simpl.
  destruct (flush_schedules realpathSync files changed st Hne Hq Hc) as [Hs _].
  destruct (elem_new_jobs files (length (heap st)) changed bundle Hb) as [p Hp].
  exists p. rewrite Hs. apply elem_of_app. by right.
Qed.


End OwnerFacts.

(** ** Nothing that waits is dropped, and scheduled jobs start *)

Section ProgressFacts.

Variable realpathSync : string -> option string.









(** *** Microtasks run in order *)











(** *** Scheduled jobs start *)



Lemma chain_at_tick d st st' :
  chain_at d st → step realpathSync Tick st = Some st' → chain_at d st'.
Proof.
  intros H Hstep. simpl in Hstep.
  destruct (microtasks st) as [|r rest] eqn:Hms; simplify_eq.
  by apply chain_at_run_reaction.
Qed.








End ProgressFacts.

(** ** A batch resumes *)

Section BatchFacts.

Variable realpathSync : string -> option string.





End BatchFacts.

(** ** The initial builds and the start of the watcher *)

Lemma top_run_failed realpathSync watch evs s :
  top_run realpathSync watch evs Failed = Some s → s = Failed.
Proof.
  induction evs as [|ev evs IH]; simpl; [congruence|].
  destruct ev; simpl; try done; try apply IH.
Qed.

Lemma top_run_finished realpathSync watch evs bundles st :
  top_run realpathSync watch evs (Finished bundles) = Some (Watching st) → False.
Proof.
  induction evs as [|ev evs IH]; simpl; [congruence|].
  destruct ev; simpl; try done; try apply IH.
Qed.

Section ActionFacts.

Variable realpathSync : string -> option string.

Lemma ids_set_files b files bundles :
  bundle_id <$> set_files b files bundles = bundle_id <$> bundles.
Proof.
  unfold set_files. rewrite <- list_fmap_compose. apply list_fmap_ext.
  intros i bundle _. simpl. by case_decide.
Qed.

Lemma bundlers_subscribe q r st : bundlers (subscribe q r st) = bundlers st.
Proof. unfold subscribe. by repeat case_match. Qed.

Lemma bundlers_settle p st : bundlers (settle p st) = bundlers st.
Proof. unfold settle. by repeat case_match. Qed.

Lemma bundlers_enqueue bundle inv st : bundlers (enqueue bundle inv st) = bundlers st.
Proof. unfold enqueue. rewrite bundlers_subscribe. simpl. by rewrite bundlers_subscribe. Qed.

Lemma bundlers_reBuild bundle files st : bundlers (reBuild bundle files st) = bundlers st.
Proof. unfold reBuild. repeat case_match; try done; by rewrite bundlers_enqueue. Qed.

Lemma bundlers_foldl_reBuild files bundles st :
  bundlers (foldl (λ st bundle, reBuild (bundle_id bundle) (Some files) st) st bundles)
  = bundlers st.
Proof.
  revert st. induction bundles as [|bundle bundles IH]; intros st; simpl; [done|].
  by rewrite IH, bundlers_reBuild.
Qed.

Lemma bundlers_flush files st : bundlers (flush realpathSync files st) = bundlers st.
Proof.
  unfold flush. repeat case_match; try done. by rewrite bundlers_foldl_reBuild.
Qed.

Lemma ids_step ev st st' :
  step realpathSync ev st = Some st' →
  bundle_id <$> bundlers st' = bundle_id <$> bundlers st.
Proof.
  intros Hstep. destruct ev as [t ty file|t|p r files|p r|p files|]; simpl in Hstep.
  - destruct (microtasks st); simplify_eq. unfold on_change. by case_bool_decide.
  - destruct (microtasks st); [|done]. destruct (timeout st); [|done].
    case_bool_decide; simplify_eq. unfold on_timeout. by rewrite bundlers_subscribe.
  - destruct (find_job p Building (inflight st)) as [j|]; [|done].
    destruct r as [|e]; simplify_eq; simpl.
    + apply ids_set_files.
    + rewrite bundlers_settle. unfold catch. case_match; apply ids_set_files.
  - destruct (find_job p Writing (inflight st)) as [j|]; [|done].
    simplify_eq. rewrite bundlers_settle. destruct r as [|e]; [done|].
    unfold catch. by case_match.
  - destruct (find_job p Building (inflight st)) as [j|]; simplify_eq.
    apply ids_set_files.
  - destruct (microtasks st) as [|r rest]; simplify_eq.
    destruct r as [bundle inv p|bundle|files]; simpl.
    + done.
    + by rewrite bundlers_reBuild.
    + by rewrite bundlers_flush.
Qed.

Lemma watching_run (watch : bool) evs st st' :
  top_run realpathSync watch evs (Watching st) = Some (Watching st') →
  Forall (λ ev, ¬ is_init_event ev) evs
  ∧ bundle_id <$> bundlers st' = bundle_id <$> bundlers st.
Proof.
  revert st. induction evs as [|ev evs IH]; intros st; simpl.
  - intros [= ->]. done.
  - destruct ev as [b r files|t ty file|ev]; simpl; [done| |].
    + unfold watch_dispatch.
      destruct (microtasks st) eqn:Hms; [|done].
      destruct (ignore realpathSync (bundlers st) file) as [[|]|]; simpl.
      * intros H. destruct (IH _ H). split; [constructor; [tauto|done]|done].
      * rewrite Hms. simpl. intros H. destruct (IH _ H) as [? Hids].
        split; [constructor; [tauto|done]|].
        rewrite Hids. unfold on_change. by case_bool_decide.
      * intros H. destruct (IH _ H). split; [constructor; [tauto|done]|done].
    + destruct ev as [t ty file|t|p r files|p r|p files|]; [done| | | | |];
        (match goal with
         | |- context [step realpathSync ?e st] =>
             destruct (step realpathSync e st) as [st1|] eqn:Hstep; [|done]
         end;
         simpl; intros H; destruct (IH _ H) as [? Hids];
         split; [constructor; [tauto|done]|];
         rewrite Hids; by eapply ids_step).
Qed.

Lemma initial_run (watch : bool) evs pending bundles st :
  top_run realpathSync watch evs (Initial pending bundles) = Some (Watching st) →
  watch = true
  ∧ (∀ b, b ∈ pending →
       ∃ pre files post pending' bundles',
         evs = pre ++ InitSettled b Resolved files :: post
         ∧ top_run realpathSync watch pre (Initial pending bundles)
           = Some (Initial pending' bundles')
         ∧ b ∈ pending')
  ∧ Forall (λ ev, ∀ b e files, ev ≠ InitSettled b (Rejected e) files) evs
  ∧ bundle_id <$> bundlers st = bundle_id <$> bundles.
Proof.
  revert pending bundles. induction evs as [|ev evs IH]; intros pending bundles; simpl; [done|].
  destruct ev as [b r files|t ty file|ev]; simpl; [| |done].
  - unfold init_settled. case_bool_decide as Hb; [|done].
    destruct r as [|e]; simpl; [|by intros ?%top_run_failed].
    destruct (filter (λ b', b' ≠ b) pending) as [|b0 rest] eqn:Hfilter.
    + unfold after_initial. destruct watch eqn:Hw; [|by intros ?%top_run_finished].
      intros H. destruct (watching_run _ _ _ _ H) as [Hno Hids].
      split; [done|]. split; [|split].
      * intros b' Hb'. destruct (decide (b' = b)) as [->|Hne].
        -- exists [], files, evs, pending, bundles. done.
        -- exfalso. assert (Hin : b' ∈ filter (λ b', b' ≠ b) pending)
             by (by apply list_elem_of_filter).
           rewrite Hfilter in Hin. by apply elem_of_nil in Hin.
      * constructor; [done|]. eapply Forall_impl; [exact Hno|].
        intros ev Hev b' e files' ->. by apply Hev.
      * rewrite Hids. simpl. apply ids_set_files.
    + intros H. destruct (IH _ _ H) as (Hw & Hall & Hno & Hids).
      split; [done|]. split; [|split].
      * intros b' Hb'. destruct (decide (b' = b)) as [->|Hne].
        -- exists [], files, evs, pending, bundles. done.
        -- destruct (Hall b') as (pre & files' & post & pending' & bundles' & -> & Hpre & Hin).
           { rewrite <- Hfilter. by apply list_elem_of_filter. }
           exists (InitSettled b Resolved files :: pre), files', post, pending', bundles'.
           split; [done|]. split; [|done]. simpl. unfold init_settled.
           rewrite bool_decide_eq_true_2 by done. simpl. by rewrite Hfilter.
      * constructor; done.
      * rewrite Hids. apply ids_set_files.
  - intros H. destruct (IH _ _ H) as (Hw & Hall & Hno & Hids).
    split; [done|]. split; [|split; [by constructor|done]].
    intros b Hb. destruct (Hall b Hb) as (pre & files' & post & pending' & bundles' & -> & Hpre & Hin).
    exists (FsEvent t ty file :: pre), files', post, pending', bundles'. done.
Qed.

(** C7: the watch closure exists only after [toPromise()] of every bundler
    has fulfilled.  In a run that reaches the watching phase, [watch] was
    requested, every bundler's initial pipeline resolved while the action
    was still waiting for the initial builds (file-system events have no
    effect then), no initial pipeline rejected, and every bundler is in
    [bundlers] when the watcher starts acting. *)
Theorem watcher_starts_after_initial_builds (watch : bool) bundles evs st :
  top_run realpathSync watch evs (start watch bundles) = Some (Watching st) →
  watch = true
  ∧ (∀ bundle, bundle ∈ bundles →
       ∃ pre files post pending' bundles',
         evs = pre ++ InitSettled (bundle_id bundle) Resolved files :: post
         ∧ top_run realpathSync watch pre (start watch bundles)
           = Some (Initial pending' bundles'))
  ∧ Forall (λ ev, ∀ b e files, ev ≠ InitSettled b (Rejected e) files) evs
  ∧ bundle_id <$> bundlers st = bundle_id <$> bundles.
Proof.
  unfold start. destruct bundles as [|bundle0 bundles0].
  - unfold after_initial. destruct watch eqn:Hw; [|by intros ?%top_run_finished].
    intros H. destruct (watching_run _ _ _ _ H) as [Hno Hids].
    split; [done|]. split; [by intros ? ?%elem_of_nil|]. split; [|done].
    eapply Forall_impl; [exact Hno|]. intros ev Hev b' e files' ->. by apply Hev.
  - intros H. destruct (initial_run _ _ _ _ _ H) as (Hw & Hall & Hno & Hids).
    split; [done|]. split; [|done].
    intros bundle Hb.
    destruct (Hall (bundle_id bundle)) as (pre & files & post & pending' & bundles' & ? & ? & ?).
    { apply list_elem_of_fmap. eauto. }
    eauto 10.
Qed.

End ActionFacts.

(** ** Serialisation, batches, debouncing and failing cycles *)

Section SchedulerClaims.

Variable realpathSync : string -> option string.

(** C1, as amended: all rebuild cycles go through one promise chain.  In
    every state the closure can reach at most one [build()+write()]
    sequence is in flight, over all bundles; the next job starts only
    when none is in flight; and every job that is scheduled while one is
    in flight is chained strictly behind it. *)
Theorem rebuilds_are_serialised bundles evs st :
  run realpathSync evs (init bundles) = Some st →
  length (inflight st) ≤ 1
  ∧ (∀ bundle inv p rest, microtasks st = RJob bundle inv p :: rest → inflight st = [])
  ∧ (∀ j r, j ∈ inflight st → r ∈ scheduled st →
       ∃ q, job_target r = Some q ∧ job_promise j < q).
Proof.
  intros Hrun.
  pose proof (chain_inv_run realpathSync _ _ _ (chain_inv_init bundles) Hrun) as Hinv.
  split; [by apply chain_inv_one_inflight|]. destruct Hinv as [d H]. split.
  - intros bundle inv p rest Hms.
    by destruct (chain_head_microtask _ _ _ _ _ _ H Hms) as (? & _).
  - intros j r Hj Hr.
    destruct (chain_head_inflight _ _ _ H Hj) as (_ & _ & Hp & _).
    destruct (elem_scheduled_target _ _ _ H Hr) as (q & Hq & [Hlt|Hnil]).
    + exists q. split; [done|]. lia.
    + rewrite Hnil in Hj. by apply elem_of_nil in Hj.
Qed.




End SchedulerClaims.

(** ** The scenarios *)

Lemma run_trace_AB :
  run realpath_plain trace_AB (init [bundle_A; bundle_B]) = Some state_AB.
Proof. vm_compute. reflexivity. Qed.


(** C1 fails as stated: after one save of a file that [A] and [B] both
    track, the rebuild of [A] is in flight and the job of [B] is registered
    on the promise of [A]'s cycle. *)
Lemma rebuild_of_B_waits_for_A : ¬ independent_pipelines realpath_plain.
Proof.
  intros H.
  apply (H [bundle_A; bundle_B] trace_AB state_AB 0 1 run_trace_AB); [done|].
  exists (mkJob 0 1 Building), [RReBuild 0; RJob 1 [util_js] 2], [util_js], 2.
  split_and!; [apply list_elem_of_here | done | done |].
  apply list_elem_of_further, list_elem_of_here.
Qed.

Lemma rebuilds_are_serialised_witness :
  length (inflight state_AB) = 1
  ∧ length (inflight state_AB) ≤ 1
  ∧ (∀ j r, j ∈ inflight state_AB → r ∈ scheduled state_AB →
       ∃ q, job_target r = Some q ∧ job_promise j < q).
Proof.
  split; [reflexivity|].
  destruct (rebuilds_are_serialised realpath_plain [bundle_A; bundle_B] trace_AB state_AB)
    as (H1 & _ & H3).
  - vm_compute. reflexivity.
  - split; [exact H1 | exact H3].
Defined.





(** C3 fails as stated, in two ways: a change reported under a linked path
    lies outside the [files] list of the bundle and still starts its rebuild,
    because the filter compares resolved paths; and a bundler whose [files]
    is unset is rebuilt on a change of any path. *)
Lemma outside_path_triggers_build :
  ¬ outside_paths_law realpath_linked ∧ ¬ outside_paths_law realpath_plain.
Proof.
  split; intros H.
  - specialize (H [bundle_lib] trace_linked).
    destruct (run realpath_linked trace_linked (init [bundle_lib])) as [st|] eqn:Hrun;
      [|by vm_compute in Hrun].
    specialize (H st). vm_compute in Hrun. injection Hrun as <-.
    assert (Hno : Forall (λ e, is_build e = false)
                    [InfoChanged linked_js; Newline; CallBuild 0 [linked_js]]).
    { apply H; [|done]. repeat constructor.
      intros bundle bfiles ->%list_elem_of_singleton [= <-] Hin.
      apply list_elem_of_singleton in Hin. discriminate Hin. }
    by repeat (apply Forall_cons in Hno as [? Hno]).
  - specialize (H [bundle_unset] trace_readme).
    destruct (run realpath_plain trace_readme (init [bundle_unset])) as [st|] eqn:Hrun;
      [|by vm_compute in Hrun].
    specialize (H st). vm_compute in Hrun. injection Hrun as <-.
    assert (Hno : Forall (λ e, is_build e = false)
                    [InfoChanged readme; Newline; CallBuild 0 [readme]]).
    { apply H; [|done]. repeat constructor.
      intros bundle bfiles ->%list_elem_of_singleton [=]. }
    by repeat (apply Forall_cons in Hno as [? Hno]).
Qed.

Lemma readme_untracked :
  Forall (untracked realpath_plain [bundle_A; bundle_B]) (change_files trace_readme_quiet).
Proof.
  repeat constructor. intros bundle Hin (bfiles & real & Hb & Hr & Hreal).
  injection Hr as <-.
  apply elem_of_cons in Hin as [->|Hin].
  - injection Hb as <-. revert Hreal.
    apply (proj1 (bool_decide_eq_false ("/project/README.md" ∈ _))). by vm_compute.
  - apply list_elem_of_singleton in Hin as ->.
    injection Hb as <-. revert Hreal.
    apply (proj1 (bool_decide_eq_false ("/project/README.md" ∈ _))). by vm_compute.
Qed.

Lemma untracked_changes_never_build_witness :
  ∃ st, run realpath_plain trace_readme_quiet (init [bundle_A; bundle_B]) = Some st
        ∧ Forall (λ e, is_build e = false) (effects st)
        ∧ inflight st = [] ∧ scheduled st = [].
Proof.
  destruct (run realpath_plain trace_readme_quiet (init [bundle_A; bundle_B]))
    as [st|] eqn:Hrun; [|by vm_compute in Hrun].
  exists st. split; [reflexivity|].
  destruct (untracked_changes_never_build realpath_plain [bundle_A; bundle_B]
              trace_readme_quiet st) as (H1 & H2 & H3 & _).
  - repeat constructor; by eexists.
  - exact readme_untracked.
  - exact Hrun.
  - split_and!; done.
Defined.





Lemma run_trace_action :
  top_run realpath_plain true trace_action (start true [mkBundle 0 None; mkBundle 1 None])
  = Some (Watching state_action).
Proof. vm_compute. reflexivity. Qed.

Lemma watcher_starts_after_initial_builds_witness :
  (∀ bundle, bundle ∈ [mkBundle 0 None; mkBundle 1 None] →
     ∃ pre files post pending' bundles',
       trace_action = pre ++ InitSettled (bundle_id bundle) Resolved files :: post
       ∧ top_run realpath_plain true pre (start true [mkBundle 0 None; mkBundle 1 None])
         = Some (Initial pending' bundles'))
  ∧ bundle_id <$> bundlers state_action = [0; 1]
  ∧ builds_of 0 (effects state_action) = [[util_js]].
Proof.
  destruct (watcher_starts_after_initial_builds realpath_plain true
              [mkBundle 0 None; mkBundle 1 None] trace_action state_action)
    as (_ & H1 & _ & H2).
  - vm_compute. reflexivity.
  - split; [exact H1|]. split; [exact H2|reflexivity].
Defined.



Lemma setup_validates_witness :
  let input := mkEntry ClassFile "/project/src/manifest.json" in
  let output := mkEntry ClassDirectory "/project/public" in
  (setup "WebManifestBundler" path_extname_none path_basename_id path_resolve_join
         super_setup_store (mkOptions (Some input) (Some output)) ∅).1 = Returned.
Proof.
  intros input output.
  apply (proj2 (proj2 (setup_validates "WebManifestBundler" path_extname_none
                         path_basename_id path_resolve_join super_setup_store
                         (mkOptions (Some input) (Some output)) ∅))
           input output (<["input" := input]> (<["output" := output]> ∅))).
  - reflexivity.
  - reflexivity.
  - reflexivity.
  - right. reflexivity.
Defined.



(** ** The manifest written by [WebManifestBundler.build] *)

Section ManifestFacts.

Implicit Types (o : ManifestOptions) (manifest result : gmap string jsval).

Lemma js_or_truthy_l a b : jsval_truthy a = true → js_or a b = a.
Proof. unfold js_or. by intros ->. Qed.

Lemma prop_insert_eq manifest k v : prop (<[k := v]> manifest) k = v.
Proof. unfold prop. by rewrite lookup_insert_eq. Qed.

Lemma prop_insert_ne manifest k k' v :
k ≠ k' → prop (<[k := v]> manifest) k' = prop manifest k'.
Proof. intros. unfold prop. by rewrite lookup_insert_ne. Qed.

Lemma lookup_sweep manifest k :
manifest_sweep manifest !! k
= match manifest !! k with
  | Some v => if jsval_truthy v then Some v else None
  | None => None
  end.
Proof.
unfold manifest_sweep. destruct (manifest !! k) as [v|] eqn:Hk.
- destruct (jsval_truthy v) eqn:Hv.
  + by apply map_lookup_filter_Some.
  + apply map_lookup_filter_None. right. intros v' Hv'. simpl.
    rewrite Hk in Hv'. injection Hv' as <-. by rewrite Hv.
- apply map_lookup_filter_None. by left.
Qed.

(** The assignments, one map after the other. *)
Lemma manifest_defaults_stages o manifest :
∃ m1 m2 m3 m4 m5 m6 m7 m8 m9,
  m1 = <["name" := js_or (js_or (prop manifest "name") (mo_name o))
                         (mo_project_name o)]> manifest
  ∧ m2 = <["short_name" := js_or (prop m1 "short_name") (prop m1 "name")]> m1
  ∧ m3 = <["description" := js_or (js_or (prop m2 "description") (mo_description o))
                                  (mo_project_description o)]> m2
  ∧ m4 = <["start_url" := js_or (prop m3 "start_url") (VStr "/")]> m3
  ∧ m5 = <["scope" := js_or (js_or (prop m4 "scope") (mo_scope o)) (VStr "/")]> m4
  ∧ m6 = <["display" := js_or (prop m5 "display") (VStr "standalone")]> m5
  ∧ m7 = <["orientation" := js_or (prop m6 "orientation") (VStr "any")]> m6
  ∧ m8 = <["theme_color" := js_or (prop m7 "theme_color") (mo_theme o)]> m7
  ∧ m9 = <["background_color" := js_or (prop m8 "background_color") (VStr "#fff")]> m8
  ∧ manifest_defaults o manifest
    = <["lang" := js_or (js_or (prop m9 "lang") (mo_lang o)) (VStr "en-US")]> m9.
Proof. do 9 eexists. repeat (split; [reflexivity|]). reflexivity. Qed.

Lemma lookup_defaults o manifest k :
manifest_defaults o manifest !! k
= match assigned o manifest k with
  | Some v => Some v
  | None => manifest !! k
  end.
Proof.
destruct (manifest_defaults_stages o manifest)
  as (m1 & m2 & m3 & m4 & m5 & m6 & m7 & m8 & m9
      & H1 & H2 & H3 & H4 & H5 & H6 & H7 & H8 & H9 & ->).
assert (P1 : ∀ k', k' ≠ "name" → prop m1 k' = prop manifest k')
  by (intros; rewrite H1; by apply prop_insert_ne).
assert (P2 : ∀ k', k' ≠ "name" → k' ≠ "short_name" → prop m2 k' = prop manifest k')
  by (intros; rewrite H2, prop_insert_ne by done; by apply P1).
assert (P3 : ∀ k', k' ≠ "name" → k' ≠ "short_name" → k' ≠ "description" →
                   prop m3 k' = prop manifest k')
  by (intros; rewrite H3, prop_insert_ne by done; by apply P2).
assert (P4 : ∀ k', k' ≠ "name" → k' ≠ "short_name" → k' ≠ "description" →
                   k' ≠ "start_url" → prop m4 k' = prop manifest k')
  by (intros; rewrite H4, prop_insert_ne by done; by apply P3).
assert (P5 : ∀ k', k' ≠ "name" → k' ≠ "short_name" → k' ≠ "description" →
                   k' ≠ "start_url" → k' ≠ "scope" → prop m5 k' = prop manifest k')
  by (intros; rewrite H5, prop_insert_ne by done; by apply P4).
assert (P6 : ∀ k', k' ≠ "name" → k' ≠ "short_name" → k' ≠ "description" →
                   k' ≠ "start_url" → k' ≠ "scope" → k' ≠ "display" →
                   prop m6 k' = prop manifest k')
  by (intros; rewrite H6, prop_insert_ne by done; by apply P5).
assert (P7 : ∀ k', k' ≠ "name" → k' ≠ "short_name" → k' ≠ "description" →
                   k' ≠ "start_url" → k' ≠ "scope" → k' ≠ "display" →
                   k' ≠ "orientation" → prop m7 k' = prop manifest k')
  by (intros; rewrite H7, prop_insert_ne by done; by apply P6).
assert (P8 : ∀ k', k' ≠ "name" → k' ≠ "short_name" → k' ≠ "description" →
                   k' ≠ "start_url" → k' ≠ "scope" → k' ≠ "display" →
                   k' ≠ "orientation" → k' ≠ "theme_color" →
                   prop m8 k' = prop manifest k')
  by (intros; rewrite H8, prop_insert_ne by done; by apply P7).
assert (P9 : ∀ k', k' ≠ "name" → k' ≠ "short_name" → k' ≠ "description" →
                   k' ≠ "start_url" → k' ≠ "scope" → k' ≠ "display" →
                   k' ≠ "orientation" → k' ≠ "theme_color" →
                   k' ≠ "background_color" → prop m9 k' = prop manifest k')
  by (intros; rewrite H9, prop_insert_ne by done; by apply P8).
assert (N1 : prop m1 "name" = js_or (js_or (prop manifest "name") (mo_name o))
                                    (mo_project_name o))
  by (rewrite H1; apply prop_insert_eq).
unfold assigned.
repeat (case_decide; [subst k|]).
- rewrite lookup_insert_ne, H9, lookup_insert_ne, H8, lookup_insert_ne, H7,
    lookup_insert_ne, H6, lookup_insert_ne, H5, lookup_insert_ne, H4,
    lookup_insert_ne, H3, lookup_insert_ne, H2, lookup_insert_ne, H1,
    lookup_insert_eq by done. done.
- rewrite lookup_insert_ne, H9, lookup_insert_ne, H8, lookup_insert_ne, H7,
    lookup_insert_ne, H6, lookup_insert_ne, H5, lookup_insert_ne, H4,
    lookup_insert_ne, H3, lookup_insert_ne, H2, lookup_insert_eq by done.
  by rewrite N1, P1.
- rewrite lookup_insert_ne, H9, lookup_insert_ne, H8, lookup_insert_ne, H7,
    lookup_insert_ne, H6, lookup_insert_ne, H5, lookup_insert_ne, H4,
    lookup_insert_ne, H3, lookup_insert_eq by done.
  by rewrite P2.
- rewrite lookup_insert_ne, H9, lookup_insert_ne, H8, lookup_insert_ne, H7,
    lookup_insert_ne, H6, lookup_insert_ne, H5, lookup_insert_ne, H4,
    lookup_insert_eq by done.
  by rewrite P3.
- rewrite lookup_insert_ne, H9, lookup_insert_ne, H8, lookup_insert_ne, H7,
    lookup_insert_ne, H6, lookup_insert_ne, H5, lookup_insert_eq by done.
  by rewrite P4.
- rewrite lookup_insert_ne, H9, lookup_insert_ne, H8, lookup_insert_ne, H7,
    lookup_insert_ne, H6, lookup_insert_eq by done.
  by rewrite P5.
- rewrite lookup_insert_ne, H9, lookup_insert_ne, H8, lookup_insert_ne, H7,
    lookup_insert_eq by done.
  by rewrite P6.
- rewrite lookup_insert_ne, H9, lookup_insert_ne, H8, lookup_insert_eq by done.
  by rewrite P7.
- rewrite lookup_insert_ne, H9, lookup_insert_eq by done.
  by rewrite P8.
- rewrite lookup_insert_eq. by rewrite P9.
- rewrite lookup_insert_ne, H9, lookup_insert_ne, H8, lookup_insert_ne, H7,
    lookup_insert_ne, H6, lookup_insert_ne, H5, lookup_insert_ne, H4,
    lookup_insert_ne, H3, lookup_insert_ne, H2, lookup_insert_ne, H1,
    lookup_insert_ne by done. done.
Qed.

Ltac assigned_cases := unfold assigned; repeat case_decide; simplify_eq.

Lemma lookup_icons o generated manifest result k :
manifest_icons o generated manifest = Some result → k ≠ "icons" →
result !! k = manifest !! k.
Proof.
unfold manifest_icons. intros H Hk. case_match.
- destruct generated as [icons|]; simplify_eq/=. by rewrite lookup_insert_ne.
- by simplify_eq.
Qed.

Lemma lookup_icons_icons o generated manifest result :
manifest_icons o generated manifest = Some result →
jsval_truthy (prop result "icons")
= jsval_truthy (mo_icon o) || jsval_truthy (prop manifest "icons").
Proof.
unfold manifest_icons. intros H.
destruct (jsval_truthy (mo_icon o)) eqn:Hi,
         (jsval_truthy (prop manifest "icons")) eqn:Hm;
  simpl in H; simplify_eq; try done.
destruct generated as [icons|]; simplify_eq/=. by rewrite prop_insert_eq.
Qed.

Lemma lookup_defaults_icons o manifest :
manifest_defaults o manifest !! "icons" = manifest !! "icons".
Proof. rewrite lookup_defaults. by assigned_cases. Qed.

(** The properties of the result other than [icons], from the input. *)
Lemma lookup_build o generated manifest result k :
build_manifest o generated manifest = Some result → k ≠ "icons" →
result !! k
= match assigned o manifest k with
  | Some v => if jsval_truthy v then Some v else None
  | None => manifest_sweep manifest !! k
  end.
Proof.
unfold build_manifest. intros H Hk.
destruct (manifest_icons o generated (manifest_defaults o manifest)) as [m1|] eqn:Hi;
  simplify_eq/=.
rewrite !lookup_sweep, (lookup_icons _ _ _ _ _ Hi), lookup_defaults by done.
by destruct (assigned o manifest k).
Qed.

Lemma js_or_default a s : s ≠ EmptyString → jsval_truthy (js_or a (VStr s)) = true.
Proof.
intros Hs. unfold js_or. destruct (jsval_truthy a) eqn:Ha; [done|].
simpl. by rewrite bool_decide_eq_false_2.
Qed.

(** X1: the manifest [build] writes and returns holds no falsy value, and
  [start_url], [scope], [display], [orientation], [background_color] and
  [lang] are always in it: with the value of the input manifest when that
  is truthy, else with the option ([scope], [lang]) or the built-in
  default. *)
Theorem build_manifest_truthy o generated manifest result :
build_manifest o generated manifest = Some result →
(∀ k v, result !! k = Some v → jsval_truthy v = true)
∧ result !! "start_url" = Some (js_or (prop manifest "start_url") (VStr "/"))
∧ result !! "scope" = Some (js_or (js_or (prop manifest "scope") (mo_scope o)) (VStr "/"))
∧ result !! "display" = Some (js_or (prop manifest "display") (VStr "standalone"))
∧ result !! "orientation" = Some (js_or (prop manifest "orientation") (VStr "any"))
∧ result !! "background_color"
  = Some (js_or (prop manifest "background_color") (VStr "#fff"))
∧ result !! "lang" = Some (js_or (js_or (prop manifest "lang") (mo_lang o)) (VStr "en-US")).
Proof.
intros H. split.
{ revert H. unfold build_manifest.
  destruct (manifest_icons o generated (manifest_defaults o manifest)) as [m1|];
    intros H; simplify_eq/=.
  intros k v. rewrite lookup_sweep. destruct (m1 !! k) as [w|]; [|done].
  destruct (jsval_truthy w) eqn:Hw; [|done]. by intros [= <-]. }
split_and!; rewrite (lookup_build _ _ _ _ _ H) by done; assigned_cases;
  by rewrite js_or_default.
Qed.

(** X2: [build] never replaces a truthy value of the input manifest,
  whatever its key, and outside the eleven properties it assigns the
  result is the input without its falsy entries. *)
Theorem build_manifest_keeps_input o generated manifest result :
build_manifest o generated manifest = Some result →
(∀ k v, manifest !! k = Some v → jsval_truthy v = true → result !! k = Some v)
∧ (∀ k, k ∉ manifest_keys → result !! k = manifest_sweep manifest !! k).
Proof.
intros H. split.
- intros k v Hk Hv. destruct (decide (k = "icons")) as [->|Hne].
  + revert H. unfold build_manifest, manifest_icons.
    unfold prop at 1. rewrite lookup_defaults_icons, Hk. simpl. rewrite Hv.
    rewrite andb_false_r. intros H. simplify_eq/=.
    by rewrite lookup_sweep, lookup_defaults_icons, Hk, Hv.
  + rewrite (lookup_build _ _ _ _ _ H) by done.
    unfold assigned. repeat (case_decide; [subst k|]).
    all: rewrite ?lookup_sweep; unfold prop; rewrite Hk; simpl.
    all: unfold js_or; by rewrite ?Hv.
- intros k Hk. unfold manifest_keys in Hk.
  assert (k ≠ "icons") by set_solver.
  rewrite (lookup_build _ _ _ _ _ H) by done. assigned_cases; set_solver.
Qed.

Lemma js_or_stable1 a d :
js_or (if jsval_truthy (js_or a d) then js_or a d else VUndefined) d = js_or a d.
Proof.
unfold js_or. destruct (jsval_truthy a) eqn:Ha; [by rewrite Ha, Ha|].
destruct (jsval_truthy d) eqn:Hd; [by rewrite Hd|done].
Qed.

Lemma js_or_stable2 a b c :
js_or (js_or (if jsval_truthy (js_or (js_or a b) c)
              then js_or (js_or a b) c else VUndefined) b) c
= js_or (js_or a b) c.
Proof.
unfold js_or. destruct (jsval_truthy a) eqn:Ha; [by rewrite !Ha|].
destruct (jsval_truthy b) eqn:Hb; [by rewrite !Hb|].
destruct (jsval_truthy c) eqn:Hc; [by rewrite ?Hc, ?Hb|]. simpl. by rewrite Hb.
Qed.

(** The assignments find in the result what they left there. *)
Lemma assigned_stable o manifest result :
(∀ k, k ≠ "icons" →
      result !! k = match assigned o manifest k with
                    | Some v => if jsval_truthy v then Some v else None
                    | None => manifest_sweep manifest !! k
                    end) →
∀ k, assigned o result k = assigned o manifest k.
Proof.
intros Hk k.
assert (Hp : ∀ k' v, assigned o manifest k' = Some v → k' ≠ "icons" →
                     prop result k' = if jsval_truthy v then v else VUndefined).
{ intros k' v Hv Hne. unfold prop. rewrite Hk, Hv by done. by destruct (jsval_truthy v). }
unfold assigned.
rewrite (Hp "name" _ eq_refl), (Hp "short_name" _ eq_refl),
  (Hp "description" _ eq_refl), (Hp "start_url" _ eq_refl), (Hp "scope" _ eq_refl),
  (Hp "display" _ eq_refl), (Hp "orientation" _ eq_refl),
  (Hp "theme_color" _ eq_refl), (Hp "background_color" _ eq_refl),
  (Hp "lang" _ eq_refl) by done.
cbv zeta. rewrite !js_or_stable2, !js_or_stable1. done.
Qed.

(** X3: building again from the manifest that [build] produced, with the
  same options, gives that manifest back; the icons are not generated a
  second time. *)
Theorem build_manifest_idempotent o generated generated' manifest result :
build_manifest o generated manifest = Some result →
build_manifest o generated' result = Some result.
Proof.
intros H.
assert (Hk : ∀ k, k ≠ "icons" →
                  result !! k = match assigned o manifest k with
                                | Some v => if jsval_truthy v then Some v else None
                                | None => manifest_sweep manifest !! k
                                end) by (intros; by apply (lookup_build o generated)).
assert (Ht : ∀ k v, result !! k = Some v → jsval_truthy v = true).
{ revert H. unfold build_manifest.
  destruct (manifest_icons o generated (manifest_defaults o manifest)) as [m1|];
    intros H; simplify_eq/=.
  intros k v. rewrite lookup_sweep. destruct (m1 !! k) as [w|]; [|done].
  destruct (jsval_truthy w) eqn:Hw; [|done]. by intros [= <-]. }
assert (Hsame : ∀ k, match result !! k with
                     | Some v => if jsval_truthy v then Some v else None
                     | None => None
                     end = result !! k).
{ intros k. destruct (result !! k) as [v|] eqn:Hv; [|done]. by rewrite (Ht _ _ Hv). }
assert (Hicons : jsval_truthy (mo_icon o) && negb (jsval_truthy (prop result "icons"))
                 = false).
{ revert H. unfold build_manifest.
  destruct (manifest_icons o generated (manifest_defaults o manifest)) as [m1|] eqn:Hi;
    intros H; simplify_eq/=.
  pose proof (lookup_icons_icons _ _ _ _ Hi) as Hq. unfold prop in *.
  rewrite lookup_sweep.
  destruct (m1 !! "icons") as [v|]; simpl in *.
  - destruct (jsval_truthy v) eqn:Hv; simpl.
    + rewrite Hv. by destruct (jsval_truthy (mo_icon o)).
    + symmetry in Hq. apply orb_false_iff in Hq as [-> _]. done.
  - symmetry in Hq. apply orb_false_iff in Hq as [-> _]. done. }
unfold build_manifest, manifest_icons.
unfold prop at 1. rewrite lookup_defaults_icons. fold (prop result "icons").
rewrite Hicons. simpl. f_equal.
apply map_eq. intros k. rewrite lookup_sweep, lookup_defaults.
rewrite (assigned_stable o manifest result Hk).
destruct (decide (k = "icons")) as [->|Hne].
{ replace (assigned o manifest "icons") with (@None jsval) by by assigned_cases.
  apply Hsame. }
destruct (assigned o manifest k) as [v|] eqn:Hv; [|apply Hsame].
rewrite (Hk k Hne), Hv. done.
Qed.

End ManifestFacts.

Lemma build_manifest_truthy_witness :
  (∀ k v, manifest_built !! k = Some v → jsval_truthy v = true)
  ∧ manifest_built !! "display" = Some (VStr "standalone")
  ∧ manifest_built !! "scope" = Some (VStr "/app/").
Proof.
  destruct (build_manifest_truthy options_full (Some [VObj [("sizes", VStr "36x36")]])
              manifest_named manifest_built) as (H1 & _ & H2 & H3 & _).
  - reflexivity.
  - split; [exact H1|]. split; [exact H3|exact H2].
Defined.

Lemma build_manifest_keeps_input_witness :
  manifest_built !! "name" = Some (VStr "Named") ∧ manifest_built !! "custom" = None.
Proof.
  destruct (build_manifest_keeps_input options_full
              (Some [VObj [("sizes", VStr "36x36")]]) manifest_named manifest_built)
    as [H1 H2].
  - reflexivity.
  - split.
    + apply H1; reflexivity.
    + rewrite H2; [reflexivity|]. compute_done.
Defined.

Lemma build_manifest_idempotent_witness :
  build_manifest options_full None manifest_built = Some manifest_built.
Proof.
  apply (build_manifest_idempotent options_full (Some [VObj [("sizes", VStr "36x36")]])
           None manifest_named).
  reflexivity.
Defined.



(** ** The [manifest] command and [WebManifestBundler.setup] *)

Section ManifestCommandFacts.

Variable name cwd : string.
Variable extname basename : string -> string.
Variable resolve_path : string -> string -> string.
Variable super_setup : Options -> gmap string Entry -> thrown + gmap string Entry.

(** X4: without [--manifest] the action hands no [input] to the bundler, so
  its [setup] throws the message naming the missing "input" option,
  whatever the arguments and the other options, and nothing is
  configured. *)
Theorem manifest_command_needs_manifest (c : ManifestCommand) config :
mc_manifest c = None →
setup name extname basename resolve_path super_setup
      (manifest_options cwd basename resolve_path c) config
= (ThrewMessage (missing_option "input" name), config).
Proof. intros H. unfold setup, manifest_options. by rewrite H. Qed.

(** X5: the action always hands an [output], and always a [File]: [setup]
  with [--manifest] given and the base-class setup passing, [setup]
  returns exactly when the path of that file has an extension, leaving
  the configuration of the base class as it is, and throws a [TypeError]
  otherwise.  With [--output] that
  path is the output directory joined with the name of the manifest
  without its extension. *)
Theorem manifest_command_output_is_file (c : ManifestCommand) manifest config config' :
mc_manifest c = Some manifest →
super_setup (manifest_options cwd basename resolve_path c) config = inr config' →
∃ output,
  opt_output (manifest_options cwd basename resolve_path c)
  = Some (mkEntry ClassFile output)
  ∧ (∀ out, mc_output c = Some out →
       output = resolve_path (resolve_path cwd out)
                             (basename (resolve_path cwd manifest)))
  ∧ setup name extname basename resolve_path super_setup
          (manifest_options cwd basename resolve_path c) config
    = (if bool_decide (extname output = EmptyString)
       then ThrewTypeError else Returned, config').
Proof.
intros Hm Hs. unfold setup. rewrite Hs. revert Hs. unfold manifest_options.
rewrite Hm. simpl. intros Hs.
destruct (mc_output c) as [out|]; simpl.
- eexists. split; [reflexivity|]. split; [by intros ? [= <-]|].
  by case_bool_decide.
- eexists. split; [reflexivity|]. split; [done|]. by case_bool_decide.
Qed.

End ManifestCommandFacts.

Lemma manifest_command_needs_manifest_witness :
  setup "WebManifestBundler" posix_extname posix_basename path_resolve_join
        super_setup_store
        (manifest_options "/project" posix_basename path_resolve_join command_plain) ∅
  = (ThrewMessage (missing_option "input" "WebManifestBundler"), ∅).
Proof.
  apply (manifest_command_needs_manifest "WebManifestBundler" "/project" posix_extname
           posix_basename path_resolve_join super_setup_store command_plain ∅).
  reflexivity.
Defined.

Lemma manifest_command_output_is_file_witness :
  setup "WebManifestBundler" posix_extname posix_basename path_resolve_join
        super_setup_store
        (manifest_options "/project" posix_basename path_resolve_join command_both) ∅
  = (ThrewTypeError,
     <["input" := mkEntry ClassFile "/project/src/manifest.json"]>
       (<["output" := mkEntry ClassFile "/project/dist/manifest"]> ∅)).
Proof.
  destruct (manifest_command_output_is_file "WebManifestBundler" "/project"
              posix_extname posix_basename path_resolve_join super_setup_store
              command_both "src/manifest.json" ∅
              (<["input" := mkEntry ClassFile "/project/src/manifest.json"]>
                 (<["output" := mkEntry ClassFile "/project/dist/manifest"]> ∅)))
    as (output & Ho & Hout & ->).
  - reflexivity.
  - reflexivity.
  - rewrite (Hout "dist" eq_refl). reflexivity.
Defined.



(** ** [prettyBytes] and [formatTime] *)

Lemma toFixed1_multiple (k den : Z) :
  (0 < den)%Z → (0 ≤ k)%Z → toFixed1 (k * den) den = pretty k +:+ ".0".
Proof.
  intros Hden Hk. unfold toFixed1.
  replace ((20 * (k * den) + den) / (2 * den))%Z with (10 * k)%Z.
  - replace (10 * k / 10)%Z with k by (apply Z.div_unique_exact; lia).
    replace ((10 * k) `mod` 10)%Z with 0%Z; [done|].
    symmetry. rewrite Z.mul_comm. by apply Z_mod_mult.
  - apply (Z.div_unique _ _ _ den); lia.
Qed.

(** X6: the thresholds of [prettyBytes] are strict and the sign is dropped:
    up to 1024 bytes the size is printed in bytes, [k] kibibytes are printed
    as [k.0 KB] and [k] mebibytes as [k.0 MB] for [k] from 2 to 1024, so
    that one mebibyte reads [1024.0 KB] and one gibibyte [1024.0 MB]. *)
Theorem prettyBytes_units :
  (∀ size, (Z.abs size ≤ 1024)%Z → prettyBytes size = pretty (Z.abs size) +:+ " B")
  ∧ (∀ k, (2 ≤ k ≤ 1024)%Z → prettyBytes (k * 1024) = (pretty k +:+ ".0") +:+ " KB")
  ∧ (∀ k, (2 ≤ k ≤ 1024)%Z → prettyBytes (k * 1024 ^ 2) = (pretty k +:+ ".0") +:+ " MB")
  ∧ (∀ size, prettyBytes (- size) = prettyBytes size).
Proof.
  split_and!.
  - intros size H. unfold prettyBytes, TERA, MEGA, KILO. simpl.
    rewrite !(proj2 (Z.ltb_ge _ _)) by lia. done.
  - intros k H. unfold prettyBytes, TERA, MEGA, KILO.
    rewrite Z.abs_eq by lia. change (1024 ^ 3)%Z with 1073741824%Z.
    change (1024 ^ 2)%Z with 1048576%Z.
    rewrite !(proj2 (Z.ltb_ge _ _)) by lia.
    rewrite (proj2 (Z.ltb_lt _ _)) by lia.
    by rewrite toFixed1_multiple by lia.
  - intros k H. unfold prettyBytes, TERA, MEGA, KILO.
    rewrite Z.abs_eq by lia. change (1024 ^ 3)%Z with 1073741824%Z.
    change (1024 ^ 2)%Z with 1048576%Z.
    rewrite (proj2 (Z.ltb_ge _ _)) by lia.
    rewrite (proj2 (Z.ltb_lt _ _)) by lia.
    by rewrite toFixed1_multiple by lia.
  - intros size. unfold prettyBytes. by rewrite Z.abs_opp.
Qed.

(** X7: everything above one gibibyte is divided by 1024^3 and labelled TB:
    [k] gibibytes, for every [k] from 2 on whose size in bytes stays below
    2^53 (the integers that a double holds exactly), are printed as
    [k.0 TB]. *)
Theorem prettyBytes_gibibytes (k : Z) :
  (2 ≤ k)%Z → (k * 1024 ^ 3 < 2 ^ 53)%Z →
  prettyBytes (k * 1024 ^ 3) = (pretty k +:+ ".0") +:+ " TB".
Proof.
  intros H _. unfold prettyBytes, TERA, MEGA, KILO.
  rewrite Z.abs_eq by lia. change (1024 ^ 3)%Z with 1073741824%Z.
  rewrite (proj2 (Z.ltb_lt _ _)) by lia.
  by rewrite toFixed1_multiple by lia.
Qed.

Lemma prettyBytes_gibibytes_witness :
  prettyBytes (2 * 1024 ^ 3) = "2.0 TB"
  ∧ prettyBytes (8388607 * 1024 ^ 3) = "8388607.0 TB".
Proof.
  split.
  - apply (prettyBytes_gibibytes 2); [lia|reflexivity].
  - apply (prettyBytes_gibibytes 8388607); [lia|reflexivity].
Defined.

Lemma padStart2_seconds :
  forallb (λ s, String.length (padStart2 (pretty (Z.of_nat s))) =? 2) (seq 0 61) = true.
Proof. vm_compute. reflexivity. Qed.

(** X8: for a duration that is not negative [formatTime] rounds the
    remainder of the minute to the nearest second and never carries it into
    the minutes: the seconds field runs from 0 to 60, it reads 60 exactly
    when the remainder is 59500 ms or more, and once minutes are shown it
    has two characters. *)
Theorem formatTime_seconds (millis : Z) :
  (0 ≤ millis)%Z →
  let s := ((millis `mod` 60000 + 500) / 1000)%Z in
  (0 ≤ s ≤ 60)%Z
  ∧ (s = 60%Z ↔ (59500 ≤ millis `mod` 60000)%Z)
  ∧ String.length (padStart2 (pretty s)) = 2
  ∧ formatTime millis
    = if (millis <? 60000)%Z then pretty s +:+ "s"
      else pretty (millis / 60000)%Z +:+ ":" +:+ padStart2 (pretty s) +:+ "m".
Proof.
  intros H s.
  pose proof (Z.mod_pos_bound millis 60000 ltac:(lia)) as Hr.
  assert (Hs : (0 ≤ s ≤ 60)%Z).
  { unfold s. split; [apply Z.div_pos; lia|].
    assert ((millis `mod` 60000 + 500) / 1000 < 61)%Z
      by (apply Z.div_lt_upper_bound; lia). lia. }
  split; [done|]. split.
  { unfold s. split; intros Hs'.
    - destruct (Z_lt_le_dec (millis `mod` 60000) 59500) as [Hlt|]; [|done].
      assert ((millis `mod` 60000 + 500) / 1000 < 60)%Z
        by (apply Z.div_lt_upper_bound; lia). lia.
    - apply Z.le_antisymm; [lia|]. apply Z.div_le_lower_bound; lia. }
  split.
  { pose proof padStart2_seconds as Hall. rewrite forallb_forall in Hall.
    specialize (Hall (Z.to_nat s)). rewrite Z2Nat.id in Hall by lia.
    apply Nat.eqb_eq, Hall. apply in_seq. lia. }
  unfold formatTime. rewrite Z.rem_mod_nonneg by lia.
  unfold toFixed0. rewrite (proj2 (Z.ltb_ge _ _)) by lia. fold s.
  destruct (Z.ltb_spec millis 60000) as [Hlt|Hge].
  - rewrite Z.div_small by lia. done.
  - assert (0 < millis / 60000)%Z by (apply Z.div_str_pos; lia).
    rewrite (proj2 (Z.eqb_neq _ _)) by lia. done.
Qed.

Lemma formatTime_seconds_witness : formatTime 119500 = "1:60m".
Proof.
  destruct (formatTime_seconds 119500) as (_ & _ & _ & ->); [lia|reflexivity].
Defined.



(** ** The dependency index *)

Section IndexFacts.

Implicit Types (files : gmap string (list BundleManifest)) (bm : BundleManifest).

Lemma collect_file_spec bm files f :
index_inv files →
match collect_file bm files f with
| Some files' =>
    index_inv files' ∧ (f ∉ inherited_keys)
    ∧ ∀ g, default [] (files' !! g)
           = default [] (files !! g) ++ (if decide (f = g) then [bm] else [])
| None => f ∈ inherited_keys
end.
Proof.
intros Hinv. unfold collect_file.
destruct (files !! f) as [l|] eqn:Hl.
- destruct (Hinv f l Hl) as [Hne Hf]. split_and!; [|done|].
  + intros g l'. rewrite lookup_insert. case_decide; [|by apply Hinv].
    intros [= <-]. subst. split; [by destruct l|done].
  + intros g. rewrite lookup_insert. case_decide; subst.
    * by rewrite Hl.
    * by rewrite app_nil_r.
- case_bool_decide as Hf; [done|]. split_and!; [|done|].
  + intros g l'. rewrite lookup_insert. case_decide; [|by apply Hinv].
    intros [= <-]. by subst.
  + intros g. rewrite lookup_insert. case_decide; subst.
    * by rewrite Hl.
    * by rewrite app_nil_r.
Qed.

Lemma collect_files_spec bm files fs :
index_inv files →
match collect_files bm files fs with
| Some files' =>
    index_inv files' ∧ Forall (λ f, f ∉ inherited_keys) fs
    ∧ ∀ g, default [] (files' !! g)
           = default [] (files !! g) ++ ((λ _, bm) <$> filter (λ f, f = g) fs)
| None => Exists (λ f, f ∈ inherited_keys) fs
end.
Proof.
revert files. induction fs as [|f fs IH]; intros files Hinv; simpl.
- split; [done|]. split; [done|]. intros g. by rewrite app_nil_r.
- pose proof (collect_file_spec bm files f Hinv) as H1.
  destruct (collect_file bm files f) as [files1|]; simpl; [|by left].
  destruct H1 as (Hinv1 & Hf & Hl1). specialize (IH files1 Hinv1).
  destruct (collect_files bm files1 fs) as [files2|]; [|by right].
  destruct IH as (Hinv2 & Hfs & Hl2). split; [done|]. split; [by constructor|].
  intros g. rewrite Hl2, Hl1, <- app_assoc. f_equal.
  rewrite filter_cons. by case_decide.
Qed.

Lemma collect_manifests_spec files bms :
index_inv files →
match collect_manifests files bms with
| Some files' =>
    index_inv files'
    ∧ Forall (λ bm, Forall (λ f, f ∉ inherited_keys) (bm_files bm)) bms
    ∧ ∀ g, default [] (files' !! g) = default [] (files !! g) ++ dependents_of bms g
| None => Exists (λ bm, Exists (λ f, f ∈ inherited_keys) (bm_files bm)) bms
end.
Proof.
revert files. induction bms as [|bm bms IH]; intros files Hinv; simpl.
- split; [done|]. split; [done|]. intros g. by rewrite app_nil_r.
- pose proof (collect_files_spec bm files (bm_files bm) Hinv) as H1.
  destruct (collect_files bm files (bm_files bm)) as [files1|]; simpl; [|by left].
  destruct H1 as (Hinv1 & Hf & Hl1). specialize (IH files1 Hinv1).
  destruct (collect_manifests files1 bms) as [files2|]; [|by right].
  destruct IH as (Hinv2 & Hfs & Hl2). split; [done|]. split; [by constructor|].
  intros g. by rewrite Hl2, Hl1, <- app_assoc.
Qed.

Lemma dependency_index_Some bms files :
dependency_index bms = Some files →
index_inv files ∧ ∀ g, default [] (files !! g) = dependents_of bms g.
Proof.
unfold dependency_index. intros H.
pose proof (collect_manifests_spec ∅ bms) as Hs. rewrite H in Hs.
destruct Hs as (Hinv & _ & Hl); [done|]. split; [done|].
intros g. by rewrite Hl, lookup_empty.
Qed.

Lemma filter_eq_NoDup (f : string) (l : list string) :
NoDup l → filter (λ g, g = f) l = if decide (f ∈ l) then [f] else [].
Proof.
induction 1 as [|g l Hg Hl IH]; [done|].
rewrite filter_cons, IH. destruct (decide (g = f)) as [->|Hne].
- rewrite (decide_False (P := f ∈ l)) by done.
  by rewrite decide_True by apply list_elem_of_here.
- destruct (decide (f ∈ l)) as [Hin|Hin].
  + by rewrite decide_True by by apply list_elem_of_further.
  + rewrite decide_False; [done|]. intros [?|?]%elem_of_cons; by subst.
Qed.

Lemma elem_of_dependents_of bms f bm :
bm ∈ dependents_of bms f ↔ bm ∈ bms ∧ f ∈ bm_files bm.
Proof.
unfold dependents_of. rewrite list_elem_of_bind. split.
- intros (bm' & Hin & Hbm). apply list_elem_of_fmap in Hin as (g & -> & Hg).
  apply list_elem_of_filter in Hg as [-> Hg]. done.
- intros [Hbm Hf]. exists bm. split; [|done].
  apply list_elem_of_fmap. exists f. split; [done|]. by apply list_elem_of_filter.
Qed.

(** X9: the index maps every file to the manifests that list it, in build
  order and once per listing, and has no other key; building it fails,
  with the [TypeError] of [push], exactly when some manifest lists a file
  whose name is a property inherited from [Object.prototype]. *)
Theorem dependency_index_lookup (bundleManifests : list BundleManifest) :
match dependency_index bundleManifests with
| Some files =>
    (∀ f, files !! f = match dependents_of bundleManifests f with
                       | [] => None
                       | l => Some l
                       end)
    ∧ Forall (λ bm, Forall (λ f, f ∉ inherited_keys) (bm_files bm)) bundleManifests
| None =>
    Exists (λ bm, Exists (λ f, f ∈ inherited_keys) (bm_files bm)) bundleManifests
end.
Proof.
unfold dependency_index.
pose proof (collect_manifests_spec ∅ bundleManifests) as H.
destruct (collect_manifests ∅ bundleManifests) as [files|]; [|by apply H].
destruct H as (Hinv & Hclean & Hl); [done|]. split; [|done].
intros f. specialize (Hl f). rewrite lookup_empty in Hl. simpl in Hl.
destruct (files !! f) as [l|] eqn:Hf; simpl in Hl.
- rewrite <- Hl. destruct (Hinv f l Hf) as [Hne _]. by destruct l.
- by rewrite <- Hl.
Qed.

(** X10: a file is watched, that is a key of the index, exactly when some
  manifest lists it, and when no manifest lists a file twice the entry of
  a file is the list of the manifests that list it, each once, in build
  order. *)
Theorem dependency_index_dependents (bundleManifests : list BundleManifest) files :
dependency_index bundleManifests = Some files →
(∀ f, f ∈ dom files ↔ ∃ bm, bm ∈ bundleManifests ∧ f ∈ bm_files bm)
∧ (Forall (λ bm, NoDup (bm_files bm)) bundleManifests →
   ∀ f, default [] (files !! f) = filter (λ bm, f ∈ bm_files bm) bundleManifests).
Proof.
intros Hidx. destruct (dependency_index_Some _ _ Hidx) as [Hinv Hl]. split.
- intros f. rewrite elem_of_dom. split.
  + intros [l Hf]. specialize (Hl f). rewrite Hf in Hl. simpl in Hl.
    destruct (Hinv f l Hf) as [Hne _]. destruct l as [|bm l]; [done|].
    exists bm. apply (elem_of_dependents_of _ f). rewrite <- Hl. apply list_elem_of_here.
  + intros (bm & Hbm & Hf).
    assert (Hin : bm ∈ dependents_of bundleManifests f)
      by by apply elem_of_dependents_of.
    rewrite <- Hl in Hin. destruct (files !! f); [done|]. by apply elem_of_nil in Hin.
- intros Hnd f. rewrite Hl. clear Hl Hidx Hinv.
  induction Hnd as [|bm bms Hbm Hbms IH]; [done|].
  change (dependents_of (bm :: bms) f)
    with (((λ _, bm) <$> filter (λ g, g = f) (bm_files bm)) ++ dependents_of bms f).
  rewrite IH, filter_cons, (filter_eq_NoDup f _ Hbm). by case_decide.
Qed.

End IndexFacts.

Lemma dependency_index_dependents_witness :
  ∃ files, dependency_index [manifest_js; manifest_css] = Some files
    ∧ default [] (files !! "/p/src/util.js") = [manifest_js; manifest_css]
    ∧ "/p/src/index.scss" ∈ dom files.
Proof.
  eexists. split; [reflexivity|].
  destruct (dependency_index_dependents [manifest_js; manifest_css] _ eq_refl)
    as [Hdom Hdep].
  split.
  - rewrite Hdep; [reflexivity|]. compute_done.
  - apply Hdom. exists manifest_css. split; compute_done.
Defined.



(** ** The watch callback: linting and the shared options *)

Section WatchFacts.

Variable isStyleFile isJSFile : string -> jsval.
Variable files : gmap string (list BundleManifest).

(** [ext.isStyleFile] and [ext.isJSFile] answer with booleans. *)
Hypothesis isStyleFile_bool : ∀ fp, ∃ b, isStyleFile fp = VBool b.
Hypothesis isJSFile_bool : ∀ fp, ∃ b, isJSFile fp = VBool b.

Lemma shouldLint_off options fp :
wo_lint options = VBool false →
js_and (shouldLint isStyleFile isJSFile options fp) (VStr fp) = VBool false.
Proof.
intros H. unfold shouldLint. rewrite H. simpl. rewrite !andb_false_r.
destruct (isStyleFile_bool fp) as [b ->], (isJSFile_bool fp) as [b' ->].
by destruct b, b'.
Qed.

Lemma lint_off_step ev st st' :
lint_off st → watch_step isStyleFile isJSFile files ev st = Some st' →
lint_off st'
∧ ∃ calls, ws_calls st' = ws_calls st ++ calls
           ∧ Forall (λ call, wo_lint call = VBool false) calls.
Proof.
intros [Ho Hc] Hstep. destruct ev as [fp|i]; simpl in Hstep.
- destruct (files !! fp) as [bundles|]; [|done].
  rewrite (shouldLint_off _ _ Ho) in Hstep.
  destruct bundles as [|bundle bundles]; simpl in Hstep; simplify_eq.
  + split; [done|]. exists []. by rewrite app_nil_r.
  + split.
    * split; [done|]. simpl. intros chain r [Hin|Hin]%elem_of_app Hr.
      -- by eapply Hc.
      -- apply list_elem_of_singleton in Hin as ->.
         by apply list_elem_of_fmap in Hr as (? & -> & _).
    * eexists [_]. split; [done|]. by constructor.
- destruct (ws_chains st !! i) as [[|r rest]|] eqn:Hi; simplify_eq.
  assert (Hr : rb_lint r = VBool false).
  { apply (Hc (r :: rest)); [|apply list_elem_of_here].
    apply list_elem_of_lookup. eauto. }
  split.
  + split; [done|]. simpl. intros chain r' Hin Hr'.
    apply list_elem_of_lookup in Hin as [j Hj].
    destruct (decide (i = j)) as [->|Hne].
    * rewrite list_lookup_insert_eq in Hj by by eapply lookup_lt_Some.
      injection Hj as <-. apply (Hc (r :: rest)); [|by apply list_elem_of_further].
      apply list_elem_of_lookup. eauto.
    * rewrite list_lookup_insert_ne in Hj by done.
      apply (Hc chain); [|done]. apply list_elem_of_lookup. eauto.
  + eexists [_]. split; [done|]. by constructor.
Qed.

Lemma lint_off_run evs st st' :
lint_off st → watch_run isStyleFile isJSFile files evs st = Some st' →
lint_off st'
∧ ∃ calls, ws_calls st' = ws_calls st ++ calls
           ∧ Forall (λ call, wo_lint call = VBool false) calls.
Proof.
revert st. induction evs as [|ev evs IH]; intros st Hoff Hrun; simpl in Hrun.
- simplify_eq. split; [done|]. exists []. by rewrite app_nil_r.
- destruct (watch_step isStyleFile isJSFile files ev st) as [st1|] eqn:Hstep; [|done].
  simpl in Hrun. destruct (lint_off_step _ _ _ Hoff Hstep) as (Hoff1 & calls1 & Hc1 & Hf1).
  destruct (IH st1 Hoff1 Hrun) as (Hoff' & calls & Hc & Hf).
  split; [done|]. exists (calls1 ++ calls). rewrite Hc, Hc1, app_assoc.
  split; [done|]. by apply Forall_app.
Qed.

(** X11: the rebuilds overwrite the [lint] option of the options they share
  with the callback.  When a change arrives for a file that is neither a
  style nor a script while no chain has a link left to start, its rebuild
  is called with [lint: false], and so is every rebuild started
  afterwards, for whatever file: linting stays off. *)
Theorem lint_stays_off fp bundle bundles evs st st1 st' :
Forall (λ chain, chain = []) (ws_chains st) →
files !! fp = Some (bundle :: bundles) →
isStyleFile fp = VBool false → isJSFile fp = VBool false →
watch_step isStyleFile isJSFile files (Changed fp) st = Some st1 →
watch_run isStyleFile isJSFile files evs st1 = Some st' →
∃ calls, ws_calls st' = ws_calls st ++ calls
         ∧ Forall (λ call, wo_lint call = VBool false) calls
         ∧ wo_lint (ws_options st') = VBool false.
Proof.
intros Hidle Hfp Hs Hj Hstep Hrun. simpl in Hstep. rewrite Hfp in Hstep.
assert (Hl : js_and (shouldLint isStyleFile isJSFile (ws_options st) fp) (VStr fp)
             = VBool false) by (unfold shouldLint; by rewrite Hs, Hj).
rewrite Hl in Hstep. simpl in Hstep. simplify_eq.
edestruct (lint_off_run evs) as ([Ho _] & calls & Hc & Hf); [|exact Hrun|].
- split; [done|]. simpl. intros chain r [Hin|Hin]%elem_of_app Hr.
  + rewrite Forall_forall in Hidle. rewrite (Hidle chain Hin) in Hr.
    by apply elem_of_nil in Hr.
  + apply list_elem_of_singleton in Hin as ->.
    by apply list_elem_of_fmap in Hr as (? & -> & _).
- eexists (_ :: calls). simpl in Hc. rewrite <- app_assoc in Hc.
  split; [exact Hc|]. split; [by constructor|done].
Qed.

End WatchFacts.

Lemma lint_stays_off_witness :
  let st' := default watch_start
               (watch_run (ext_is ".scss") (ext_is ".js") index_json
                          [Changed data_json; Changed "/p/src/index.js"] watch_start) in
  ∃ calls, ws_calls st' = calls ∧ length calls = 2
           ∧ Forall (λ call, wo_lint call = VBool false) calls.
Proof.
  destruct (lint_stays_off (ext_is ".scss") (ext_is ".js") index_json
              (λ fp, ex_intro _ _ eq_refl) (λ fp, ex_intro _ _ eq_refl)
              data_json manifest_json [] [Changed "/p/src/index.js"] watch_start
              (default watch_start
                 (watch_step (ext_is ".scss") (ext_is ".js") index_json
                             (Changed data_json) watch_start))
              (default watch_start
                 (watch_run (ext_is ".scss") (ext_is ".js") index_json
                            [Changed data_json; Changed "/p/src/index.js"] watch_start)))
    as (calls & Hc & Hf & _).
  - constructor.
  - reflexivity.
  - reflexivity.
  - reflexivity.
  - reflexivity.
  - reflexivity.
  - exists calls. split; [exact Hc|]. split; [|exact Hf].
    change (length (ws_calls watch_start ++ calls) = 2). by rewrite <- Hc.
Defined.



(** ** [Stylelint.transformResult] *)

Section StylelintFacts.

Lemma transform_warnings_spec warnings :
transform_warnings warnings
= ((length (filter (λ w, is_error w = true) warnings),
    length (filter (λ w, is_error w = false) warnings)),
   (λ warn, mkLintMessage (warn_rule warn) (if is_error warn then 2 else 1)
                          (warn_line warn) (warn_column warn)
                          (strip_rule (warn_text warn))) <$> warnings).
Proof.
unfold transform_warnings.
induction warnings as [|warn warnings IH] using rev_ind; [done|].
rewrite foldl_app, IH. simpl. rewrite !filter_app, !length_app, fmap_app. simpl.
rewrite !filter_cons, !filter_nil.
destruct (is_error warn); simpl; repeat case_decide; try done; simpl;
  f_equal; f_equal; lia.
Qed.

Lemma with_severity_fmap severity (warnings : list Warning) :
with_severity severity
  ((λ warn, mkLintMessage (warn_rule warn) (if is_error warn then 2 else 1)
                          (warn_line warn) (warn_column warn)
                          (strip_rule (warn_text warn))) <$> warnings)
= length (filter (λ w, (if is_error w then 2 else 1) = severity) warnings).
Proof.
unfold with_severity. induction warnings as [|warn warnings IH]; [done|].
rewrite fmap_cons, !filter_cons. simpl.
repeat case_decide; simpl; try done; by rewrite IH.
Qed.

Lemma filter_is_error (warnings : list Warning) b :
length (filter (λ w, is_error w = b) warnings)
= length (filter (λ w, (if is_error w then 2 else 1) = (if b then 2 else 1)) warnings).
Proof.
induction warnings as [|warn warnings IH]; [done|].
rewrite !filter_cons.
destruct (is_error warn), b; repeat case_decide; simpl; try done; by rewrite IH.
Qed.

Lemma length_filter_split (warnings : list Warning) :
length (filter (λ w, is_error w = true) warnings)
+ length (filter (λ w, is_error w = false) warnings) = length warnings.
Proof.
induction warnings as [|warn warnings IH]; [done|].
rewrite !filter_cons. destruct (is_error warn); repeat case_decide; simpl; try done; lia.
Qed.

(** The totals and the entries after the files of [results]. *)
Lemma transformResult_spec results :
transformResult results
= mkLintResult
    (sum_list_with (λ r, length (filter (λ w, is_error w = true) (sr_warnings r)))
                   results)
    (sum_list_with (λ r, length (filter (λ w, is_error w = false) (sr_warnings r)))
                   results)
    ((λ r, (transform_source (0, 0) r).2) <$> results).
Proof.
unfold transformResult.
induction results as [|r results IH] using rev_ind; [done|].
rewrite foldl_app. simpl.
destruct (foldl _ _ results) as [[ec wc] out]. injection IH as -> -> ->.
unfold transform_source. rewrite transform_warnings_spec.
rewrite !fmap_app, !sum_list_with_app. simpl. rewrite transform_warnings_spec. simpl.
f_equal; lia.
Qed.

(** X12: [transformResult] keeps one entry per source, in order and under
  the path of the source, with one message per warning; the counters of
  an entry are the numbers of its messages of severity 2 and 1; the two
  totals are the sums of the counters over the entries, and together they
  count every warning of the report. *)
Theorem transformResult_counts (results : list StylelintResult) :
let r := transformResult results in
lf_filePath <$> lr_results r = sr_source <$> results
∧ (length ∘ lf_messages) <$> lr_results r = (length ∘ sr_warnings) <$> results
∧ Forall (λ file, lf_errorCount file = with_severity 2 (lf_messages file)
                  ∧ lf_warningCount file = with_severity 1 (lf_messages file)
                  ∧ lf_errorCount file + lf_warningCount file
                    = length (lf_messages file))
         (lr_results r)
∧ lr_errorCount r = sum_list_with lf_errorCount (lr_results r)
∧ lr_warningCount r = sum_list_with lf_warningCount (lr_results r)
∧ lr_errorCount r + lr_warningCount r
  = sum_list_with (length ∘ sr_warnings) results.
Proof.
intros r. unfold r. rewrite transformResult_spec. simpl. split_and!.
- rewrite <- list_fmap_compose. apply list_fmap_ext. intros _ x _. simpl.
  unfold transform_source. by rewrite transform_warnings_spec.
- rewrite <- list_fmap_compose. apply list_fmap_ext. intros _ x _. simpl.
  unfold transform_source. rewrite transform_warnings_spec. simpl.
  by rewrite length_fmap.
- apply Forall_fmap, Forall_forall. intros x _. simpl.
  unfold transform_source. rewrite transform_warnings_spec. simpl.
  rewrite !with_severity_fmap, length_fmap.
  rewrite (filter_is_error _ true), (filter_is_error _ false). simpl.
  split; [done|]. split; [done|].
  rewrite <- (filter_is_error _ true), <- (filter_is_error _ false).
  apply length_filter_split.
- induction results as [|x results IH]; [done|]. simpl. rewrite IH. f_equal.
  unfold transform_source. by rewrite transform_warnings_spec.
- induction results as [|x results IH]; [done|]. simpl. rewrite IH. f_equal.
  unfold transform_source. by rewrite transform_warnings_spec.
- induction results as [|x results IH]; [done|]. simpl in *.
  pose proof (length_filter_split (sr_warnings x)). lia.
Qed.

Lemma skip_rule_app rule s :
Forall (λ c, is_rule_char c = true) rule → skip_rule (rule ++ s) = skip_rule s.
Proof. induction 1 as [|c rule Hc _ IH]; [done|]. simpl. by rewrite Hc. Qed.

Lemma skip_rule_stop c s : is_rule_char c = false → skip_rule (c :: s) = c :: s.
Proof. intros H. simpl. by rewrite H. Qed.

Lemma match_rule_no_paren c p s : p ≠ 40%N → match_rule (c :: p :: s) = None.
Proof.
intros Hp. simpl. rewrite (proj2 (N.eqb_neq p 40)) by done.
by rewrite andb_false_r.
Qed.

Lemma strip_rule_no_paren s : 40%N ∉ s → strip_rule s = s.
Proof.
induction s as [|c s IH]; [done|]. intros Hs.
apply not_elem_of_cons in Hs as [Hc Hs].
change (strip_rule (c :: s))
  with (match match_rule (c :: s) with
        | Some rest => rest
        | None => c :: strip_rule s
        end).
destruct s as [|p s']; [done|].
rewrite match_rule_no_paren by (apply not_elem_of_cons in Hs as [? _]; done).
by rewrite IH.
Qed.

Lemma is_space_not_paren sp : is_space sp = true → sp ≠ 40%N.
Proof. by intros H ->. Qed.

Lemma strip_rule_prefix text sp s :
40%N ∉ text → sp ≠ 40%N →
strip_rule (text ++ sp :: s) = text ++ strip_rule (sp :: s).
Proof.
intros Ht Hsp. induction text as [|c text IH]; [done|].
apply not_elem_of_cons in Ht as [Hc Ht].
change (strip_rule ((c :: text) ++ sp :: s))
  with (match match_rule (c :: text ++ sp :: s) with
        | Some rest => rest
        | None => c :: strip_rule (text ++ sp :: s)
        end).
destruct text as [|p text'].
- simpl app at 1. rewrite match_rule_no_paren by done. by rewrite IH.
- simpl app at 1. rewrite match_rule_no_paren
    by (apply not_elem_of_cons in Ht as [? _]; done).
  by rewrite IH.
Qed.

(** X13: the name of the rule that stylelint appends to the text of a
  warning, a white space and the name in parentheses, is taken off: when
  the name is made of lower-case letters, dashes and slashes and the text
  before it has no opening parenthesis, what is left is that text and
  whatever came after the closing parenthesis. *)
Theorem strip_rule_removes_rule (text rule rest : list N) (sp : N) :
40%N ∉ text → is_space sp = true →
Forall (λ c, is_rule_char c = true) rule →
strip_rule (text ++ sp :: 40%N :: rule ++ 41%N :: rest) = text ++ rest.
Proof.
intros Ht Hsp Hrule.
rewrite strip_rule_prefix by auto using is_space_not_paren. f_equal.
change (strip_rule (sp :: 40%N :: rule ++ 41%N :: rest))
  with (match match_rule (sp :: 40%N :: rule ++ 41%N :: rest) with
        | Some rest' => rest'
        | None => sp :: strip_rule (40%N :: rule ++ 41%N :: rest)
        end).
unfold match_rule. rewrite Hsp. simpl andb. cbv iota.
by rewrite skip_rule_app, skip_rule_stop by done.
Qed.

(** X14: a name with a character outside that class, a digit or a capital
  letter say, is not taken off: when the first such character of the
  name is not the closing parenthesis and there is no other opening
  parenthesis around, the text stays as it is. *)
Theorem strip_rule_keeps_other_names (text r1 tail : list N) (sp c : N) :
40%N ∉ text → 40%N ∉ tail →
Forall (λ c, is_rule_char c = true) r1 →
is_rule_char c = false → c ≠ 41%N → c ≠ 40%N → sp ≠ 40%N →
strip_rule (text ++ sp :: 40%N :: r1 ++ c :: tail)
= text ++ sp :: 40%N :: r1 ++ c :: tail.
Proof.
intros Ht Htail Hr1 Hc Hc1 Hc0 Hsp.
rewrite strip_rule_prefix by done. f_equal.
change (strip_rule (sp :: 40%N :: r1 ++ c :: tail))
  with (match match_rule (sp :: 40%N :: r1 ++ c :: tail) with
        | Some rest' => rest'
        | None => sp :: strip_rule (40%N :: r1 ++ c :: tail)
        end).
assert (Hm : match_rule (sp :: 40%N :: r1 ++ c :: tail) = None).
{ unfold match_rule. destruct (is_space sp && (40 =? 40)%N); [|done].
  rewrite skip_rule_app, skip_rule_stop by done.
  by rewrite (proj2 (N.eqb_neq c 41)). }
rewrite Hm. f_equal.
assert (Hno : 40%N ∉ r1 ++ c :: tail).
{ intros [Hin|Hin]%elem_of_app.
  - rewrite Forall_forall in Hr1. by specialize (Hr1 _ Hin).
  - apply elem_of_cons in Hin as [?|?]; done. }
change (strip_rule (40%N :: r1 ++ c :: tail))
  with (match match_rule (40%N :: r1 ++ c :: tail) with
        | Some rest' => rest'
        | None => 40%N :: strip_rule (r1 ++ c :: tail)
        end).
assert (Hm' : match_rule (40%N :: r1 ++ c :: tail) = None).
{ destruct (r1 ++ c :: tail) as [|p s'] eqn:He; [done|].
  apply match_rule_no_paren. intros ->. apply Hno, list_elem_of_here. }
rewrite Hm'. f_equal. by apply strip_rule_no_paren.
Qed.

End StylelintFacts.

Lemma strip_rule_removes_rule_witness :
  strip_rule (code_units "Unexpected empty block (block-no-empty)")
  = code_units "Unexpected empty block".
Proof.
  rewrite <- (app_nil_r (code_units "Unexpected empty block")).
  apply (strip_rule_removes_rule (code_units "Unexpected empty block")
           (code_units "block-no-empty") [] 32%N).
  - compute_done.
  - reflexivity.
  - compute_done.
Defined.

Lemma strip_rule_keeps_other_names_witness :
  strip_rule (code_units "Missing alt (a11y/no-alt)")
  = code_units "Missing alt (a11y/no-alt)".
Proof.
  apply (strip_rule_keeps_other_names (code_units "Missing alt") (code_units "a")
           (code_units "1y/no-alt)") 32%N 49%N).
  - compute_done.
  - compute_done.
  - compute_done.
  - reflexivity.
  - done.
  - done.
  - done.
Defined.



(** ** The [project] getter *)

Section EntryProjectFacts.

Variable dirname : string -> string.
Variable resolve_path : string -> string -> string.
Variable existsSync : string -> bool.

(** [path.dirname] never hands back the empty string. *)
Hypothesis dirname_nonempty : ∀ p, dirname p ≠ EmptyString.

Lemma Entry_parent_Some this :
Entry_parent dirname this = Some (mkEntry ClassDirectory (dirname (entry_path this))).
Proof. unfold Entry_parent. by rewrite bool_decide_eq_false_2. Qed.

Lemma project_loop_not_null fuel dir :
project_loop dirname resolve_path existsSync fuel (Some dir) ≠ Some ProjectNull.
Proof.
revert dir. induction fuel as [|fuel IH]; intros dir; [done|]. simpl.
destruct (entry_class_of dir); try done.
destruct (existsSync _); [done|]. rewrite Entry_parent_Some. apply IH.
Qed.

Lemma ancestor_succ n path :
ancestor dirname (S n) path = ancestor dirname n (dirname path).
Proof. unfold ancestor. by rewrite Nat.iter_succ_r. Qed.

Lemma project_loop_runs fuel path :
(∀ n, existsSync (resolve_path (ancestor dirname n path) "package.json") = false) →
project_loop dirname resolve_path existsSync fuel (Some (mkEntry ClassDirectory path))
= None.
Proof.
revert path. induction fuel as [|fuel IH]; intros path Hno; [done|].
cbn [project_loop entry_class_of entry_path].
pose proof (Hno 0) as H0. change (ancestor dirname 0 path) with path in H0.
rewrite H0.
rewrite Entry_parent_Some. cbn [entry_path]. apply IH.
intros n. rewrite <- ancestor_succ. apply Hno.
Qed.

(** X15: as [path.dirname] never hands back the empty string, the [parent]
  getter never answers [null], and so the [project] getter never returns
  [null] either: on a file or a directory with no [package.json] in the
  directory it starts from nor in any directory above, the loop does not
  end, however many rounds it is given. *)
Theorem Entry_project_never_null :
(∀ this, is_Some (Entry_parent dirname this))
∧ (∀ fuel this,
     Entry_project dirname resolve_path existsSync fuel this ≠ Some ProjectNull)
∧ (∀ fuel this,
     entry_class_of this = ClassFile ∨ entry_class_of this = ClassDirectory →
     let start := match entry_class_of this with
                  | ClassFile => dirname (entry_path this)
                  | _ => entry_path this
                  end in
     (∀ n, existsSync (resolve_path (ancestor dirname n start) "package.json") = false) →
     Entry_project dirname resolve_path existsSync fuel this = None).
Proof.
split_and!.
- intros this. rewrite Entry_parent_Some. eauto.
- intros fuel this. unfold Entry_project.
  destruct (entry_class_of this); rewrite ?Entry_parent_Some;
    apply project_loop_not_null.
- intros fuel [c path] [Hc|Hc]; simpl in Hc; subst c; cbn zeta;
    cbn [entry_class_of entry_path]; intros Hno; unfold Entry_project;
    cbn [entry_class_of entry_path].
  + rewrite Entry_parent_Some. by apply project_loop_runs.
  + by apply project_loop_runs.
Qed.



End EntryProjectFacts.

Lemma posix_dirname_nonempty p : posix_dirname p ≠ EmptyString.
Proof.
  unfold posix_dirname. destruct (last_index _ p 0 None); [|done].
  by case_bool_decide.
Qed.

(** From [/p/src] upwards the directories are [/p/src], [/p] and then the
    root for ever. *)
Lemma ancestor_of_src n :
  ancestor posix_dirname n "/p/src"
  = match n with 0 => "/p/src" | 1 => "/p" | _ => "/" end.
Proof.
  destruct n as [|[|n]]; [reflexivity|reflexivity|].
  induction n as [|n IH]; [reflexivity|].
  change (ancestor posix_dirname (S (S (S n))) "/p/src")
    with (posix_dirname (ancestor posix_dirname (S (S n)) "/p/src")).
  rewrite IH. reflexivity.
Qed.

Lemma Entry_project_never_null_witness :
  exists_only "/q/package.json" "/q/package.json" = true
  ∧ Entry_project posix_dirname path_resolve_join (exists_only "/q/package.json") 100
                  (mkEntry ClassFile "/p/src/a.js") = None.
Proof.
  split; [reflexivity|].
  apply (Entry_project_never_null posix_dirname path_resolve_join
           (exists_only "/q/package.json") posix_dirname_nonempty).
  - by left.
  - intros n. change (posix_dirname (entry_path (mkEntry ClassFile "/p/src/a.js")))
      with "/p/src". rewrite ancestor_of_src.
    destruct n as [|[|n]]; reflexivity.
Defined.




(** ** [Directory.resolve] *)

Section DirectoryResolveFacts.

Variable glob_sync : string -> string -> list string.
Variable statSync : string -> option stat.

(** X17: [Directory.resolve] throws exactly when [fs.statSync] throws on a
  path that [glob] finds for one of the patterns; when it returns, it
  answers with one entry per path, however many patterns match it: the
  paths of the result are pairwise distinct; a path is in the result
  exactly when some pattern matches it and it is a directory or a file,
  as a [Directory] or a [File] accordingly; and what [glob] finds that is
  neither is left out. *)
Theorem Directory_resolve_distinct cwd patterns :
(Directory_resolve glob_sync statSync cwd patterns = None ↔
 ∃ pattern file, pattern ∈ to_array patterns ∧ file ∈ glob_sync cwd pattern
                 ∧ statSync file = None)
∧ ∀ entries,
    Directory_resolve glob_sync statSync cwd patterns = Some entries →
    NoDup (resolved_path <$> entries)
    ∧ ∀ e, e ∈ entries ↔
           (∃ pattern, pattern ∈ to_array patterns
                       ∧ resolved_path e ∈ glob_sync cwd pattern)
           ∧ ((statSync (resolved_path e) = Some IsDirectory
               ∧ e = EDirectory (resolved_path e))
              ∨ (statSync (resolved_path e) = Some IsFile
                 ∧ e = EFile (resolved_path e))).
Proof.
split; [apply Directory_resolve_None|].
intros entries. apply Directory_resolve_Some.
Qed.

End DirectoryResolveFacts.

Lemma Directory_resolve_distinct_witness :
  Directory_resolve glob_project stat_project "/project" (Many ["src/a.*"; "src/*.js"])
  = Some [EFile "/project/src/a.js"; EFile "/project/src/a.css";
          EFile "/project/src/b.js"; EDirectory "/project/src/vendor.js"]
  ∧ NoDup ["/project/src/a.js"; "/project/src/a.css"; "/project/src/b.js";
           "/project/src/vendor.js"]
  ∧ Directory_resolve glob_project stat_project "/project" (One "test/*.js") = None.
Proof.
  destruct (Directory_resolve_distinct glob_project stat_project "/project"
              (Many ["src/a.*"; "src/*.js"])) as [_ Hsome].
  destruct (Directory_resolve_distinct glob_project stat_project "/project"
              (One "test/*.js")) as [Hnone _].
  split; [reflexivity|]. split.
  - exact (proj1 (Hsome _ eq_refl)).
  - apply Hnone. exists "test/*.js", "/project/test/gone.js".
    split_and!; [apply list_elem_of_here|apply list_elem_of_here|reflexivity].
Defined.

(** ** The listings of a directory *)

Section DirectoryChildrenFacts.

Variable resolve_path : string -> string -> string.
Variable existsSync : string -> bool.
Variable readdirSync : string -> list string.
Variable statSync : string -> option stat.

Lemma child_Some this file entry :
child resolve_path statSync this file = Some entry →
entry_path entry = resolve_path this file
∧ ∃ s, statSync (entry_path entry) = Some s
       ∧ entry_class_of entry = match s with
                                | IsDirectory => ClassDirectory
                                | _ => ClassFile
                                end.
Proof.
unfold child. destruct (statSync (resolve_path this file)) as [s|] eqn:Hs; [|done].
destruct s; intros [= <-]; simpl; eauto.
Qed.

Lemma children_Some this names entries :
mapM (child resolve_path statSync this) names = Some entries →
entry_path <$> entries = resolve_path this <$> names
∧ Forall (λ entry, ∃ s, statSync (entry_path entry) = Some s
                        ∧ entry_class_of entry = match s with
                                                 | IsDirectory => ClassDirectory
                                                 | _ => ClassFile
                                                 end) entries.
Proof.
intros H. apply mapM_Some in H.
induction H as [|file entry names entries He _ [Hp Hf]]; [done|].
destruct (child_Some _ _ _ He) as [Hpath Hstat].
split; [rewrite !fmap_cons; by rewrite Hpath, Hp|]. by constructor.
Qed.

Lemma filter_stat_Some wanted entries :
Forall (λ entry, is_Some (statSync (entry_path entry))) entries →
filter_stat statSync wanted entries
= Some (filter (λ entry, statSync (entry_path entry) = Some wanted) entries).
Proof.
induction 1 as [|entry entries [s Hs] _ IH]; [done|]. simpl.
rewrite Hs, IH. simpl. rewrite filter_cons, Hs.
case_bool_decide; subst.
- by rewrite decide_True.
- rewrite decide_False; [done|]. by intros [= ->].
Qed.

(** X18: when [children()] answers with a list, [files()] and
  [directories()] do so as well: they are the children that
  [fs.statSync] calls a file and a directory, in the order of
  [fs.readdirSync], the first all [File] and the second all [Directory]
  objects; a child that is neither, a socket or a pipe, is a [File]
  object in [children()] and in neither of the two.  On a directory that
  does not exist all three answer [null]. *)
Theorem Directory_listings this :
(existsSync this = false →
 Directory_children resolve_path existsSync readdirSync statSync this = ListNull
 ∧ Directory_files resolve_path existsSync readdirSync statSync this = ListNull
 ∧ Directory_directories resolve_path existsSync readdirSync statSync this = ListNull)
∧ ∀ entries,
    Directory_children resolve_path existsSync readdirSync statSync this
    = Listed entries →
    entry_path <$> entries = resolve_path this <$> readdirSync this
    ∧ Directory_files resolve_path existsSync readdirSync statSync this
      = Listed (filter (λ e, statSync (entry_path e) = Some IsFile) entries)
    ∧ Directory_directories resolve_path existsSync readdirSync statSync this
      = Listed (filter (λ e, statSync (entry_path e) = Some IsDirectory) entries)
    ∧ Forall (λ e, entry_class_of e = ClassFile)
             (filter (λ e, statSync (entry_path e) = Some IsFile) entries)
    ∧ Forall (λ e, entry_class_of e = ClassDirectory)
             (filter (λ e, statSync (entry_path e) = Some IsDirectory) entries)
    ∧ Forall (λ e, entry_class_of e = ClassFile)
             (filter (λ e, statSync (entry_path e) = Some IsOther) entries).
Proof.
split.
- intros H. unfold Directory_files, Directory_directories, filter_children,
    Directory_children. by rewrite H.
- intros entries H.
  assert (Hex : existsSync this = true).
  { unfold Directory_children in H. by destruct (existsSync this). }
  assert (Hm : mapM (child resolve_path statSync this) (readdirSync this)
               = Some entries).
  { unfold Directory_children in H. rewrite Hex in H.
    destruct (mapM _ _); by simplify_eq. }
  destruct (children_Some _ _ _ Hm) as [Hp Hf].
  assert (Hs : Forall (λ entry, is_Some (statSync (entry_path entry))) entries).
  { eapply Forall_impl; [exact Hf|]. intros e (s & -> & _). eauto. }
  split; [done|].
  unfold Directory_files, Directory_directories, filter_children.
  rewrite Hex, H, !filter_stat_Some by done.
  split; [done|]. split; [done|].
  split_and!; apply Forall_forall; intros e [He Hin]%list_elem_of_filter;
    rewrite Forall_forall in Hf; destruct (Hf e Hin) as (s & Hs' & Hc);
    rewrite He in Hs'; by simplify_eq.
Qed.

End DirectoryChildrenFacts.

Lemma Directory_listings_witness :
  Directory_files path_resolve_join (λ _, true) readdir_src stat_src "/p/src"
  = Listed [mkEntry ClassFile "/p/src/index.js"]
  ∧ Directory_directories path_resolve_join (λ _, true) readdir_src stat_src "/p/src"
    = Listed [mkEntry ClassDirectory "/p/src/lib"].
Proof.
  destruct (proj2 (Directory_listings path_resolve_join (λ _, true) readdir_src
                     stat_src "/p/src")
              [mkEntry ClassFile "/p/src/index.js"; mkEntry ClassDirectory "/p/src/lib";
               mkEntry ClassFile "/p/src/pipe"] eq_refl)
    as (_ & Hfiles & Hdirs & _).
  split; [exact Hfiles|exact Hdirs].
Defined.



(** ** [Project.publish] and [Project.publishWithLerna] *)

Section PublishFacts.

Variable semver_inc : release -> option string.
Variable canary_version : string -> string -> string.



(** X20: [publish] reads [current] before the line that declares it
  whenever the short commit code is not there to stand in for the hash:
  outside lerna, on a project that is not a git repository, or whose
  repository is clean and answers with an empty commit code, [publish]
  fails with a [ReferenceError], whatever version is asked for, and
  issues no call.  With uncommitted changes it throws its own error
  first. *)
Theorem publish_needs_commit_code env version git npm :
(pe_git_check env = true → pe_git_hasChanges env = true →
 publish semver_inc canary_version env version git npm
 = PublishError ("uncommitted or unpushed changes in the repository "
                 ++ pe_git_cwd env)%string)
∧ (uses_lerna env = false →
   pe_git_check env = false
   ∨ (pe_git_hasChanges env = false ∧ pe_shortCommitCode env = EmptyString) →
   publish semver_inc canary_version env version git npm = PublishReferenceError).
Proof.
split.
- intros Hc Hd. unfold publish. by rewrite Hc, Hd.
- intros Hl [Hc|[Hd Hs]]; unfold publish; rewrite Hl.
  + by rewrite Hc.
  + rewrite Hd, Hs, andb_false_r. simpl. by rewrite andb_false_r.
Qed.

Lemma publish_calls_inv env git npm tag newVersion v versioned released tag' published :
publish_calls env git npm tag newVersion
= PublishCalls v versioned released tag' published →
newVersion = Some v
∧ versioned = pe_path env :: default [] (pe_workspaces env)
∧ released = pe_git_check env && jsval_truthy git
∧ tag' = tag
∧ published = if jsval_truthy npm then versioned else [].
Proof.
unfold publish_calls. destruct newVersion; [|done]. intros [= <- <- <- <- <-]. done.
Qed.

(** X21: whenever [publish] gets to issue calls, the project is a clean git
  repository with a commit code and a version was asked for; the version
  is set on the project and on each of its workspaces; what is published
  to npm, if [npm] is truthy, is exactly what was versioned, and nothing
  otherwise; the release is tagged in git exactly when [git] is truthy;
  and the dist-tag is [alpha] for [canary] and [alpha], [beta] for [beta],
  [rc] for [rc], and left undefined for every other version. *)
Theorem publish_calls_sound env version git npm v versioned released tag published :
publish semver_inc canary_version env version git npm
= PublishCalls v versioned released tag published →
pe_git_check env = true ∧ pe_git_hasChanges env = false
∧ pe_shortCommitCode env ≠ EmptyString ∧ uses_lerna env = false
∧ is_Some (version_given version)
∧ versioned = pe_path env :: default [] (pe_workspaces env)
∧ published = (if jsval_truthy npm then versioned else [])
∧ released = jsval_truthy git
∧ tag = prerelease_tag version.
Proof.
unfold publish. intros H.
destruct (pe_git_check env) eqn:Hc; simpl in H;
  [|by destruct (uses_lerna env)].
destruct (pe_git_hasChanges env) eqn:Hd; [done|].
destruct (uses_lerna env) eqn:Hl; [done|].
case_bool_decide as Hs; [done|]. simpl in H.
assert (Hgiven : ∀ s, s ≠ EmptyString → is_Some (version_given (Some s))).
{ intros s Hne. simpl. rewrite bool_decide_eq_false_2 by done. eauto. }
unfold prerelease_tag.
repeat case_bool_decide; simplify_eq;
  try (destruct (semver_inc _) eqn:Hi; [|done]);
  try (destruct (version_given version) as [v'|] eqn:Hv);
  try (destruct (pe_ci env));
  try (destruct (semver_inc _); done);
  try (apply publish_calls_inv in H as (Hn & -> & -> & -> & ->));
  simplify_eq; rewrite ?Hc; split_and!; eauto.
Qed.

End PublishFacts.

Lemma publish_needs_commit_code_witness :
  publish semver_from_1_2_3 canary_join env_no_git (Some "patch") (VBool true) (VBool true)
  = PublishReferenceError.
Proof.
  apply (publish_needs_commit_code semver_from_1_2_3 canary_join env_no_git).
  - reflexivity.
  - by left.
Defined.

Lemma publish_calls_sound_witness :
  is_Some (version_given (Some "beta"))
  ∧ ["/p"; "/p/packages/a"; "/p/packages/b"]
    = pe_path env_monorepo :: default [] (pe_workspaces env_monorepo)
  ∧ false = jsval_truthy VUndefined
  ∧ Some "beta" = prerelease_tag (Some "beta").
Proof.
  destruct (publish_calls_sound semver_from_1_2_3 canary_join env_monorepo (Some "beta")
              VUndefined (VBool true) "1.2.4-beta.0"
              ["/p"; "/p/packages/a"; "/p/packages/b"] false (Some "beta")
              ["/p"; "/p/packages/a"; "/p/packages/b"] eq_refl)
    as (_ & _ & _ & _ & Hv & Hp & _ & Hr & Ht).
  split; [exact Hv|]. split; [exact Hp|]. split; [exact Hr|exact Ht].
Defined.



(** ** The entries of the build action *)

Section BuildEntriesFacts.

Variable glob_sync : string -> string -> list string.
Variable statSync : string -> option stat.
Variable getWorkspaceDependencies : Project -> list Project.

Lemma isProjectInList_spec lst project :
isProjectInList lst project = true ↔ project_name project ∈ project_names lst.
Proof.
unfold isProjectInList, project_names. rewrite existsb_exists, list_elem_of_omap.
split.
- intros (e & Hin & He). exists e. split; [by apply list_elem_of_In|].
  destruct e; try done. by apply bool_decide_eq_true in He as ->.
- intros (e & Hin & He). exists e. split; [by apply list_elem_of_In|].
  destruct e; try done. apply bool_decide_eq_true. by injection He.
Qed.

Lemma add_entry_nonempty recursive lst entry :
add_entry getWorkspaceDependencies recursive lst entry = [] → lst = [].
Proof.
unfold add_entry. destruct entry as [p| |]; try by destruct lst.
destruct (isProjectInList lst p) eqn:Hin; [done|].
intros H. by destruct lst, (EProject <$> _).
Qed.

Lemma foldl_add_entry_nil recursive lst resolved :
foldl (add_entry getWorkspaceDependencies recursive) lst resolved = [] ↔
lst = [] ∧ resolved = [].
Proof.
revert lst. induction resolved as [|entry resolved IH]; intros lst; simpl.
- split; [by intros ->|by intros [-> _]].
- rewrite IH. split; [|by intros [_ [=]]]. intros [H ->].
  pose proof (add_entry_nonempty _ _ _ H) as ->. exfalso. revert H.
  unfold add_entry. destruct entry as [p| |]; simpl; try done.
  by destruct (EProject <$> _).
Qed.

(** X22: the action fails with [missing files to build] in two cases only:
  without arguments on a monorepo whose workspaces resolve to nothing
  (the root project is not taken instead), and with arguments that
  resolve to nothing; and with arguments it fails with the exception of
  [project.resolve] exactly when that call throws. *)
Theorem build_entries_missing arguments recursive project workspaces :
(build_entries glob_sync statSync getWorkspaceDependencies arguments recursive
               project workspaces = MissingFiles
 ↔ (arguments = [] ∧ workspaces = Some [])
   ∨ (arguments ≠ []
      ∧ Project_resolve glob_sync statSync project workspaces (Many arguments)
        = Some []))
∧ (build_entries glob_sync statSync getWorkspaceDependencies arguments recursive
                 project workspaces = ResolveThrew
   ↔ arguments ≠ []
     ∧ Project_resolve glob_sync statSync project workspaces (Many arguments) = None).
Proof.
unfold build_entries. destruct arguments as [|argument arguments].
- split.
  + destruct workspaces as [[|w ws]|]; simpl; split; try done; try by left.
    * intros [[_ [=]]|[? _]]; done.
    * intros [[_ [=]]|[? _]]; done.
  + split; [|by intros [? _]]. by destruct workspaces as [[|w ws]|].
- destruct (Project_resolve _ _ _ _ _) as [resolved|] eqn:Hres.
  + split.
    * unfold check_entries.
      destruct (foldl _ [] resolved) as [|e es] eqn:Hf.
      -- apply foldl_add_entry_nil in Hf as [_ ->]. split; [|done]. intros _. by right.
      -- split; [done|]. intros [[[=] _]|[_ [= ->]]]. done.
    * split; [|by intros [_ [=]]]. unfold check_entries. by destruct (foldl _ _ _).
  + split; [|done]. split; [done|]. by intros [[[=] _]|[_ [=]]].
Qed.

Lemma plain_entries_app l1 l2 :
plain_entries (l1 ++ l2) = plain_entries l1 ++ plain_entries l2.
Proof. apply filter_app. Qed.

Lemma plain_entries_projects (ps : list Project) : plain_entries (EProject <$> ps) = [].
Proof.
induction ps as [|p ps IH]; [done|]. rewrite fmap_cons. unfold plain_entries.
rewrite filter_cons_False by done. apply IH.
Qed.

Lemma project_names_app l1 l2 :
project_names (l1 ++ l2) = project_names l1 ++ project_names l2.
Proof. apply omap_app. Qed.

Lemma add_entry_plain recursive lst entry :
plain_entries (add_entry getWorkspaceDependencies recursive lst entry)
= plain_entries lst ++ plain_entries [entry].
Proof.
unfold add_entry. destruct entry as [p| |]; try apply plain_entries_app.
destruct (isProjectInList lst p); [by rewrite app_nil_r|].
rewrite !plain_entries_app, plain_entries_projects. done.
Qed.

Lemma add_entry_names recursive lst entry name :
name ∈ project_names lst ∨ name ∈ project_names [entry] →
name ∈ project_names (add_entry getWorkspaceDependencies recursive lst entry).
Proof.
unfold add_entry. destruct entry as [p| |].
- destruct (isProjectInList lst p) eqn:Hin.
  + intros [?|Hn]; [done|]. apply list_elem_of_singleton in Hn as ->.
    by apply isProjectInList_spec.
  + rewrite !project_names_app, !elem_of_app. tauto.
- rewrite project_names_app, elem_of_app. tauto.
- rewrite project_names_app, elem_of_app. tauto.
Qed.

Lemma add_entry_plainly lst entry :
add_entry getWorkspaceDependencies false lst entry = lst
∨ (add_entry getWorkspaceDependencies false lst entry = lst ++ [entry]
   ∧ ∀ name, name ∈ project_names [entry] → name ∉ project_names lst).
Proof.
unfold add_entry. destruct entry as [p| |].
- destruct (isProjectInList lst p) eqn:Hin; [by left|]. right. split; [done|].
  intros name ->%list_elem_of_singleton Hn.
  apply isProjectInList_spec in Hn. congruence.
- right. split; [done|]. by intros name []%elem_of_nil.
- right. split; [done|]. by intros name []%elem_of_nil.
Qed.

Lemma add_entry_origin recursive lst entry e :
e ∈ add_entry getWorkspaceDependencies recursive lst entry →
e ∈ lst ∨ e = entry
∨ ∃ p dep, entry = EProject p ∧ dep ∈ getWorkspaceDependencies p ∧ e = EProject dep.
Proof.
unfold add_entry. destruct entry as [p| |].
- destruct (isProjectInList lst p); [by left|].
  rewrite !elem_of_app, list_elem_of_singleton, list_elem_of_fmap.
  intros [?|[(dep & -> & Hdep)|?]]; [by left| |by right; left].
  right. right. exists p, dep. split; [done|]. split; [|done].
  destruct recursive; [|by apply elem_of_nil in Hdep].
  by apply list_elem_of_filter in Hdep as [_ ?].
- rewrite elem_of_app, list_elem_of_singleton. tauto.
- rewrite elem_of_app, list_elem_of_singleton. tauto.
Qed.

Lemma foldl_add_entry_spec recursive lst resolved :
let entries := foldl (add_entry getWorkspaceDependencies recursive) lst resolved in
plain_entries entries = plain_entries lst ++ plain_entries resolved
∧ (∀ name, name ∈ project_names lst ∨ name ∈ project_names resolved →
           name ∈ project_names entries)
∧ (∀ e, e ∈ entries →
        e ∈ lst ∨ e ∈ resolved
        ∨ ∃ p dep, EProject p ∈ resolved ∧ dep ∈ getWorkspaceDependencies p
                   ∧ e = EProject dep)
∧ (recursive = false → NoDup (project_names lst) →
   NoDup (project_names entries) ∧ ∃ added, entries = lst ++ added
                                            ∧ sublist added resolved).
Proof.
cbv zeta. revert lst.
induction resolved as [|entry resolved IH]; intros lst; cbn [foldl].
- split; [by rewrite app_nil_r|]. split; [by intros name [?|[]%elem_of_nil]|].
  split; [auto|]. intros _ Hnd. split; [done|]. exists []. by rewrite app_nil_r.
- destruct (IH (add_entry getWorkspaceDependencies recursive lst entry))
    as (Hp & Hn & Ho & Hnd). split_and!.
  + rewrite Hp, add_entry_plain, <- app_assoc.
    change (entry :: resolved) with ([entry] ++ resolved).
    by rewrite plain_entries_app.
  + intros name Hname. apply Hn.
    change (entry :: resolved) with ([entry] ++ resolved) in Hname.
    rewrite project_names_app, elem_of_app in Hname.
    destruct Hname as [?|[?|?]]; [| |by right]; left; apply add_entry_names; auto.
  + intros e He. apply Ho in He as [He|[He|(p & dep & Hin & Hdep & ->)]].
    * apply add_entry_origin in He as [?|[->|(p & dep & -> & Hdep & ->)]].
      -- by left.
      -- right. left. apply list_elem_of_here.
      -- right. right. exists p, dep. split; [apply list_elem_of_here|done].
    * right. left. by apply list_elem_of_further.
    * right. right. exists p, dep. split; [by apply list_elem_of_further|done].
  + intros -> Hlst. destruct (add_entry_plainly lst entry) as [Heq|[Heq Hfresh]].
    * rewrite Heq in Hnd |- *.
      destruct (Hnd eq_refl Hlst) as (Hnd' & added & Hadd & Hsub).
      split; [done|]. exists added. split; [done|]. by apply sublist_cons.
    * rewrite Heq in Hnd |- *.
      destruct Hnd as (Hnd' & added & Hadd & Hsub); [done| |].
      { rewrite project_names_app. apply NoDup_app. split; [done|]. split.
        - intros name Hn1 Hn2. by apply (Hfresh name).
        - destruct entry; simpl; [apply NoDup_singleton|apply NoDup_nil_2..]. }
      split; [done|]. exists (entry :: added). rewrite Hadd, <- app_assoc.
      split; [done|]. by apply sublist_skip.
Qed.

(** X23: with arguments that [project.resolve] resolves, the entries keep
  every resolved file and directory, in the order of resolution; every
  resolved project is among them, or a project of its name is; every
  entry is a resolved one or a workspace dependency of a resolved
  project; and without [--recursive] the entries are the resolved ones in
  their order, short of the projects whose name came before, so that no
  two projects of the entries have the same name. *)
Theorem build_entries_projects argument arguments recursive project workspaces entries :
build_entries glob_sync statSync getWorkspaceDependencies (argument :: arguments)
              recursive project workspaces = Entries entries →
∃ resolved,
  Project_resolve glob_sync statSync project workspaces
                  (Many (argument :: arguments)) = Some resolved
  ∧ plain_entries entries = plain_entries resolved
  ∧ (∀ name, name ∈ project_names resolved → name ∈ project_names entries)
  ∧ (∀ e, e ∈ entries →
          e ∈ resolved
          ∨ ∃ p dep, EProject p ∈ resolved ∧ dep ∈ getWorkspaceDependencies p
                     ∧ e = EProject dep)
  ∧ (recursive = false → NoDup (project_names entries) ∧ sublist entries resolved).
Proof.
intros H. unfold build_entries in H.
destruct (Project_resolve _ _ _ _ _) as [resolved|] eqn:Hres; [|done].
exists resolved. split; [done|].
destruct (foldl_add_entry_spec recursive [] resolved) as (Hp & Hn & Ho & Hnd).
unfold check_entries in H.
destruct (foldl _ [] resolved) as [|e es] eqn:Hf; [done|]. injection H as <-.
split_and!.
- done.
- intros name Hname. apply Hn. by right.
- intros e' He'. apply Ho in He' as [[]%elem_of_nil|?]. done.
- intros Hr. destruct (Hnd Hr (NoDup_nil_2)) as (? & added & Heq & Hsub).
  split; [done|]. by rewrite Heq.
Qed.

End BuildEntriesFacts.

Lemma build_entries_missing_witness :
  build_entries glob_project stat_project no_dependencies ["docs/*.md"] false
                root_project (Some [workspace_core; workspace_ui]) = MissingFiles
  ∧ build_entries glob_project stat_project no_dependencies ["test/*.js"] false
                  root_project (Some [workspace_core; workspace_ui]) = ResolveThrew.
Proof.
  destruct (build_entries_missing glob_project stat_project no_dependencies
              ["docs/*.md"] false root_project (Some [workspace_core; workspace_ui]))
    as [Hmissing _].
  destruct (build_entries_missing glob_project stat_project no_dependencies
              ["test/*.js"] false root_project (Some [workspace_core; workspace_ui]))
    as [_ Hthrew].
  split.
  - apply Hmissing. right. split; [discriminate|reflexivity].
  - apply Hthrew. split; [discriminate|reflexivity].
Defined.

Lemma build_entries_projects_witness :
  let entries := [EProject workspace_ui; EProject workspace_core;
                  EFile "/project/src/a.js"; EFile "/project/src/a.css"] in
  build_entries glob_project stat_project no_dependencies
                ["@scope/ui"; "src/a.*"; "@scope/core"; "@scope/ui"] false root_project
                (Some [workspace_core; workspace_ui]) = Entries entries
  ∧ plain_entries entries = [EFile "/project/src/a.js"; EFile "/project/src/a.css"]
  ∧ NoDup (project_names entries).
Proof.
  intros entries.
  assert (Hbuilt : build_entries glob_project stat_project no_dependencies
                     ["@scope/ui"; "src/a.*"; "@scope/core"; "@scope/ui"] false
                     root_project (Some [workspace_core; workspace_ui])
                   = Entries entries) by reflexivity.
  split; [exact Hbuilt|].
  destruct (build_entries_projects glob_project stat_project no_dependencies "@scope/ui"
              ["src/a.*"; "@scope/core"; "@scope/ui"] false root_project
              (Some [workspace_core; workspace_ui]) entries Hbuilt)
    as (resolved & Hres & Hplain & _ & _ & Hnd).
  vm_compute in Hres. injection Hres as <-.
  split; [reflexivity|]. exact (proj1 (Hnd eq_refl)).
Defined.
